(** * Session orchestration of the Android emulator MCP server

    A shallow embedding of
      - [src/core/session-manager.ts]      (class [SessionManager]),
      - [src/adapters/emulator-adapter.ts] (class [EmulatorAdapter]),
      - the tool handlers [input-text-tool.ts], [key-event-tool.ts] and
        [install-mitm-cert-tool.ts],
    and the properties of the specification that are stated about them.

    Conventions.
      - A JavaScript [number] holding a port, a pid or a time in ms is a [Z].
      - A rejected promise or a thrown exception is the [Err] branch of
        [Result]; [Thrown] tells a [SniaffError] from any other error value.
      - What an external command, the file system or the operating system
        answers is not decided by the program: every such answer is an
        input of the embedded function (an environment record, or the
        label of a transition).
      - Logger calls ([this.logger.info] ...) never influence control flow
        (the promise of [Logger.write] is dropped) and are not embedded. *)

From stdpp Require Import gmap strings list fin_maps pretty.
From Stdlib Require Import ZArith Lia Ascii.

Open Scope Z_scope.

(** ** Errors *)

(** [ErrorCode] of [types/errors.ts]: the members the embedded sources use. *)
Inductive ErrorCode :=
| SESSION_NOT_FOUND
| INVALID_ARGUMENT
| AVD_NOT_FOUND
| EMULATOR_BINARY_NOT_FOUND
| ADB_NOT_FOUND
| EMULATOR_START_FAILED
| EMULATOR_BOOT_TIMEOUT
| PROXY_CONFIG_FAILED
| ADB_COMMAND_FAILED
| INTERNAL_ERROR.

#[global] Instance ErrorCode_eq_dec : EqDecision ErrorCode.
Proof. solve_decision. Defined.

(** A value that can be thrown: a [SniaffError] (code and message), or any
    other error, of which the sources read [.code] and [.message]. *)
Inductive Thrown :=
| Sniaff (code : ErrorCode) (message : string)
| Raw (code : option string) (message : string).

Definition thrownMessage (e : Thrown) : string :=
  match e with Sniaff _ m => m | Raw _ m => m end.

Inductive Result (A : Type) :=
| Ok (a : A)
| Err (e : Thrown).
Arguments Ok {A} a.
Arguments Err {A} e.

(** ** Strings *)

(** The double quote character, for command lines that contain one. *)
Definition dq : string := String (Ascii.ascii_of_nat 34) EmptyString.

(** [String(n)] of an integral number. *)
Definition numberToString (n : Z) : string := pretty n.

(** [s.startsWith(p)]. *)
Fixpoint startsWith (p s : string) : bool :=
  match p, s with
  | EmptyString, _ => true
  | String a p', String b s' => if Ascii.eqb a b then startsWith p' s' else false
  | String _ _, EmptyString => false
  end.

(** [hay.includes(needle)]. *)
Fixpoint includes (needle hay : string) : bool :=
  startsWith needle hay ||
  match hay with
  | EmptyString => false
  | String _ hay' => includes needle hay'
  end.

(** [s.replace(/c/g, r)] for a pattern that is the single character [c]. *)
Fixpoint replaceAll (c : Ascii.ascii) (r : string) (s : string) : string :=
  match s with
  | EmptyString => EmptyString
  | String a s' =>
      (if Ascii.eqb a c then r else String a EmptyString) +:+ replaceAll c r s'
  end.

(** ** Configuration *)

(** The fields of [Config] ([config.ts]) that the embedded sources read. *)
Record Config := {
  adbPath : string;
  emulatorPath : string;
  defaultEmulatorPort : Z;
  bootPollInterval : Z;
  workspacesDir : string
}.

(** ** Outcome of a child command *)

(** What [execPromise(cmd)] settles to: [stdout] when the command exits with
    status 0, a rejection otherwise. *)
Inductive ExecOutcome :=
| ExecOk (stdout : string)
| ExecFail (code : option string) (message : string).

(** [err.code === 'ENOENT' || err.message?.includes('ENOENT')]. *)
Definition isENOENT (code : option string) (message : string) : bool :=
  bool_decide (code = Some "ENOENT") || includes "ENOENT" message.

(** ** The device id, as each consumer derives it *)

(** The transform the specification documents:
    [deviceId = "emulator-" + (companionPort - 1)]. *)
Definition deviceIdOf (companionPort : Z) : string :=
  "emulator-" +:+ numberToString (companionPort - 1).

Module DeviceCommands.

(** Every definition below is the command line (or the command lines, in
    program order) that the named consumer hands to [execPromise]; the
    [let deviceId] is the consumer's own first statement. *)

(** emulator-adapter.ts, [waitForBoot], line 251 and 263. *)
Definition waitForBoot_getprop (cfg : Config) (adbPort : Z) : string :=
  let deviceId := "emulator-" +:+ numberToString (adbPort - 1) in
  adbPath cfg +:+ " -s " +:+ deviceId +:+ " shell getprop sys.boot_completed".

(** emulator-adapter.ts, [setProxy], line 319 and 323. *)
Definition setProxy (cfg : Config) (adbPort : Z) (host : string) (port : Z)
  : string :=
  let deviceId := "emulator-" +:+ numberToString (adbPort - 1) in
  adbPath cfg +:+ " -s " +:+ deviceId +:+
    " shell settings put global http_proxy " +:+ host +:+ ":" +:+
    numberToString port.

(** emulator-adapter.ts, [clearProxy], line 337 and 340. *)
Definition clearProxy (cfg : Config) (adbPort : Z) : string :=
  let deviceId := "emulator-" +:+ numberToString (adbPort - 1) in
  adbPath cfg +:+ " -s " +:+ deviceId +:+
    " shell settings put global http_proxy :0".

(** emulator-adapter.ts, [checkRootStatus], line 358 and 365. *)
Definition checkRootStatus (cfg : Config) (adbPort : Z) : string :=
  let deviceId := "emulator-" +:+ numberToString (adbPort - 1) in
  adbPath cfg +:+ " -s " +:+ deviceId +:+ " shell " +:+ dq +:+ "su -c id" +:+ dq.

(** emulator-adapter.ts, [installMagiskModule], line 389 to 408.
    [moduleFileName] is [modulePath.split('/').pop() || 'module.zip']. *)
Definition installMagiskModule (cfg : Config) (adbPort : Z)
    (modulePath moduleFileName : string) : list string :=
  let deviceId := "emulator-" +:+ numberToString (adbPort - 1) in
  let remotePath := "/sdcard/Download/" +:+ moduleFileName in
  [ adbPath cfg +:+ " -s " +:+ deviceId +:+ " push " +:+
      dq +:+ modulePath +:+ dq +:+ " " +:+ dq +:+ remotePath +:+ dq;
    adbPath cfg +:+ " -s " +:+ deviceId +:+ " shell " +:+ dq +:+
      "su -c 'magisk --install-module " +:+ remotePath +:+ "'" +:+ dq ].


(** emulator-adapter.ts, [reboot], line 509 and 516. *)
Definition reboot (cfg : Config) (adbPort : Z) : string :=
  let deviceId := "emulator-" +:+ numberToString (adbPort - 1) in
  adbPath cfg +:+ " -s " +:+ deviceId +:+ " reboot".

(** input-text-tool.ts, line 37 to 50: the chain of [.replace] calls. *)
Definition escapeText (text : string) : string :=
  let esc (a : Ascii.ascii) (s : string) : string :=
    replaceAll a ("\" +:+ String a EmptyString) s in
  let s := esc "\"%char text in
  let s := esc (Ascii.ascii_of_nat 34) s in
  let s := esc "'"%char s in
  let s := esc "`"%char s in
  let s := esc "$"%char s in
  let s := esc "&"%char s in
  let s := esc ";"%char s in
  let s := esc "|"%char s in
  let s := esc "<"%char s in
  let s := esc ">"%char s in
  let s := esc "("%char s in
  let s := esc ")"%char s in
  replaceAll " "%char "%s" s.

(** input-text-tool.ts, line 33 and 52; [sessionAdbPort] is
    [session.adbPort] of the session the handler looked up. *)
Definition inputText (cfg : Config) (sessionAdbPort : Z) (text : string)
  : string :=
  let deviceId := "emulator-" +:+ numberToString (sessionAdbPort - 1) in
  adbPath cfg +:+ " -s " +:+ deviceId +:+ " shell input text " +:+
    dq +:+ escapeText text +:+ dq.

(** key-event-tool.ts, line 90 and 112 to 113. *)
Definition keyEvent (cfg : Config) (sessionAdbPort : Z) (longPress : bool)
    (keyCode : Z) : string :=
  let deviceId := "emulator-" +:+ numberToString (sessionAdbPort - 1) in
  let longPressArg := if longPress then " --longpress" else "" in
  adbPath cfg +:+ " -s " +:+ deviceId +:+ " shell input keyevent" +:+
    longPressArg +:+ " " +:+ numberToString keyCode.

(** install-mitm-cert-tool.ts, line 32 and 35. *)
Definition installMitmCertTool (cfg : Config) (sessionAdbPort : Z) : string :=
  let deviceId := "emulator-" +:+ numberToString (sessionAdbPort - 1) in
  adbPath cfg +:+ " -s " +:+ deviceId +:+
    " shell am start -a android.intent.action.VIEW -d " +:+
    dq +:+ "http://mitm.it" +:+ dq.


End DeviceCommands.

(** More of the string library: [trim] and [split]. *)

(** The white space [String.prototype.trim] strips, as far as it is ASCII:
    tab, line feed, vertical tab, form feed, carriage return, space. *)
Definition isWhiteSpace (a : ascii) : bool :=
  let n := nat_of_ascii a in
  ((9 <=? n)%nat && (n <=? 13)%nat) || (n =? 32)%nat.

Fixpoint trimStart (s : string) : string :=
  match s with
  | String a s' => if isWhiteSpace a then trimStart s' else s
  | EmptyString => EmptyString
  end.

Fixpoint trimEnd (s : string) : string :=
  match s with
  | EmptyString => EmptyString
  | String a s' =>
      match trimEnd s' with
      | EmptyString => if isWhiteSpace a then EmptyString else String a EmptyString
      | t => String a t
      end
  end.

Definition trim (s : string) : string := trimEnd (trimStart s).

(** [s.split(c)] for a one-character separator: the pieces, in order. *)
Fixpoint split (c : ascii) (s : string) : list string :=
  match s with
  | EmptyString => [EmptyString]
  | String a s' =>
      if Ascii.eqb a c then EmptyString :: split c s'
      else match split c s' with
           | piece :: pieces => String a piece :: pieces
           | [] => [String a EmptyString]
           end
  end.

(** The line feed character. *)
Definition lf : ascii := ascii_of_nat 10.

(** ** Process Supervisor *)

Module ProcessSupervisor.

(** Modelled from the spec: [core/process-supervisor.ts] is not among the
    sources.  Section 4.2: the supervisor spawns, tracks and terminates
    child processes; [kill] is idempotent, killing a dead or unknown pid is
    a no-op and not an error.  A tracked process is recorded with the
    console port of its command line, which a running emulator holds. *)
Record Proc := { procPort : Z; procAlive : bool }.

Definition spawn (pid port : Z) (procs : gmap Z Proc) : gmap Z Proc :=
  <[pid := {| procPort := port; procAlive := true |}]> procs.

Definition exited (pid : Z) (procs : gmap Z Proc) : gmap Z Proc :=
  alter (fun p => {| procPort := procPort p; procAlive := false |}) pid procs.

Definition kill (pid : Z) (procs : gmap Z Proc) : Result unit * gmap Z Proc :=
  (Ok tt, exited pid procs).

Definition isRunning (pid : Z) (procs : gmap Z Proc) : bool :=
  match procs !! pid with
  | Some p => procAlive p
  | None => false
  end.

End ProcessSupervisor.

(** ** Port Finder *)

Module PortFinder.

(** Modelled from the spec: [utils/port-finder.ts] is not among the
    sources.  Section 4.5: [findAvailableEven(start, end)] scans the
    even-valued candidates in [[start, end]] in ascending order, testing
    each for availability, and returns the first available one or fails
    when there is none.  [avail] is the availability test. *)
Fixpoint scan (avail : Z -> bool) (n : nat) (p : Z) : option Z :=
  match n with
  | O => None
  | S n' => if Z.even p && avail p then Some p else scan avail n' (p + 1)
  end.

Definition findAvailableEven (avail : Z -> bool) (start end_ : Z) : Result Z :=
  match scan avail (Z.to_nat (end_ - start + 1)) start with
  | Some p => Ok p
  | None => Err (Raw None "No available port in range")
  end.

End PortFinder.

(** ** Emulator Adapter *)

Module EmulatorAdapter.

Import ProcessSupervisor.

Record EmulatorStartOptions := {
  avdName : string;
  port : option Z;
  headless : bool;
  logFile : string
}.

Record EmulatorStartResult := {
  pid : Z;
  consolePort : Z;
  adbPort : Z
}.

(** What the world answers during one [start] call. *)
Record StartEnv := {
  (** [emulator -list-avds] *)
  listAvdsOutcome : ExecOutcome;
  (** the availability test behind [portFinder.findAvailableEven] *)
  portAvailable : Z -> bool;
  (** [createWriteStream(logFile)] throws this, if anything *)
  logStreamError : option string;
  (** [supervisor.spawn]: the pid of the new process (the operating system
      numbers processes from 1), or a rejection *)
  spawnOutcome : Result positive;
  (** the new process exits within the settle delay of one second *)
  exitsDuringSettle : bool
}.

(** [listAvds], line 132 to 151. *)
Definition listAvds (cfg : Config) (out : ExecOutcome) : Result (list string) :=
  match out with
  | ExecOk stdout =>
      Ok (List.filter (fun l => negb (bool_decide (l = EmptyString)))
            (split lf (trim stdout)))
  | ExecFail code message =>
      if isENOENT code message then
        Err (Sniaff EMULATOR_BINARY_NOT_FOUND
               ("Emulator not found at: " +:+ emulatorPath cfg))
      else
        Err (Sniaff EMULATOR_START_FAILED ("Failed to list AVDs: " +:+ message))
  end.

(** [options.port || this.config.defaultEmulatorPort], line 163: an absent
    port and the port 0 are both falsy. *)
Definition requestedPort (cfg : Config) (options : EmulatorStartOptions) : Z :=
  match port options with
  | Some p => if p =? 0 then defaultEmulatorPort cfg else p
  | None => defaultEmulatorPort cfg
  end.

(** [if (consolePort % 2 !== 0) consolePort++], line 164. *)
Definition roundUpToEven (consolePort : Z) : Z :=
  if Z.rem consolePort 2 =? 0 then consolePort else consolePort + 1.

(** The argument vector of the emulator process, line 178 to 190. *)
Definition emulatorArgs (options : EmulatorStartOptions) (consolePort : Z)
  : list string :=
  [ "-avd"; avdName options; "-port"; numberToString consolePort;
    "-no-snapshot-save"; "-dns-server"; "8.8.8.8" ] ++
  (if headless options then ["-no-window"] else []).

(** [start], line 153 to 248.  The process table is the supervisor's; the
    result is what the promise settles to, and the table afterwards. *)
Definition start (cfg : Config) (options : EmulatorStartOptions)
    (env : StartEnv) (procs : gmap Z Proc)
  : Result EmulatorStartResult * gmap Z Proc :=
  match listAvds cfg (listAvdsOutcome env) with
  | Err e => (Err e, procs)
  | Ok avds =>
      if negb (bool_decide (avdName options ∈ avds)) then
        (Err (Sniaff AVD_NOT_FOUND
                ("AVD '" +:+ avdName options +:+ "' not found")), procs)
      else
        let consolePort := roundUpToEven (requestedPort cfg options) in
        match PortFinder.findAvailableEven (portAvailable env) consolePort 5682 with
        | Err _ =>
            (Err (Sniaff EMULATOR_START_FAILED
                    "No available emulator ports in range 5554-5682"), procs)
        | Ok consolePort =>
            let adbPort := consolePort + 1 in
            match logStreamError env with
            | Some _ =>
                (Err (Sniaff EMULATOR_START_FAILED
                        ("Failed to create log file: " +:+ logFile options)),
                 procs)
            | None =>
                match spawnOutcome env with
                | Ok p =>
                    let pid := Z.pos p in
                    let procs := spawn pid consolePort procs in
                    (* await this.delay(1000) *)
                    let procs :=
                      if exitsDuringSettle env then exited pid procs else procs in
                    if negb (isRunning pid procs) then
                      (Err (Sniaff EMULATOR_START_FAILED
                              "Emulator process exited immediately"), procs)
                    else
                      (Ok {| pid := pid; consolePort := consolePort;
                             adbPort := adbPort |}, procs)
                | Err (Sniaff c m) => (Err (Sniaff c m), procs)
                | Err (Raw code message) =>
                    if bool_decide (code = Some "ENOENT") then
                      (Err (Sniaff EMULATOR_BINARY_NOT_FOUND
                              ("Emulator not found at: " +:+ emulatorPath cfg)),
                       procs)
                    else
                      (Err (Sniaff EMULATOR_START_FAILED
                              ("Failed to start emulator: " +:+ message)), procs)
                end
            end
        end
  end.

(** [stop], line 348 to 351. *)
Definition stop (pid : Z) (procs : gmap Z Proc) : Result unit * gmap Z Proc :=
  kill pid procs.

(** [checkRootStatus], line 357 to 382; [exec] is [execPromise] (with its
    timeout of ten seconds, whose expiry is a rejection like any other). *)
Definition checkRootStatus (cfg : Config) (exec : string -> ExecOutcome)
    (adbPort : Z) : Result bool :=
  match exec (DeviceCommands.checkRootStatus cfg adbPort) with
  | ExecOk stdout =>
      let isRooted := includes "uid=0" stdout in
      Ok isRooted
  | ExecFail _ _ => Ok false
  end.


(** *** Waiting for boot, against a clock

    [Date.now()] reads a clock in milliseconds.  A command handed to
    [execPromise] at time [t] settles at [t] plus its latency; what it
    settles to may depend on [t].  [await this.delay(ms)] settles [ms]
    later, and one millisecond later when [ms] is below 1 (the rule of
    [setTimeout]); timers are taken to fire when due. *)
Record Bridge := {
  answer : string -> Z -> ExecOutcome;
  latency : string -> Z -> Z
}.

Definition settlesAt (bridge : Bridge) (cmd : string) (now : Z) : Z :=
  now + Z.max 0 (latency bridge cmd now).

Definition delay (ms : Z) (now : Z) : Z := now + Z.max 1 ms.

(** How a wait ended: the settlement, the time of settlement, and the
    commands that were issued with their times, oldest first. *)
Record Run := {
  outcome : Result unit;
  finishedAt : Z;
  issued : list (Z * string)
}.

Definition devicesCommand (cfg : Config) : string := adbPath cfg +:+ " devices".

(** The [while] loop of [waitForDevice], line 290 to 309; [fuel] bounds
    the number of iterations. *)
Fixpoint waitForDevice_loop (cfg : Config) (bridge : Bridge) (deviceId : string)
    (timeout startTime : Z) (fuel : nat) (now : Z) (log : list (Z * string))
  : option Run :=
  match fuel with
  | O => None
  | S fuel' =>
      if now - startTime <? timeout then
        let cmd := devicesCommand cfg in
        let log := log ++ [(now, cmd)] in
        let settled := settlesAt bridge cmd now in
        let again :=
          waitForDevice_loop cfg bridge deviceId timeout startTime fuel'
            (delay 1000 settled) log in
        match answer bridge cmd now with
        | ExecOk stdout =>
            if includes deviceId stdout then
              Some {| outcome := Ok tt; finishedAt := settled; issued := log |}
            else again
        | ExecFail code message =>
            if isENOENT code message then
              Some {| outcome :=
                        Err (Sniaff ADB_NOT_FOUND
                               ("ADB not found at: " +:+ adbPath cfg));
                      finishedAt := settled; issued := log |}
            else again
        end
      else
        Some {| outcome :=
                  Err (Sniaff EMULATOR_BOOT_TIMEOUT
                         ("Device " +:+ deviceId +:+
                          " not found in ADB within timeout"));
                finishedAt := now; issued := log |}
  end.

(** [waitForDevice], line 287 to 316: it reads its own [startTime].  Every
    iteration takes a second or more, so [timeout] milliseconds allow at
    most that many iterations. *)
Definition waitForDevice (cfg : Config) (bridge : Bridge) (deviceId : string)
    (timeout : Z) (now : Z) : option Run :=
  let startTime := now in
  waitForDevice_loop cfg bridge deviceId timeout startTime
    (S (Z.to_nat timeout)) now [].

(** The [while] loop of [waitForBoot], line 260 to 278. *)
Fixpoint waitForBoot_loop (cfg : Config) (bridge : Bridge) (adbPort : Z)
    (timeout startTime : Z) (fuel : nat) (now : Z) (log : list (Z * string))
  : option Run :=
  match fuel with
  | O => None
  | S fuel' =>
      if now - startTime <? timeout then
        let cmd := DeviceCommands.waitForBoot_getprop cfg adbPort in
        let log := log ++ [(now, cmd)] in
        let settled := settlesAt bridge cmd now in
        let again :=
          waitForBoot_loop cfg bridge adbPort timeout startTime fuel'
            (delay (bootPollInterval cfg) settled) log in
        match answer bridge cmd now with
        | ExecOk stdout =>
            if bool_decide (trim stdout = "1") then
              Some {| outcome := Ok tt; finishedAt := settled; issued := log |}
            else again
        | ExecFail _ _ => again
        end
      else
        Some {| outcome :=
                  Err (Sniaff EMULATOR_BOOT_TIMEOUT
                         ("Emulator boot timed out after " +:+
                          numberToString timeout +:+ "ms"));
                finishedAt := now; issued := log |}
  end.

(** [waitForBoot], line 250 to 285. *)
Definition waitForBoot (cfg : Config) (bridge : Bridge) (adbPort : Z)
    (timeout : Z) (now : Z) : option Run :=
  let deviceId := "emulator-" +:+ numberToString (adbPort - 1) in
  let startTime := now in
  match waitForDevice cfg bridge deviceId timeout now with
  | None => None
  | Some found =>
      match outcome found with
      | Err e => Some found
      | Ok _ =>
          waitForBoot_loop cfg bridge adbPort timeout startTime
            (S (Z.to_nat timeout)) (finishedAt found) (issued found)
      end
  end.

End EmulatorAdapter.

(** ** Sessions *)

(** [SessionState] of [types/session.ts]. *)
Inductive SessionState :=
| SETUP_AVD
| CREATE_WORKSPACE
| START_EMULATOR
| WAIT_BOOT
| READY
| ERROR.

#[global] Instance SessionState_eq_dec : EqDecision SessionState.
Proof. solve_decision. Defined.

(** [Session] of [types/session.ts], with the fields session-manager.ts
    gives it at line 81 to 90. *)
Record Session := {
  sessionId : string;
  avdName : string;
  emulatorPort : Z;
  adbPort : Z;
  createdAt : string;
  state : SessionState;
  workspacePath : string;
  emulatorPid : option Z
}.

Definition withState (st : SessionState) (s : Session) : Session :=
  {| sessionId := sessionId s; avdName := avdName s;
     emulatorPort := emulatorPort s; adbPort := adbPort s;
     createdAt := createdAt s; state := st;
     workspacePath := workspacePath s; emulatorPid := emulatorPid s |}.

Definition withEmulator (r : EmulatorAdapter.EmulatorStartResult) (s : Session)
  : Session :=
  {| sessionId := sessionId s; avdName := avdName s;
     emulatorPort := EmulatorAdapter.consolePort r;
     adbPort := EmulatorAdapter.adbPort r;
     createdAt := createdAt s; state := state s;
     workspacePath := workspacePath s;
     emulatorPid := Some (EmulatorAdapter.pid r) |}.

(** [AvdSetupInfo]: what [avdSetupAdapter.ensureSniaffAvd()] reports. *)
Record AvdSetupInfo := {
  setupAvdName : string;
  wasCreated : bool;
  wasRooted : bool;
  systemImage : string
}.

(** [StartInput] of [types/schemas.ts]: the fields [startSession] reads. *)
Record StartInput := {
  inputEmulatorPort : option Z;
  inputHeadless : bool;
  bootTimeout : Z
}.

(** [SessionStartResult]. *)
Record SessionStartResult := {
  resultSessionId : string;
  resultWorkspacePath : string;
  resultEmulatorPort : Z;
  resultAdbPort : Z;
  resultState : SessionState;
  resultAvdSetup : AvdSetupInfo
}.

(** ** Workspace Manager *)

Module WorkspaceManager.

(** The record kept in a workspace ([meta.json]): the fields a caller has
    stored so far. *)
Record Meta := {
  metaSessionId : option string;
  metaAvdName : option string;
  metaEmulatorPort : option Z;
  metaAdbPort : option Z;
  metaCreatedAt : option string;
  metaState : option SessionState;
  metaWorkspacePath : option string
}.

Definition noFields : Meta :=
  {| metaSessionId := None; metaAvdName := None; metaEmulatorPort := None;
     metaAdbPort := None; metaCreatedAt := None; metaState := None;
     metaWorkspacePath := None |}.

Definition over {A} (new old : option A) : option A :=
  match new with Some _ => new | None => old end.

Definition merge (old new : Meta) : Meta :=
  {| metaSessionId := over (metaSessionId new) (metaSessionId old);
     metaAvdName := over (metaAvdName new) (metaAvdName old);
     metaEmulatorPort := over (metaEmulatorPort new) (metaEmulatorPort old);
     metaAdbPort := over (metaAdbPort new) (metaAdbPort old);
     metaCreatedAt := over (metaCreatedAt new) (metaCreatedAt old);
     metaState := over (metaState new) (metaState old);
     metaWorkspacePath := over (metaWorkspacePath new) (metaWorkspacePath old) |}.

Record Workspace := { path : string; logsDir : string }.

(** Modelled from the spec: [core/workspace-manager.ts] is not among the
    sources.  Section 4.6: [create] creates the directory tree of a session
    and returns its paths; [updateMeta] merges fields into the persisted
    record (create-if-absent, else merge-and-rewrite); [cleanup] removes
    the tree, and a missing tree is not an error.  The disk maps a session
    id to its tree, of which the record is what matters ([None]: no record
    written yet).  Section 4.1 lets the creation and the persisting of
    metadata fail; whether one does is an answer of the file system. *)
Definition create (cfg : Config) (sessionId : string)
    (failure : option Thrown) (disk : gmap string (option Meta))
  : Result Workspace * gmap string (option Meta) :=
  match failure with
  | Some e => (Err e, disk)
  | None =>
      let path := workspacesDir cfg +:+ "/" +:+ sessionId in
      (Ok {| path := path; logsDir := path +:+ "/logs" |},
       match disk !! sessionId with
       | Some _ => disk
       | None => <[sessionId := None]> disk
       end)
  end.

Definition updateMeta (sessionId : string) (fields : Meta)
    (failure : option Thrown) (disk : gmap string (option Meta))
  : Result unit * gmap string (option Meta) :=
  match failure with
  | Some e => (Err e, disk)
  | None =>
      let old := default noFields (mjoin (disk !! sessionId)) in
      (Ok tt, <[sessionId := Some (merge old fields)]> disk)
  end.

Definition cleanup (sessionId : string) (disk : gmap string (option Meta))
  : Result unit * gmap string (option Meta) :=
  (Ok tt, delete sessionId disk).

End WorkspaceManager.

(** ** Session Manager *)

Module SessionManager.

Import ProcessSupervisor WorkspaceManager.

(** The state [startSession] and [stopSession] work on.  [this.sessions]
    is a [Map] from session id to a [Session] object, and the object is
    shared with the [startSession] call that made it: the heap holds the
    objects, addressed by the id of the session they were made for, and
    the registry holds references.  The process table, the disk and the
    [stateChange] events emitted so far (oldest first) complete it. *)
Record Manager := {
  heap : gmap string Session;
  sessions : gmap string string;
  procs : gmap Z Proc;
  disk : gmap string (option Meta);
  emitted : list (string * SessionState)
}.

Definition setHeap (h : gmap string Session) (m : Manager) : Manager :=
  {| heap := h; sessions := sessions m; procs := procs m; disk := disk m;
     emitted := emitted m |}.
Definition setSessions (r : gmap string string) (m : Manager) : Manager :=
  {| heap := heap m; sessions := r; procs := procs m; disk := disk m;
     emitted := emitted m |}.
Definition setProcs (p : gmap Z Proc) (m : Manager) : Manager :=
  {| heap := heap m; sessions := sessions m; procs := p; disk := disk m;
     emitted := emitted m |}.
Definition setDisk (d : gmap string (option Meta)) (m : Manager) : Manager :=
  {| heap := heap m; sessions := sessions m; procs := procs m; disk := d;
     emitted := emitted m |}.
Definition setEmitted (e : list (string * SessionState)) (m : Manager) : Manager :=
  {| heap := heap m; sessions := sessions m; procs := procs m; disk := disk m;
     emitted := e |}.

(** [new SessionManager(deps)]: an empty registry and a supervisor that
    tracks nothing, over whatever the disk holds. *)
Definition initial (d : gmap string (option Meta)) : Manager :=
  {| heap := ∅; sessions := ∅; procs := ∅; disk := d; emitted := [] |}.

(** An assignment to a field of the object behind a reference. *)
Definition assign (ref : string) (f : Session -> Session) (m : Manager) : Manager :=
  setHeap (alter f ref (heap m)) m.

(** [getSession], line 204 to 206. *)
Definition getSession (m : Manager) (sessionId : string) : option Session :=
  ref ← sessions m !! sessionId; heap m !! ref.

(** [getAllSessions], line 208 to 210 (in the order of the finite map, not
    of insertion). *)
Definition getAllSessions (m : Manager) : list Session :=
  omap (fun entry => heap m !! entry.2) (map_to_list (sessions m)).

(** [updateState], line 169 to 172. *)
Definition updateState (sessionId : string) (st : SessionState) (m : Manager)
  : Manager :=
  setEmitted (emitted m ++ [(sessionId, st)]) m.

(** Where a [startSession] call is suspended ([At...]: at the [await] of
    the named call, holding the locals that are live there), or how it
    settled. *)
Inductive StartPc :=
| AtEnsureAvd
| AtCreateWorkspace (avdSetupInfo : AvdSetupInfo)
| AtEmulatorStart (avdSetupInfo : AvdSetupInfo) (workspace : Workspace)
| AtWaitForBoot (avdSetupInfo : AvdSetupInfo)
| AtFinalMeta (avdSetupInfo : AvdSetupInfo) (fields : Meta)
| AtRollbackStop (error : Thrown) (pid : Z)
| AtRollbackMeta (error : Thrown)
| Resolved (result : SessionStartResult)
| Rejected (error : Thrown).

(** What an awaited call settled to. *)
Inductive Reply :=
| EnsureAvdSettled (r : Result AvdSetupInfo)
| CreateSettled (failure : option Thrown) (now : string)
| StartSettled (env : EmulatorAdapter.StartEnv)
| WaitForBootSettled (r : Result unit)
| UpdateMetaSettled (failure : option Thrown)
| StopSettled
| CleanupSettled.

(** No running emulator of the table holds the console port [p]. *)
Definition portFree (procs : gmap Z Proc) (p : Z) : bool :=
  bool_decide
    (map_Forall (fun _ pr => procAlive pr = true -> procPort pr <> p) procs).

(** The answers to one [emulatorAdapter.start] call, as they come out
    against a process table: a port that a running emulator holds does
    not pass the availability test, whatever else [portAvailable env]
    says about the ports of the machine. *)
Definition seenFrom (procs : gmap Z Proc) (env : EmulatorAdapter.StartEnv)
  : EmulatorAdapter.StartEnv :=
  {| EmulatorAdapter.listAvdsOutcome := EmulatorAdapter.listAvdsOutcome env;
     EmulatorAdapter.portAvailable :=
       fun p => EmulatorAdapter.portAvailable env p && portFree procs p;
     EmulatorAdapter.logStreamError := EmulatorAdapter.logStreamError env;
     EmulatorAdapter.spawnOutcome := EmulatorAdapter.spawnOutcome env;
     EmulatorAdapter.exitsDuringSettle := EmulatorAdapter.exitsDuringSettle env |}.

(** The error [startSession] rejects with, line 157 to 165. *)
Definition rethrown (error : Thrown) : Thrown :=
  match error with
  | Sniaff code message => Sniaff code message
  | Raw _ message =>
      Sniaff INTERNAL_ERROR ("Session start failed: " +:+ message)
  end.

(** The [catch] block of [startSession] up to the first [await] inside
    [rollback], line 148 to 194; [session] is the local of that name. *)
Definition caught (session : option string) (error : Thrown) (m : Manager)
  : Manager * StartPc :=
  match session with
  | None => (m, Rejected (rethrown error))
  | Some ref =>
      let m := assign ref (withState ERROR) m in
      match heap m !! ref ≫= emulatorPid with
      | Some pid =>
          if pid =? 0 then (m, AtRollbackMeta error)
          else (m, AtRollbackStop error pid)
      | None => (m, AtRollbackMeta error)
      end
  end.

Arguments caught : simpl never.

(** [{ state: SessionState.ERROR }], line 195. *)
Definition errorFields : Meta :=
  {| metaSessionId := None; metaAvdName := None; metaEmulatorPort := None;
     metaAdbPort := None; metaCreatedAt := None; metaState := Some ERROR;
     metaWorkspacePath := None |}.

(** [startSession] from its entry to its first [await], line 55 to 66. *)
Definition startSession_call (id : string) (m : Manager)
  : Manager * StartPc :=
  (updateState id SETUP_AVD m, AtEnsureAvd).

(** [startSession] (and [rollback], which it awaits) from one [await] to
    the next: the call suspended at [pc] is resumed with [reply].  [None]:
    the reply is not one of the awaited call. *)
Definition startSession_resume (cfg : Config) (id : string)
    (input : StartInput) (pc : StartPc) (reply : Reply) (m : Manager)
  : option (Manager * StartPc) :=
  match pc, reply with
  (* line 66 to 79 *)
  | AtEnsureAvd, EnsureAvdSettled (Ok avdSetupInfo) =>
      Some (updateState id CREATE_WORKSPACE m,
            AtCreateWorkspace avdSetupInfo)
  | AtEnsureAvd, EnsureAvdSettled (Err e) => Some (caught None e m)
  (* line 79 to 97 *)
  | AtCreateWorkspace avdSetupInfo, CreateSettled failure now =>
      match create cfg id failure (disk m) with
      | (Err e, d) => Some (caught None e (setDisk d m))
      | (Ok workspace, d) =>
          let m := setDisk d m in
          let session :=
            {| sessionId := id; avdName := setupAvdName avdSetupInfo;
               emulatorPort := 0; adbPort := 0; createdAt := now;
               state := CREATE_WORKSPACE; workspacePath := path workspace;
               emulatorPid := None |} in
          let m := setHeap (<[id := session]> (heap m)) m in
          let m := setSessions (<[id := id]> (sessions m)) m in
          let m := updateState id START_EMULATOR m in
          let m := assign id (withState START_EMULATOR) m in
          Some (m, AtEmulatorStart avdSetupInfo workspace)
      end
  (* line 97 to 111 *)
  | AtEmulatorStart avdSetupInfo workspace, StartSettled env =>
      let options :=
        {| EmulatorAdapter.avdName := setupAvdName avdSetupInfo;
           EmulatorAdapter.port := inputEmulatorPort input;
           EmulatorAdapter.headless := inputHeadless input;
           EmulatorAdapter.logFile := logsDir workspace +:+ "/emulator.log" |} in
      match EmulatorAdapter.start cfg options (seenFrom (procs m) env) (procs m) with
      | (Err e, p) => Some (caught (Some id) e (setProcs p m))
      | (Ok emulatorResult, p) =>
          let m := setProcs p m in
          let m := assign id (withEmulator emulatorResult) m in
          let m := updateState id WAIT_BOOT m in
          let m := assign id (withState WAIT_BOOT) m in
          Some (m, AtWaitForBoot avdSetupInfo)
      end
  (* line 111 to 118 *)
  | AtWaitForBoot avdSetupInfo, WaitForBootSettled (Ok _) =>
      let m := updateState id READY m in
      let m := assign id (withState READY) m in
      session ← heap m !! id;
      Some (m, AtFinalMeta avdSetupInfo
                 {| metaSessionId := Some (sessionId session);
                    metaAvdName := Some (avdName session);
                    metaEmulatorPort := Some (emulatorPort session);
                    metaAdbPort := Some (adbPort session);
                    metaCreatedAt := Some (createdAt session);
                    metaState := Some (state session);
                    metaWorkspacePath := Some (workspacePath session) |})
  | AtWaitForBoot _, WaitForBootSettled (Err e) =>
      Some (caught (Some id) e m)
  (* line 118 to 147 *)
  | AtFinalMeta avdSetupInfo fields, UpdateMetaSettled failure =>
      match updateMeta id fields failure (disk m) with
      | (Err e, d) => Some (caught (Some id) e (setDisk d m))
      | (Ok _, d) =>
          let m := setDisk d m in
          session ← heap m !! id;
          Some (m, Resolved
                     {| resultSessionId := id;
                        resultWorkspacePath := workspacePath session;
                        resultEmulatorPort := emulatorPort session;
                        resultAdbPort := adbPort session;
                        resultState := READY;
                        resultAvdSetup := avdSetupInfo |})
      end
  (* rollback, line 183 to 194: a failure to stop is logged and dropped *)
  | AtRollbackStop error pid, StopSettled =>
      match EmulatorAdapter.stop pid (procs m) with
      | (Ok _, p) => Some (setProcs p m, AtRollbackMeta error)
      | (Err _, p) => Some (setProcs p m, AtRollbackMeta error)
      end
  (* rollback, line 194 to 201, then line 157 to 165: a failure to write
     the record is dropped *)
  | AtRollbackMeta error, UpdateMetaSettled failure =>
      let m :=
        match updateMeta id errorFields failure (disk m) with
        | (Ok _, d) => setDisk d m
        | (Err _, d) => setDisk d m
        end in
      let m := setSessions (delete id (sessions m)) m in
      Some (m, Rejected (rethrown error))
  | _, _ => None
  end.


(** Where a [stopSession] call is suspended, or how it settled. *)
Inductive StopPc :=
| AtStopEmulator (pid : Z)
| AtCleanup
| StopResolved
| StopRejected (error : Thrown).

(** [stopSession] from its entry to its first [await], line 212 to 226. *)
Definition stopSession_call (id : string) (m : Manager) : Manager * StopPc :=
  match getSession m id with
  | None =>
      (m, StopRejected
            (Sniaff SESSION_NOT_FOUND ("Session '" +:+ id +:+ "' not found")))
  | Some session =>
      match emulatorPid session with
      | Some pid => if pid =? 0 then (m, AtCleanup) else (m, AtStopEmulator pid)
      | None => (m, AtCleanup)
      end
  end.

(** [stopSession] from one [await] to the next, line 222 to 230. *)
Definition stopSession_resume (id : string) (pc : StopPc) (reply : Reply)
    (m : Manager) : option (Manager * StopPc) :=
  match pc, reply with
  | AtStopEmulator pid, StopSettled =>
      match EmulatorAdapter.stop pid (procs m) with
      | (Ok _, p) => Some (setProcs p m, AtCleanup)
      | (Err e, p) => Some (setProcs p m, StopRejected e)
      end
  | AtCleanup, CleanupSettled =>
      match cleanup id (disk m) with
      | (Ok _, d) =>
          Some (setSessions (delete id (sessions m)) (setDisk d m), StopResolved)
      | (Err e, d) => Some (setDisk d m, StopRejected e)
      end
  | _, _ => None
  end.

(** *** One call on its own

    The answers the world gives to one [startSession] call, one for each
    [await] it can reach. *)
Record Answers := {
  ensureAvdAnswer : Result AvdSetupInfo;
  createAnswer : option Thrown;
  clockAnswer : string;
  startAnswer : EmulatorAdapter.StartEnv;
  waitForBootAnswer : Result unit;
  finalMetaAnswer : option Thrown;
  rollbackMetaAnswer : option Thrown
}.

Definition replyAt (a : Answers) (pc : StartPc) : option Reply :=
  match pc with
  | AtEnsureAvd => Some (EnsureAvdSettled (ensureAvdAnswer a))
  | AtCreateWorkspace _ => Some (CreateSettled (createAnswer a) (clockAnswer a))
  | AtEmulatorStart _ _ => Some (StartSettled (startAnswer a))
  | AtWaitForBoot _ => Some (WaitForBootSettled (waitForBootAnswer a))
  | AtFinalMeta _ _ => Some (UpdateMetaSettled (finalMetaAnswer a))
  | AtRollbackStop _ _ => Some StopSettled
  | AtRollbackMeta _ => Some (UpdateMetaSettled (rollbackMetaAnswer a))
  | Resolved _ | Rejected _ => None
  end.

(** Resume the call at most [n] times, until it has settled. *)
Fixpoint startSession_settle (cfg : Config) (id : string) (input : StartInput)
    (a : Answers) (n : nat) (at_ : Manager * StartPc) : Manager * StartPc :=
  match n with
  | O => at_
  | S n' =>
      match replyAt a at_.2 with
      | None => at_
      | Some reply =>
          match startSession_resume cfg id input at_.2 reply at_.1 with
          | None => at_
          | Some next => startSession_settle cfg id input a n' next
          end
      end
  end.

(** [startSession(input)] run from entry to settlement with nothing else
    in between; [id] is what [generateSessionId()] returned.  A call
    passes seven [await]s at most. *)
Definition startSession (cfg : Config) (id : string) (input : StartInput)
    (a : Answers) (m : Manager) : Manager * StartPc :=
  startSession_settle cfg id input a 7 (startSession_call id m).

(** [stopSession(id)] run from entry to settlement likewise. *)
Definition stopSession (id : string) (m : Manager) : Manager * StopPc :=
  let at1 := stopSession_call id m in
  let at2 :=
    match at1.2 with
    | AtStopEmulator _ =>
        default at1 (stopSession_resume id at1.2 StopSettled at1.1)
    | _ => at1
    end in
  match at2.2 with
  | AtCleanup => default at2 (stopSession_resume id at2.2 CleanupSettled at2.1)
  | _ => at2
  end.


(** *** Calls in flight together

    Node runs one continuation at a time and switches between calls at
    an [await] only.  A state of the whole is the manager state, the
    [startSession] calls made so far (by the session id each generated)
    and the [stopSession] calls made so far (in call order), each with
    where it is suspended or how it settled. *)
Record System := {
  manager : Manager;
  starts : gmap string (StartInput * StartPc);
  stops : list (string * StopPc)
}.

Definition initialSystem (d : gmap string (option Meta)) : System :=
  {| manager := initial d; starts := ∅; stops := [] |}.

Inductive Label :=
| CallStartSession (id : string) (input : StartInput)
| ResumeStartSession (id : string) (reply : Reply)
| CallStopSession (id : string)
| ResumeStopSession (k : nat) (reply : Reply)
| EmulatorExits (pid : Z).

(** The pid a spawn hands out is not one the supervisor tracks. *)
Definition freshPid (reply : Reply) (procs : gmap Z Proc) : bool :=
  match reply with
  | StartSettled env =>
      match EmulatorAdapter.spawnOutcome env with
      | Ok p => bool_decide (procs !! Z.pos p = None)
      | Err _ => true
      end
  | _ => true
  end.

(** One transition.  [None]: the label is not possible in the state
    ([generateSessionId] returns an id no call had before; only a call
    that is suspended can be resumed, and with a reply to what it
    awaits). *)
Definition step (cfg : Config) (l : Label) (w : System) : option System :=
  match l with
  | CallStartSession id input =>
      match starts w !! id with
      | Some _ => None
      | None =>
          let next := startSession_call id (manager w) in
          Some {| manager := next.1;
                  starts := <[id := (input, next.2)]> (starts w);
                  stops := stops w |}
      end
  | ResumeStartSession id reply =>
      call ← starts w !! id;
      if freshPid reply (procs (manager w)) then
        next ← startSession_resume cfg id call.1 call.2 reply (manager w);
        Some {| manager := next.1;
                starts := <[id := (call.1, next.2)]> (starts w);
                stops := stops w |}
      else None
  | CallStopSession id =>
      let next := stopSession_call id (manager w) in
      Some {| manager := next.1; starts := starts w;
              stops := stops w ++ [(id, next.2)] |}
  | ResumeStopSession k reply =>
      call ← stops w !! k;
      next ← stopSession_resume call.1 call.2 reply (manager w);
      Some {| manager := next.1; starts := starts w;
              stops := <[k := (call.1, next.2)]> (stops w) |}
  | EmulatorExits pid =>
      Some {| manager := setProcs (exited pid (procs (manager w))) (manager w);
              starts := starts w; stops := stops w |}
  end.

Fixpoint run (cfg : Config) (ls : list Label) (w : System) : option System :=
  match ls with
  | [] => Some w
  | l :: ls' => w' ← step cfg l w; run cfg ls' w'
  end.

Inductive reachable (cfg : Config) : System -> Prop :=
| reachable_initial d : reachable cfg (initialSystem d)
| reachable_step w l w' :
    reachable cfg w -> step cfg l w = Some w' -> reachable cfg w'.

End SessionManager.

(** ** What the specification says, as predicates *)

(** [c] is the first available even port of the range [[lo, hi]]. *)
Definition firstAvailableEven (avail : Z -> bool) (lo hi c : Z) : Prop :=
  lo <= c <= hi /\ Z.even c = true /\ avail c = true /\
  forall p, lo <= p < c -> Z.even p = true -> avail p = false.

(** The port a caller requested, when only an absent port counts as no
    request. *)
Definition requestedPortIfPresent (cfg : Config)
    (options : EmulatorAdapter.EmulatorStartOptions) : Z :=
  default (defaultEmulatorPort cfg) (EmulatorAdapter.port options).

(** A command was issued inside the window of a call that started at
    [startTime] with the given timeout. *)
Definition issuedWithin (startTime timeout : Z) (c : Z * string) : Prop :=
  startTime <= c.1 < startTime + timeout.

(** A session is backed by a running emulator. *)
Definition backed (m : SessionManager.Manager) (s : Session) : Prop :=
  exists pid,
    emulatorPid s = Some pid /\
    ProcessSupervisor.isRunning pid (SessionManager.procs m) = true.

(** How the session objects and the process table hang together: the
    registry refers to the object made for the id; the pid of a session is
    that of a tracked process, which was launched on the console port of
    the session, next to its companion port; no two sessions have the same
    pid; no two running emulators hold the same console port. *)
Record Consistent (m : SessionManager.Manager) : Prop := {
  refs_own : forall id ref,
    SessionManager.sessions m !! id = Some ref -> ref = id;
  pid_tracked : forall id s pid,
    SessionManager.heap m !! id = Some s -> emulatorPid s = Some pid ->
    0 < pid /\
    exists pr, SessionManager.procs m !! pid = Some pr /\
               ProcessSupervisor.procPort pr = emulatorPort s /\
               adbPort s = emulatorPort s + 1;
  pid_owner : forall id1 id2 s1 s2 pid,
    SessionManager.heap m !! id1 = Some s1 ->
    SessionManager.heap m !! id2 = Some s2 ->
    emulatorPid s1 = Some pid -> emulatorPid s2 = Some pid -> id1 = id2;
  ports_apart : forall pid1 pid2 pr1 pr2,
    SessionManager.procs m !! pid1 = Some pr1 ->
    SessionManager.procs m !! pid2 = Some pr2 ->
    ProcessSupervisor.procAlive pr1 = true ->
    ProcessSupervisor.procAlive pr2 = true ->
    ProcessSupervisor.procPort pr1 = ProcessSupervisor.procPort pr2 ->
    pid1 = pid2
}.

(** The lifecycle, in order. *)
Definition lifecycle : list SessionState :=
  [SETUP_AVD; CREATE_WORKSPACE; START_EMULATOR; WAIT_BOOT; READY].

(** The states of the [stateChange] events that carry the session id [id]
    and a state of the lifecycle, oldest first. *)
Definition eventsOf (id : string) (m : SessionManager.Manager) : list SessionState :=
  (filter (fun e : string * SessionState => e.1 = id /\ e.2 <> ERROR)
     (SessionManager.emitted m)).*2.

(** How far a [startSession] call has come: [n] events of the lifecycle are
    out, and [o] is the session object of the call, if it has made one. *)
Definition fits (pc : SessionManager.StartPc) (n : nat) (o : option Session)
  : Prop :=
  match pc with
  | SessionManager.AtEnsureAvd => n = 1%nat /\ o = None
  | SessionManager.AtCreateWorkspace _ => n = 2%nat /\ o = None
  | SessionManager.AtEmulatorStart _ _ =>
      n = 3%nat /\
      exists s, o = Some s /\ state s = START_EMULATOR /\
                emulatorPort s = 0 /\ adbPort s = 0 /\ emulatorPid s = None
  | SessionManager.AtWaitForBoot _ => n = 4%nat /\ state <$> o = Some WAIT_BOOT
  | SessionManager.AtFinalMeta _ _ | SessionManager.Resolved _ =>
      n = 5%nat /\ state <$> o = Some READY
  | SessionManager.AtRollbackStop _ _ | SessionManager.AtRollbackMeta _ =>
      (3 <= n <= 5)%nat /\ state <$> o = Some ERROR
  | SessionManager.Rejected _ =>
      ((1 <= n <= 2)%nat /\ o = None) \/
      ((3 <= n <= 5)%nat /\ state <$> o = Some ERROR)
  end.

(** The call is past the creation of its workspace and has not removed
    its registry entry. *)
Definition pastCreation (pc : SessionManager.StartPc) : Prop :=
  match pc with
  | SessionManager.AtEnsureAvd | SessionManager.AtCreateWorkspace _
  | SessionManager.Rejected _ => False
  | _ => True
  end.

(** [stopSession(id)] has been called. *)
Definition stopRequested (w : SessionManager.System) (id : string) : Prop :=
  exists k pc, SessionManager.stops w !! k = Some (id, pc).

(** How the calls and the manager state hang together. *)
Record Tracked (w : SessionManager.System) : Prop := {
  untouched : forall id,
    SessionManager.starts w !! id = None ->
    eventsOf id (SessionManager.manager w) = [] /\
    SessionManager.heap (SessionManager.manager w) !! id = None /\
    SessionManager.sessions (SessionManager.manager w) !! id = None;
  progress : forall id input pc,
    SessionManager.starts w !! id = Some (input, pc) ->
    exists n, eventsOf id (SessionManager.manager w) = take n lifecycle /\
              fits pc n (SessionManager.heap (SessionManager.manager w) !! id);
  registered : forall id input pc,
    SessionManager.starts w !! id = Some (input, pc) ->
    pastCreation pc -> ~ stopRequested w id ->
    SessionManager.sessions (SessionManager.manager w) !! id = Some id
}.

(** ** Concrete inputs *)

Module Examples.

Import SessionManager.

Definition cfg : Config :=
  {| adbPath := "adb"; emulatorPath := "emulator";
     defaultEmulatorPort := 5554; bootPollInterval := 500;
     workspacesDir := "/home/u/.sniaff/workspaces" |}.

(** [emulator -list-avds] prints the managed image and another one. *)
Definition avdsListing : ExecOutcome :=
  ExecOk ("SniaffPhone" +:+ String lf ("Pixel_7" +:+ String lf EmptyString)).

(** A machine on which every port is free and a spawn yields pid [p]. *)
Definition spawning (p : positive) : EmulatorAdapter.StartEnv :=
  {| EmulatorAdapter.listAvdsOutcome := avdsListing; EmulatorAdapter.portAvailable := fun _ => true;
     EmulatorAdapter.logStreamError := None; EmulatorAdapter.spawnOutcome := Ok p;
     EmulatorAdapter.exitsDuringSettle := false |}.

(** The same, with the ports below 1024 refused. *)
Definition unprivileged : EmulatorAdapter.StartEnv :=
  {| EmulatorAdapter.listAvdsOutcome := avdsListing; EmulatorAdapter.portAvailable := fun p => 1024 <=? p;
     EmulatorAdapter.logStreamError := None; EmulatorAdapter.spawnOutcome := Ok 4242%positive;
     EmulatorAdapter.exitsDuringSettle := false |}.

Definition options (requested : option Z) : EmulatorAdapter.EmulatorStartOptions :=
  {| EmulatorAdapter.avdName := "SniaffPhone"; EmulatorAdapter.port := requested;
     EmulatorAdapter.headless := true;
     EmulatorAdapter.logFile := "/home/u/.sniaff/workspaces/s1/logs/emulator.log" |}.

(** A bridge that answers at once and never lists the device. *)
Definition neverListed : EmulatorAdapter.Bridge :=
  {| EmulatorAdapter.answer := fun _ _ => ExecOk "List of devices attached";
     EmulatorAdapter.latency := fun _ _ => 0 |}.

(** A bridge that lists the device after thirty milliseconds, and whose
    device never reports that it has booted. *)
Definition neverBoots : EmulatorAdapter.Bridge :=
  {| EmulatorAdapter.answer := fun cmd _ =>
       if includes "devices" cmd
       then ExecOk ("List of devices attached" +:+ String lf "emulator-5554 device")
       else ExecOk "0";
     EmulatorAdapter.latency := fun _ _ => 30 |}.

(** A machine without the bridge tool. *)
Definition noAdb : EmulatorAdapter.Bridge :=
  {| EmulatorAdapter.answer := fun _ _ => ExecFail (Some "ENOENT") "spawn adb ENOENT";
     EmulatorAdapter.latency := fun _ _ => 0 |}.

Definition avdSetup : AvdSetupInfo :=
  {| setupAvdName := "SniaffPhone"; wasCreated := false; wasRooted := false;
     systemImage := "system-images;android-35;google_apis_playstore;arm64-v8a" |}.

Definition input : StartInput :=
  {| inputEmulatorPort := None; inputHeadless := true; bootTimeout := 120000 |}.

Definition bootTimedOut : Thrown :=
  Sniaff EMULATOR_BOOT_TIMEOUT "Emulator boot timed out after 120000ms".

Definition diskFull : Thrown := Raw (Some "ENOSPC") "no space left on device".

(** Everything goes well. *)
Definition allWell : Answers :=
  {| ensureAvdAnswer := Ok avdSetup; createAnswer := None;
     clockAnswer := "2026-01-01T00:00:00.000Z";
     startAnswer := spawning 4242; waitForBootAnswer := Ok tt;
     finalMetaAnswer := None; rollbackMetaAnswer := None |}.

(** The device does not boot in time. *)
Definition bootFails : Answers :=
  {| ensureAvdAnswer := Ok avdSetup; createAnswer := None;
     clockAnswer := "2026-01-01T00:00:00.000Z";
     startAnswer := spawning 4242;
     waitForBootAnswer := Err bootTimedOut;
     finalMetaAnswer := None; rollbackMetaAnswer := None |}.

(** The disk is full when the final record is written, and stays so. *)
Definition metaFails : Answers :=
  {| ensureAvdAnswer := Ok avdSetup; createAnswer := None;
     clockAnswer := "2026-01-01T00:00:00.000Z";
     startAnswer := spawning 4242; waitForBootAnswer := Ok tt;
     finalMetaAnswer := Some diskFull; rollbackMetaAnswer := Some diskFull |}.

(** Two [startSession] calls, both past the creation of their workspace
    and suspended at [emulatorAdapter.start]. *)
Definition twoInFlight : list Label :=
  [ CallStartSession "a" input; CallStartSession "b" input;
    ResumeStartSession "a" (EnsureAvdSettled (Ok avdSetup));
    ResumeStartSession "b" (EnsureAvdSettled (Ok avdSetup));
    ResumeStartSession "a" (CreateSettled None "2026-01-01T00:00:00.000Z");
    ResumeStartSession "b" (CreateSettled None "2026-01-01T00:00:00.100Z") ].

(** Both emulators start; then the first one exits on its own and a third
    session is started. *)
Definition portReused : list Label :=
  twoInFlight ++
  [ ResumeStartSession "a" (StartSettled (spawning 10));
    ResumeStartSession "b" (StartSettled (spawning 11));
    EmulatorExits 10;
    CallStartSession "c" input;
    ResumeStartSession "c" (EnsureAvdSettled (Ok avdSetup));
    ResumeStartSession "c" (CreateSettled None "2026-01-01T00:01:00.000Z");
    ResumeStartSession "c" (StartSettled (spawning 12)) ].


(** The states the two runs end in. *)
Definition afterTwoInFlight : System :=
  default (initialSystem ∅) (run cfg twoInFlight (initialSystem ∅)).

Definition afterPortReused : System :=
  default (initialSystem ∅) (run cfg portReused (initialSystem ∅)).

Definition placeholder (id now : string) : Session :=
  {| sessionId := id; avdName := "SniaffPhone"; emulatorPort := 0; adbPort := 0;
     createdAt := now; state := START_EMULATOR;
     workspacePath := "/home/u/.sniaff/workspaces/" +:+ id;
     emulatorPid := None |}.

Definition waiting (id now : string) (port pid : Z) : Session :=
  {| sessionId := id; avdName := "SniaffPhone"; emulatorPort := port;
     adbPort := port + 1; createdAt := now; state := WAIT_BOOT;
     workspacePath := "/home/u/.sniaff/workspaces/" +:+ id;
     emulatorPid := Some pid |}.

End Examples.

(** ** More concrete inputs *)

Module Scenarios.

Import SessionManager.

(** The image setup fails: nothing but the first event has happened. *)
Definition setupFails : list Label :=
  [ CallStartSession "a" Examples.input;
    ResumeStartSession "a" (EnsureAvdSettled (Err Examples.diskFull)) ].

Definition afterSetupFails : System :=
  default (initialSystem ∅) (run Examples.cfg setupFails (initialSystem ∅)).

(** [stopSession] is called for a session whose emulator has not started
    yet, and resolves; then the [startSession] call goes on to its end. *)
Definition stoppedWhileStarting : list Label :=
  Examples.twoInFlight ++
  [ CallStopSession "a";
    ResumeStopSession 0 CleanupSettled;
    ResumeStartSession "a" (StartSettled (Examples.spawning 10));
    ResumeStartSession "a" (WaitForBootSettled (Ok tt));
    ResumeStartSession "a" (UpdateMetaSettled None) ].

Definition afterStoppedWhileStarting : System :=
  default (initialSystem ∅)
    (run Examples.cfg stoppedWhileStarting (initialSystem ∅)).

End Scenarios.

(** ** The tool handlers *)

(** What a handler did: the command lines it handed to [execPromise], in
    order, and what its reply carries ([Ok]: the payload with [ok: true];
    [Err]: the payload with [ok: false] and [isError], with the error it
    holds).  A handler never rejects: its whole body is inside [try]. *)

Module InputTextTool.

(** The characters the chain of [.replace] calls puts a backslash before,
    line 38 to 49. *)
Definition shellSpecial : list ascii :=
  [ "\"; ascii_of_nat 34; "'"; "`"; "$"; "&"; ";"; "|"; "<"; ">"; "("; ")" ]%char.

(** What becomes of one character of the text when each character is
    escaped on its own. *)
Definition escapeChar (a : ascii) : string :=
  if bool_decide (a ∈ shellSpecial) then String "\" (String a EmptyString)
  else if Ascii.eqb a " " then "%s"
  else String a EmptyString.

(** The handler registered by [registerInputTextTool], line 23 to 99. *)
Definition handler (cfg : Config) (m : SessionManager.Manager)
    (exec : string -> ExecOutcome) (sessionId text : string)
  : list string * Result string :=
  match SessionManager.getSession m sessionId with
  | None =>
      ([], Err (Sniaff SESSION_NOT_FOUND
                  ("Session '" +:+ sessionId +:+ "' not found")))
  | Some session =>
      let command := DeviceCommands.inputText cfg (adbPort session) text in
      match exec command with
      | ExecOk _ => ([command], Ok text)
      | ExecFail _ message => ([command], Err (Sniaff ADB_COMMAND_FAILED message))
      end
  end.

End InputTextTool.

Module KeyEventTool.

(** [KEY_CODES], line 12 to 57.  The keys are looked up after
    [toUpperCase], and no property that a plain object inherits has a name
    without a lower-case letter, so only these entries are ever found. *)
Definition KEY_CODES : gmap string Z :=
  list_to_map
    [ ("HOME", 3); ("BACK", 4); ("MENU", 82); ("APP_SWITCH", 187);
      ("VOLUME_UP", 24); ("VOLUME_DOWN", 25); ("VOLUME_MUTE", 164);
      ("POWER", 26);
      ("DPAD_UP", 19); ("DPAD_DOWN", 20); ("DPAD_LEFT", 21);
      ("DPAD_RIGHT", 22); ("DPAD_CENTER", 23);
      ("ENTER", 66); ("TAB", 61); ("SPACE", 62); ("DEL", 67);
      ("FORWARD_DEL", 112); ("ESCAPE", 111);
      ("SEARCH", 84); ("CAMERA", 27);
      ("F1", 131); ("F2", 132); ("F3", 133); ("F4", 134); ("F5", 135);
      ("F6", 136); ("F7", 137); ("F8", 138); ("F9", 139); ("F10", 140);
      ("F11", 141); ("F12", 142) ].

(** [toUpperCase] of a text in ASCII: the letters [a] to [z] go to [A] to
    [Z], everything else stays. *)
Definition toUpperCaseChar (a : ascii) : ascii :=
  let n := nat_of_ascii a in
  if (97 <=? n)%nat && (n <=? 122)%nat then ascii_of_nat (n - 32) else a.

Fixpoint toUpperCase (s : string) : string :=
  match s with
  | EmptyString => EmptyString
  | String a s' => String (toUpperCaseChar a) (toUpperCase s')
  end.

(** The character class [\d]. *)
Definition isDigit (a : ascii) : bool :=
  let n := nat_of_ascii a in (48 <=? n)%nat && (n <=? 57)%nat.

Fixpoint allDigits (s : string) : bool :=
  match s with
  | EmptyString => true
  | String a s' => isDigit a && allDigits s'
  end.

(** [/^\d+$/.test(s)]: one digit or more, and nothing else. *)
Definition isNumeric (s : string) : bool :=
  negb (bool_decide (s = EmptyString)) && allDigits s.

(** [parseInt(s, 10)] of a text that passed the test: the number its digits
    denote (which a JavaScript number holds exactly up to [2^53]; the key
    codes of Android are below [2^10]). *)
Fixpoint parseInt_from (acc : Z) (s : string) : Z :=
  match s with
  | EmptyString => acc
  | String a s' => parseInt_from (10 * acc + (Z.of_nat (nat_of_ascii a) - 48)) s'
  end.

Definition parseInt (s : string) : Z := parseInt_from 0 s.

(** The resolution of the key code, line 92 to 109. *)
Definition resolveKey (key : string) : Result Z :=
  let upperKey := toUpperCase key in
  match KEY_CODES !! upperKey with
  | Some keyCode => Ok keyCode
  | None =>
      if isNumeric key then Ok (parseInt key)
      else
        Err (Sniaff INVALID_ARGUMENT
               ("Unknown key: " +:+ dq +:+ key +:+ dq +:+
                ". Use a key name (BACK, HOME, ENTER, etc.) or numeric key code."))
  end.

(** The handler registered by [registerKeyEventTool], line 80 to 162; the
    payload of a success carries the key code. *)
Definition handler (cfg : Config) (m : SessionManager.Manager)
    (exec : string -> ExecOutcome) (sessionId key : string) (longPress : bool)
  : list string * Result Z :=
  match SessionManager.getSession m sessionId with
  | None =>
      ([], Err (Sniaff SESSION_NOT_FOUND
                  ("Session '" +:+ sessionId +:+ "' not found")))
  | Some session =>
      match resolveKey key with
      | Err e => ([], Err e)
      | Ok keyCode =>
          let command :=
            DeviceCommands.keyEvent cfg (adbPort session) longPress keyCode in
          match exec command with
          | ExecOk _ => ([command], Ok keyCode)
          | ExecFail _ message =>
              ([command], Err (Sniaff ADB_COMMAND_FAILED message))
          end
      end
  end.

End KeyEventTool.

Module InstallMitmCertTool.

(** The handler registered by [registerInstallMitmCertTool], line 22 to 88. *)
Definition handler (cfg : Config) (m : SessionManager.Manager)
    (exec : string -> ExecOutcome) (sessionId : string)
  : list string * Result unit :=
  match SessionManager.getSession m sessionId with
  | None =>
      ([], Err (Sniaff SESSION_NOT_FOUND
                  ("Session '" +:+ sessionId +:+ "' not found")))
  | Some session =>
      let openCommand := DeviceCommands.installMitmCertTool cfg (adbPort session) in
      match exec openCommand with
      | ExecOk _ => ([openCommand], Ok tt)
      | ExecFail _ message => ([openCommand], Err (Sniaff INTERNAL_ERROR message))
      end
  end.

End InstallMitmCertTool.

(** ** The listing of the images *)

(** What [emulator -list-avds] prints for the images [names]: each name
    on a line of its own. *)
Fixpoint listingOf (names : list string) : string :=
  match names with
  | [] => EmptyString
  | name :: names' => name +:+ String lf (listingOf names')
  end.

(** A text without white space. *)
Fixpoint noWhiteSpace (s : string) : bool :=
  match s with
  | EmptyString => true
  | String a s' => negb (isWhiteSpace a) && noWhiteSpace s'
  end.

(** A name of an image: not empty, and without white space. *)
Definition isAvdName (s : string) : Prop :=
  s <> EmptyString /\ noWhiteSpace s = true.

(** The character [c] occurs in [s]. *)
Fixpoint occurs (c : ascii) (s : string) : bool :=
  match s with
  | EmptyString => false
  | String a s' => Ascii.eqb a c || occurs c s'
  end.

(** Names with a line feed between each two of them. *)
Fixpoint joined (names : list string) : string :=
  match names with
  | [] => EmptyString
  | [name] => name
  | name :: names' => name +:+ String lf (joined names')
  end.

(** ** More of the emulator adapter *)

Module DeviceControl.

Import EmulatorAdapter.

(** The commands of one [try] block, awaited one after the other: those
    that were issued, and the message of the first that failed, if one
    did. *)
Fixpoint inSequence (exec : string -> ExecOutcome) (cmds : list string)
  : list string * option string :=
  match cmds with
  | [] => ([], None)
  | cmd :: cmds' =>
      match exec cmd with
      | ExecFail _ message => ([cmd], Some message)
      | ExecOk _ =>
          let rest := inSequence exec cmds' in (cmd :: rest.1, rest.2)
      end
  end.

(** [setProxy], line 318 to 334: the commands issued, and the settlement. *)
Definition setProxy (cfg : Config) (exec : string -> ExecOutcome)
    (adbPort : Z) (host : string) (port : Z) : list string * Result unit :=
  let cmd := DeviceCommands.setProxy cfg adbPort host port in
  match exec cmd with
  | ExecOk _ => ([cmd], Ok tt)
  | ExecFail _ message =>
      ([cmd], Err (Sniaff PROXY_CONFIG_FAILED
                     ("Failed to configure proxy: " +:+ message)))
  end.

(** [clearProxy], line 336 to 346. *)
Definition clearProxy (cfg : Config) (exec : string -> ExecOutcome)
    (adbPort : Z) : list string * Result unit :=
  let cmd := DeviceCommands.clearProxy cfg adbPort in
  match exec cmd with
  | ExecOk _ => ([cmd], Ok tt)
  | ExecFail _ _ => ([cmd], Ok tt)
  end.

(** [modulePath.split('/').pop() || 'module.zip'], line 390. *)
Definition moduleFileName (modulePath : string) : string :=
  let last := List.last (split "/" modulePath) EmptyString in
  if bool_decide (last = EmptyString) then "module.zip" else last.

(** [installMagiskModule], line 388 to 424. *)
Definition installMagiskModule (cfg : Config) (exec : string -> ExecOutcome)
    (adbPort : Z) (modulePath : string) : list string * Result unit :=
  let ran :=
    inSequence exec
      (DeviceCommands.installMagiskModule cfg adbPort modulePath
         (moduleFileName modulePath)) in
  match ran.2 with
  | None => (ran.1, Ok tt)
  | Some message =>
      (ran.1, Err (Sniaff INTERNAL_ERROR
                     ("Failed to install Magisk module: " +:+ message)))
  end.

(** [reboot], line 508 to 535, against the clock.  The reboot command has
    a time limit of ten seconds, whose expiry is a rejection like any
    other: what the bridge answers and when is what the bridge says of the
    command as run under that limit. *)
Definition reboot (cfg : Config) (bridge : Bridge) (adbPort : Z)
    (bootTimeout : Z) (now : Z) : option Run :=
  let cmd := DeviceCommands.reboot cfg adbPort in
  let settled := settlesAt bridge cmd now in
  let failed (message : string) :=
    Err (Sniaff INTERNAL_ERROR ("Failed to reboot emulator: " +:+ message)) in
  match answer bridge cmd now with
  | ExecFail _ message =>
      Some {| outcome := failed message; finishedAt := settled;
              issued := [(now, cmd)] |}
  | ExecOk _ =>
      match waitForBoot cfg bridge adbPort bootTimeout (delay 5000 settled) with
      | None => None
      | Some booted =>
          Some {| outcome :=
                    match outcome booted with
                    | Ok _ => Ok tt
                    | Err e => failed (thrownMessage e)
                    end;
                  finishedAt := finishedAt booted;
                  issued := (now, cmd) :: issued booted |}
      end
  end.

End DeviceControl.

(** Commands issued [d] milliseconds apart or more: each one that many
    after the one before it. *)
Definition spaced (d : Z) (cmds : list (Z * string)) : Prop :=
  forall i c c', cmds !! i = Some c -> cmds !! S i = Some c' -> c.1 + d <= c'.1.

(** What one loop of polls issues after [log], from time [now] on, in a
    call that began at [startTime]: the command [cmd] only, inside the
    window, [d] apart; and that it ends well only on an answer that is
    [good]. *)
Definition polled (bridge : EmulatorAdapter.Bridge) (timeout startTime : Z)
    (cmd : string) (d : Z) (good : string -> Prop) (now : Z)
    (log : list (Z * string)) (r : EmulatorAdapter.Run) : Prop :=
  exists more,
    EmulatorAdapter.issued r = log ++ more /\
    Forall (fun c => c.2 = cmd /\ now <= c.1 < startTime + timeout) more /\
    spaced d more /\
    now <= EmulatorAdapter.finishedAt r /\
    Forall (fun c => c.1 <= EmulatorAdapter.finishedAt r) more /\
    (EmulatorAdapter.outcome r = Ok tt ->
     exists t out, last more = Some (t, cmd) /\
                   EmulatorAdapter.answer bridge cmd t = ExecOk out /\ good out /\
                   EmulatorAdapter.finishedAt r = EmulatorAdapter.settlesAt bridge cmd t).

Module Devices.

(** A bridge that takes thirty milliseconds to answer, lists the device
    from the start, and whose device reports that it has booted from time
    2000 on. *)
Definition bootsAfterTwoSeconds : EmulatorAdapter.Bridge :=
  {| EmulatorAdapter.answer := fun cmd t =>
       if includes "devices" cmd
       then ExecOk ("List of devices attached" +:+ String lf "emulator-5554 device")
       else if includes "getprop" cmd
       then (if t <? 2000 then ExecOk "" else ExecOk ("1" +:+ String lf EmptyString))
       else ExecOk EmptyString;
     EmulatorAdapter.latency := fun _ _ => 30 |}.

(** A device that does not take the reboot command. *)
Definition refusesReboot : EmulatorAdapter.Bridge :=
  {| EmulatorAdapter.answer := fun cmd _ =>
       if includes "reboot" cmd then ExecFail None "error: device offline"
       else ExecOk EmptyString;
     EmulatorAdapter.latency := fun _ _ => 30 |}.

End Devices.

(** ** The calls in flight, with the emulator start in its parts *)

Module Interleaved.

Import ProcessSupervisor WorkspaceManager SessionManager.

(** [emulatorAdapter.start] suspends four times: at [listAvds] (part_003
    line 155), at [portFinder.findAvailableEven] (line 167), at
    [supervisor.spawn] (line 205) and at the settle delay (line 211), and
    other calls run meanwhile.  [SessionManager.step] takes the whole of it
    as one step; here each part is a step of its own.

    Where a [startSession] call is suspended: inside
    [emulatorAdapter.start], holding the locals of [start] that are live,
    or outside of it, where [Outside (AtEmulatorStart _ _)] is the first
    [await] inside [start], that of [listAvds]. *)
Inductive Pc :=
| Outside (pc : StartPc)
| AtFindAvailableEven (avdSetupInfo : AvdSetupInfo) (workspace : Workspace)
| AtSpawn (avdSetupInfo : AvdSetupInfo) (workspace : Workspace) (consolePort : Z)
| AtSettleDelay (avdSetupInfo : AvdSetupInfo) (workspace : Workspace)
    (consolePort : Z) (pid : Z).

(** What an awaited call settled to: a reply to an [await] outside of
    [start], or the answer to one inside.  With the answer of the port
    finder comes what [createWriteStream] does right after it (line 195 to
    203); whether the emulator outlives the settle delay is not an answer:
    it is read off the process table when the delay is over. *)
Inductive Answer :=
| Settled (reply : Reply)
| ListAvdsSettled (out : ExecOutcome)
| FindAvailableEvenSettled (available : Z -> bool) (logStreamError : option string)
| SpawnSettled (r : Result positive)
| DelayOver.

(** The argument of [emulatorAdapter.start], session-manager.ts line 97
    to 102. *)
Definition startOptions (input : StartInput) (avdSetupInfo : AvdSetupInfo)
    (workspace : Workspace) : EmulatorAdapter.EmulatorStartOptions :=
  {| EmulatorAdapter.avdName := setupAvdName avdSetupInfo;
     EmulatorAdapter.port := inputEmulatorPort input;
     EmulatorAdapter.headless := inputHeadless input;
     EmulatorAdapter.logFile := logsDir workspace +:+ "/emulator.log" |}.

(** [start] throws: the error reaches the [catch] of [startSession]. *)
Definition thrown (id : string) (e : Thrown) (m : Manager) : Manager * Pc :=
  let next := caught (Some id) e m in (next.1, Outside next.2).

(** The call suspended at [pc] is resumed with [answer].  [None]: the
    answer is not one of the awaited call. *)
Definition resume (cfg : Config) (id : string) (input : StartInput)
    (pc : Pc) (answer : Answer) (m : Manager) : option (Manager * Pc) :=
  match pc, answer with
  (* part_003 line 155 to 167 *)
  | Outside (AtEmulatorStart avdSetupInfo workspace), ListAvdsSettled out =>
      let options := startOptions input avdSetupInfo workspace in
      match EmulatorAdapter.listAvds cfg out with
      | Err e => Some (thrown id e m)
      | Ok avds =>
          if negb (bool_decide (EmulatorAdapter.avdName options ∈ avds)) then
            Some (thrown id
                    (Sniaff AVD_NOT_FOUND
                       ("AVD '" +:+ EmulatorAdapter.avdName options +:+ "' not found"))
                    m)
          else Some (m, AtFindAvailableEven avdSetupInfo workspace)
      end
  | Outside (AtEmulatorStart _ _), _ => None
  (* part_003 line 167 to 205 *)
  | AtFindAvailableEven avdSetupInfo workspace,
    FindAvailableEvenSettled available logStreamError =>
      let options := startOptions input avdSetupInfo workspace in
      let consolePort :=
        EmulatorAdapter.roundUpToEven (EmulatorAdapter.requestedPort cfg options) in
      match PortFinder.findAvailableEven available consolePort 5682 with
      | Err _ =>
          Some (thrown id
                  (Sniaff EMULATOR_START_FAILED
                     "No available emulator ports in range 5554-5682") m)
      | Ok consolePort =>
          match logStreamError with
          | Some _ =>
              Some (thrown id
                      (Sniaff EMULATOR_START_FAILED
                         ("Failed to create log file: " +:+
                          EmulatorAdapter.logFile options)) m)
          | None => Some (m, AtSpawn avdSetupInfo workspace consolePort)
          end
      end
  (* part_003 line 205 to 211, and the catch of line 229 to 247 *)
  | AtSpawn avdSetupInfo workspace consolePort, SpawnSettled r =>
      match r with
      | Ok p =>
          Some (setProcs (spawn (Z.pos p) consolePort (procs m)) m,
                AtSettleDelay avdSetupInfo workspace consolePort (Z.pos p))
      | Err (Sniaff code message) => Some (thrown id (Sniaff code message) m)
      | Err (Raw code message) =>
          if bool_decide (code = Some "ENOENT") then
            Some (thrown id
                    (Sniaff EMULATOR_BINARY_NOT_FOUND
                       ("Emulator not found at: " +:+ emulatorPath cfg)) m)
          else
            Some (thrown id
                    (Sniaff EMULATOR_START_FAILED
                       ("Failed to start emulator: " +:+ message)) m)
      end
  (* part_003 line 211 to 228, then session-manager.ts line 103 to 111 *)
  | AtSettleDelay avdSetupInfo workspace consolePort pid, DelayOver =>
      if negb (isRunning pid (procs m)) then
        Some (thrown id
                (Sniaff EMULATOR_START_FAILED "Emulator process exited immediately")
                m)
      else
        let emulatorResult :=
          {| EmulatorAdapter.pid := pid;
             EmulatorAdapter.consolePort := consolePort;
             EmulatorAdapter.adbPort := consolePort + 1 |} in
        let m := assign id (withEmulator emulatorResult) m in
        let m := updateState id WAIT_BOOT m in
        let m := assign id (withState WAIT_BOOT) m in
        Some (m, Outside (AtWaitForBoot avdSetupInfo))
  (* everything outside of [start] *)
  | Outside pc, Settled reply =>
      next ← startSession_resume cfg id input pc reply m;
      Some (next.1, Outside next.2)
  | _, _ => None
  end.

(** A state of the whole, as in [SessionManager.System]. *)
Record System := {
  manager : Manager;
  starts : gmap string (StartInput * Pc);
  stops : list (string * StopPc)
}.

Definition initialSystem (d : gmap string (option Meta)) : System :=
  {| manager := initial d; starts := ∅; stops := [] |}.

Inductive Label :=
| CallStartSession (id : string) (input : StartInput)
| ResumeStartSession (id : string) (answer : Answer)
| CallStopSession (id : string)
| ResumeStopSession (k : nat) (reply : Reply)
| EmulatorExits (pid : Z).

(** The pid a spawn hands out is not one the supervisor tracks. *)
Definition freshPid (answer : Answer) (procs : gmap Z Proc) : bool :=
  match answer with
  | SpawnSettled (Ok p) => bool_decide (procs !! Z.pos p = None)
  | _ => true
  end.

(** One transition.  [None]: the label is not possible in the state. *)
Definition step (cfg : Config) (l : Label) (w : System) : option System :=
  match l with
  | CallStartSession id input =>
      match starts w !! id with
      | Some _ => None
      | None =>
          let next := startSession_call id (manager w) in
          Some {| manager := next.1;
                  starts := <[id := (input, Outside next.2)]> (starts w);
                  stops := stops w |}
      end
  | ResumeStartSession id answer =>
      call ← starts w !! id;
      if freshPid answer (procs (manager w)) then
        next ← resume cfg id call.1 call.2 answer (manager w);
        Some {| manager := next.1;
                starts := <[id := (call.1, next.2)]> (starts w);
                stops := stops w |}
      else None
  | CallStopSession id =>
      let next := stopSession_call id (manager w) in
      Some {| manager := next.1; starts := starts w;
              stops := stops w ++ [(id, next.2)] |}
  | ResumeStopSession k reply =>
      call ← stops w !! k;
      next ← stopSession_resume call.1 call.2 reply (manager w);
      Some {| manager := next.1; starts := starts w;
              stops := <[k := (call.1, next.2)]> (stops w) |}
  | EmulatorExits pid =>
      Some {| manager := setProcs (exited pid (procs (manager w))) (manager w);
              starts := starts w; stops := stops w |}
  end.

Fixpoint run (cfg : Config) (ls : list Label) (w : System) : option System :=
  match ls with
  | [] => Some w
  | l :: ls' => w' ← step cfg l w; run cfg ls' w'
  end.

(** *** Starts that do not overlap

    What the port finder is asked for a port: it hands out no port that a
    running emulator of the supervisor holds. *)
Definition honest (available : Z -> bool) (procs : gmap Z Proc) : bool :=
  bool_decide
    (map_Forall (fun _ pr => procAlive pr = true -> available (procPort pr) = false)
       procs).

(** The call has been handed a console port and has not spawned its
    emulator yet. *)
Definition holdsPort (call : StartInput * Pc) : bool :=
  match call.2 with
  | AtSpawn _ _ _ => true
  | _ => false
  end.

(** A transition in which the port finder is honest, and answers no call
    while another holds a port it has not spawned on. *)
Definition orderly (l : Label) (w : System) : bool :=
  match l with
  | ResumeStartSession _ (FindAvailableEvenSettled available _) =>
      honest available (procs (manager w)) &&
      bool_decide (map_Forall (fun _ call => holdsPort call = false) (starts w))
  | _ => true
  end.

(** The states that orderly transitions lead to. *)
Inductive serialized (cfg : Config) : System -> Prop :=
| serialized_initial d : serialized cfg (initialSystem d)
| serialized_step w l w' :
    serialized cfg w -> orderly l w = true -> step cfg l w = Some w' ->
    serialized cfg w'.

(** A run of orderly transitions. *)
Fixpoint runOrderly (cfg : Config) (ls : list Label) (w : System)
  : option System :=
  match ls with
  | [] => Some w
  | l :: ls' =>
      if orderly l w then w' ← step cfg l w; runOrderly cfg ls' w' else None
  end.

End Interleaved.

(** How the calls inside [emulatorAdapter.start] and the process table
    hang together: a port that a call holds to spawn on is held by no
    running emulator, and one call at most holds such a port; a process
    that was spawned and has not been written into its session yet is
    tracked on the port it was spawned on, and belongs to one call and to
    no session. *)
Record Windowed (w : Interleaved.System) : Prop := {
  consistent : Consistent (Interleaved.manager w);
  probed : forall id input avd ws c,
    Interleaved.starts w !! id = Some (input, Interleaved.AtSpawn avd ws c) ->
    SessionManager.portFree (SessionManager.procs (Interleaved.manager w)) c = true;
  alone : forall id1 id2 call1 call2,
    Interleaved.starts w !! id1 = Some call1 ->
    Interleaved.starts w !! id2 = Some call2 ->
    Interleaved.holdsPort call1 = true -> Interleaved.holdsPort call2 = true ->
    id1 = id2;
  settling : forall id input avd ws c pid,
    Interleaved.starts w !! id =
      Some (input, Interleaved.AtSettleDelay avd ws c pid) ->
    0 < pid /\
    (exists pr, SessionManager.procs (Interleaved.manager w) !! pid = Some pr /\
                ProcessSupervisor.procPort pr = c) /\
    (forall i s, SessionManager.heap (Interleaved.manager w) !! i = Some s ->
                 emulatorPid s <> Some pid);
  settling_apart : forall id1 id2 input1 input2 avd1 avd2 ws1 ws2 c1 c2 pid,
    Interleaved.starts w !! id1 =
      Some (input1, Interleaved.AtSettleDelay avd1 ws1 c1 pid) ->
    Interleaved.starts w !! id2 =
      Some (input2, Interleaved.AtSettleDelay avd2 ws2 c2 pid) ->
    id1 = id2
}.

(** ** Runs with the emulator start in its parts *)

Module Races.

Import SessionManager Interleaved.

(** The answers inside [start] on a machine that lists the image, has
    every port free that no emulator holds, and spawns. *)
Definition listed : Answer := ListAvdsSettled Examples.avdsListing.

Definition freeOf (procs : list Z) : Answer :=
  FindAvailableEvenSettled (fun p => negb (bool_decide (p ∈ procs))) None.

Definition spawned (p : positive) : Answer := SpawnSettled (Ok p).

(** A call up to the first [await] inside [start]. *)
Definition upToStart (id now : string) : list Label :=
  [ CallStartSession id Examples.input;
    ResumeStartSession id (Settled (EnsureAvdSettled (Ok Examples.avdSetup)));
    ResumeStartSession id (Settled (CreateSettled None now)) ].

(** The rest of a call in which all goes well. *)
Definition booted (id : string) : list Label :=
  [ ResumeStartSession id (Settled (WaitForBootSettled (Ok tt)));
    ResumeStartSession id (Settled (UpdateMetaSettled None)) ].

(** Two calls are handed the port 5554, one after the other and before
    either has spawned; both spawn on it; both emulators outlive the
    settle delay. *)
Definition bothHanded5554 : list Label :=
  upToStart "a" "2026-01-01T00:00:00.000Z" ++
  upToStart "b" "2026-01-01T00:00:00.100Z" ++
  [ ResumeStartSession "a" listed; ResumeStartSession "b" listed;
    ResumeStartSession "a" (freeOf []); ResumeStartSession "b" (freeOf []);
    ResumeStartSession "a" (spawned 10); ResumeStartSession "b" (spawned 11);
    ResumeStartSession "a" DelayOver; ResumeStartSession "b" DelayOver ].

Definition afterBothHanded5554 : System :=
  default (initialSystem ∅) (run Examples.cfg bothHanded5554 (initialSystem ∅)).

(** Two calls, both past the creation of their workspace. *)
Definition twoStarting : list Label :=
  upToStart "a" "2026-01-01T00:00:00.000Z" ++
  upToStart "b" "2026-01-01T00:00:00.100Z".

Definition afterTwoStarting : System :=
  default (initialSystem ∅) (run Examples.cfg twoStarting (initialSystem ∅)).

(** The second call is handed its port after the first has spawned. *)
Definition oneAfterTheOther : list Label :=
  twoStarting ++
  [ ResumeStartSession "a" listed; ResumeStartSession "b" listed;
    ResumeStartSession "a" (freeOf []);
    ResumeStartSession "a" (spawned 10);
    ResumeStartSession "b" (freeOf [5554]);
    ResumeStartSession "b" (spawned 11);
    ResumeStartSession "a" DelayOver; ResumeStartSession "b" DelayOver ].

Definition afterOneAfterTheOther : System :=
  default (initialSystem ∅) (run Examples.cfg oneAfterTheOther (initialSystem ∅)).

(** Then the first emulator exits on its own, and a third session is
    started. *)
Definition portTakenAgain : list Label :=
  oneAfterTheOther ++
  [ EmulatorExits 10 ] ++
  upToStart "c" "2026-01-01T00:01:00.000Z" ++
  [ ResumeStartSession "c" listed;
    ResumeStartSession "c" (freeOf [5556]);
    ResumeStartSession "c" (spawned 12);
    ResumeStartSession "c" DelayOver ].

Definition afterPortTakenAgain : System :=
  default (initialSystem ∅) (run Examples.cfg portTakenAgain (initialSystem ∅)).

(** The emulator of a call has been spawned, and [start] has not returned
    yet. *)
Definition settling : list Label :=
  upToStart "a" "2026-01-01T00:00:00.000Z" ++
  [ ResumeStartSession "a" listed;
    ResumeStartSession "a" (freeOf []);
    ResumeStartSession "a" (spawned 10) ].

Definition afterSettling : System :=
  default (initialSystem ∅) (run Examples.cfg settling (initialSystem ∅)).

(** [stopSession] is called for the session then, and resolves. *)
Definition stoppedWhileSettling : list Label :=
  settling ++ [ CallStopSession "a"; ResumeStopSession 0 CleanupSettled ].

Definition afterStoppedWhileSettling : System :=
  default (initialSystem ∅)
    (run Examples.cfg stoppedWhileSettling (initialSystem ∅)).

(** Then the [startSession] call goes on to its end. *)
Definition startedAfterStopped : list Label :=
  stoppedWhileSettling ++ [ ResumeStartSession "a" DelayOver ] ++ booted "a".

Definition afterStartedAfterStopped : System :=
  default (initialSystem ∅)
    (run Examples.cfg startedAfterStopped (initialSystem ∅)).

End Races.

(** ** The first failure of a call *)

(** The error of the first awaited operation of a [startSession] call
    that fails, in the order of the calls (session-manager.ts line 66, 79,
    97, 111 and 118), for a call that runs with nothing else in between;
    [None] when none fails. *)
Definition firstFailure (cfg : Config) (id : string) (input : StartInput)
    (a : SessionManager.Answers) (m : SessionManager.Manager) : option Thrown :=
  match SessionManager.ensureAvdAnswer a with
  | Err e => Some e
  | Ok avdSetupInfo =>
      match SessionManager.createAnswer a with
      | Some e => Some e
      | None =>
          let workspace := workspacesDir cfg +:+ "/" +:+ id in
          let options :=
            {| EmulatorAdapter.avdName := setupAvdName avdSetupInfo;
               EmulatorAdapter.port := inputEmulatorPort input;
               EmulatorAdapter.headless := inputHeadless input;
               EmulatorAdapter.logFile :=
                 (workspace +:+ "/logs") +:+ "/emulator.log" |} in
          match EmulatorAdapter.start cfg options
                  (SessionManager.seenFrom (SessionManager.procs m)
                     (SessionManager.startAnswer a))
                  (SessionManager.procs m) with
          | (Err e, _) => Some e
          | (Ok _, _) =>
              match SessionManager.waitForBootAnswer a with
              | Err e => Some e
              | Ok _ => SessionManager.finalMetaAnswer a
              end
          end
      end
  end.

(** ** The lifecycle, with the emulator start in its parts *)

(** The states that transitions lead to, whatever the port finder
    answers and whenever it does. *)
Inductive attainable (cfg : Config) : Interleaved.System -> Prop :=
| attainable_initial d : attainable cfg (Interleaved.initialSystem d)
| attainable_step w l w' :
    attainable cfg w -> Interleaved.step cfg l w = Some w' -> attainable cfg w'.

(** The [await] of [startSession] that a call is suspended at: the
    [await]s inside [emulatorAdapter.start] are all inside the one of
    session-manager.ts line 97. *)
Definition awaited (pc : Interleaved.Pc) : SessionManager.StartPc :=
  match pc with
  | Interleaved.Outside pc => pc
  | Interleaved.AtFindAvailableEven avdSetupInfo workspace
  | Interleaved.AtSpawn avdSetupInfo workspace _
  | Interleaved.AtSettleDelay avdSetupInfo workspace _ _ =>
      SessionManager.AtEmulatorStart avdSetupInfo workspace
  end.

(** The call is between the creation of its workspace and the return of
    [emulatorAdapter.start]. *)
Definition starting (pc : Interleaved.Pc) : Prop :=
  match awaited pc with
  | SessionManager.AtEmulatorStart _ _ => True
  | _ => False
  end.


(** A [stopSession(id)] call has resolved. *)
Definition stopResolved (w : Interleaved.System) (id : string) : Prop :=
  exists k, Interleaved.stops w !! k = Some (id, SessionManager.StopResolved).

(** How the calls and the manager state hang together. *)
Record Staged (w : Interleaved.System) : Prop := {
  unseen : forall id,
    Interleaved.starts w !! id = None ->
    eventsOf id (Interleaved.manager w) = [] /\
    SessionManager.heap (Interleaved.manager w) !! id = None /\
    SessionManager.sessions (Interleaved.manager w) !! id = None;
  advanced : forall id input pc,
    Interleaved.starts w !! id = Some (input, pc) ->
    exists n, eventsOf id (Interleaved.manager w) = take n lifecycle /\
              fits (awaited pc) n (SessionManager.heap (Interleaved.manager w) !! id);
  entered : forall id input pc,
    Interleaved.starts w !! id = Some (input, pc) ->
    pastCreation (awaited pc) -> ~ stopResolved w id ->
    SessionManager.sessions (Interleaved.manager w) !! id = Some id
}.

(** ** More runs with the emulator start in its parts *)

Module Flights.

Import SessionManager Interleaved.



(** [stopSession] is called for a session whose call has just entered
    [emulatorAdapter.start], and resolves. *)
Definition stoppedWhileListing : list Label :=
  Races.upToStart "a" "2026-01-01T00:00:00.000Z" ++
  [ CallStopSession "a"; ResumeStopSession 0 CleanupSettled ].

Definition afterStoppedWhileListing : System :=
  default (initialSystem ∅)
    (run Examples.cfg stoppedWhileListing (initialSystem ∅)).

End Flights.

(** * Properties *)

(** ** Strings *)

Lemma startsWith_spec (p s : string) :
  startsWith p s = true <-> exists rest, s = p +:+ rest.
Proof.
  revert s. induction p as [|a p IH]; intros s; simpl.
  - split; [intros _; by exists s | done].
  - destruct s as [|b s].
    + split; [done | intros [rest H]; discriminate H].
    + destruct (Ascii.eqb_spec a b) as [->|Hne].
      * rewrite IH. split; intros [rest H]; exists rest.
        -- simpl. by rewrite H.
        -- simpl in H. by injection H.
      * split; [done | intros [rest H]]. simpl in H. injection H as H1 H2. done.
Qed.

Lemma includes_spec (needle hay : string) :
  includes needle hay = true <->
  exists before after, hay = before +:+ needle +:+ after.
Proof.
  induction hay as [|b hay IH]; simpl.
  - rewrite orb_false_r, startsWith_spec. split.
    + intros [rest H]. by exists EmptyString, rest.
    + intros [[|c before] [after H]]; [by exists after | discriminate H].
  - rewrite orb_true_iff, startsWith_spec, IH. split.
    + intros [[rest H]|(before & after & H)].
      * by exists EmptyString, rest.
      * exists (String b before), after. simpl. by rewrite H.
    + intros [[|c before] [after H]].
      * left. by exists after.
      * right. simpl in H. injection H as _ H. by exists before, after.
Qed.

(** ** The root check *)

(** C8. [checkRootStatus] always settles to a boolean and never rejects;
    the boolean is [true] only when the identity command succeeded and its
    output contains [uid=0]; when the command fails the boolean is
    [false]. *)
Theorem checkRootStatus_true_only_on_uid0_never_throws
    (cfg : Config) (exec : string -> ExecOutcome) (adbPort : Z) :
  exists isRooted,
    EmulatorAdapter.checkRootStatus cfg exec adbPort = Ok isRooted /\
    (isRooted = true ->
     exists stdout before after,
       exec (DeviceCommands.checkRootStatus cfg adbPort) = ExecOk stdout /\
       stdout = before +:+ "uid=0" +:+ after) /\
    (forall code message,
       exec (DeviceCommands.checkRootStatus cfg adbPort) = ExecFail code message ->
       isRooted = false).
Proof.
  unfold EmulatorAdapter.checkRootStatus.
  destruct (exec _) as [stdout|code message].
  - exists (includes "uid=0" stdout). split; [done|]. split; [|done].
    intros H. apply includes_spec in H as (before & after & H).
    by exists stdout, before, after.
  - exists false. split; [done|]. split; [done|]. done.
Qed.

(** ** The device id *)


(** ** Resolving the console port *)

Lemma rem2_even (x : Z) : (Z.rem x 2 =? 0) = Z.even x.
Proof.
  apply eq_true_iff_eq. rewrite Z.eqb_eq, Z.rem_mod_eq_0 by done.
  rewrite Zmod_even. destruct (Z.even x); split; done.
Qed.

Lemma roundUpToEven_spec (x : Z) :
  Z.even (EmulatorAdapter.roundUpToEven x) = true /\
  x <= EmulatorAdapter.roundUpToEven x <= x + 1 /\
  (Z.even x = true -> EmulatorAdapter.roundUpToEven x = x).
Proof.
  unfold EmulatorAdapter.roundUpToEven. rewrite rem2_even.
  destruct (Z.even x) eqn:E.
  - repeat split; [done | lia | lia].
  - repeat split; [|lia|lia|done].
    rewrite Z.even_add, E. done.
Qed.

Lemma scan_Some avail n p c :
  PortFinder.scan avail n p = Some c ->
  p <= c < p + Z.of_nat n /\ Z.even c = true /\ avail c = true /\
  forall q, p <= q < c -> Z.even q = true -> avail q = false.
Proof.
  revert p. induction n as [|n IH]; intros p; simpl; [done|].
  destruct (Z.even p && avail p) eqn:E.
  - intros [= <-]. apply andb_prop in E as [E1 E2].
    repeat split; [lia | lia | done | done | intros q Hq; lia].
  - intros H. apply IH in H as (Hr & He & Ha & Hfirst).
    repeat split; [lia | lia | done | done |].
    intros q Hq Heq. destruct (decide (q = p)) as [->|Hne].
    + rewrite Heq in E. done.
    + apply Hfirst; [lia | done].
Qed.

Lemma scan_None avail n p :
  PortFinder.scan avail n p = None ->
  forall q, p <= q < p + Z.of_nat n -> Z.even q = true -> avail q = false.
Proof.
  revert p. induction n as [|n IH]; intros p; simpl; [intros _ q Hq; lia|].
  destruct (Z.even p && avail p) eqn:E; [done|].
  intros H q Hq Heq. destruct (decide (q = p)) as [->|Hne].
  - rewrite Heq in E. done.
  - apply (IH _ H); [lia | done].
Qed.

Lemma findAvailableEven_Ok avail lo hi c :
  PortFinder.findAvailableEven avail lo hi = Ok c ->
  firstAvailableEven avail lo hi c.
Proof.
  unfold PortFinder.findAvailableEven, firstAvailableEven.
  destruct (PortFinder.scan _ _ _) as [p|] eqn:E; [|done].
  intros [= <-]. apply scan_Some in E as (Hr & He & Ha & Hfirst).
  repeat split; [lia | lia | done | done | done].
Qed.

(** What a [start] that resolved did. *)
Lemma start_Ok cfg options env procs r procs' :
  EmulatorAdapter.start cfg options env procs = (Ok r, procs') ->
  exists p,
    EmulatorAdapter.spawnOutcome env = Ok p /\
    EmulatorAdapter.pid r = Z.pos p /\
    procs' = ProcessSupervisor.spawn (Z.pos p) (EmulatorAdapter.consolePort r) procs /\
    EmulatorAdapter.adbPort r = EmulatorAdapter.consolePort r + 1 /\
    PortFinder.findAvailableEven (EmulatorAdapter.portAvailable env)
      (EmulatorAdapter.roundUpToEven (EmulatorAdapter.requestedPort cfg options))
      5682 = Ok (EmulatorAdapter.consolePort r).
Proof.
  unfold EmulatorAdapter.start. intros H.
  repeat case_match; simplify_eq; simpl.
  - exfalso.
    match goal with H : negb _ = false |- _ => apply negb_false_iff in H; revert H end.
    unfold ProcessSupervisor.isRunning, ProcessSupervisor.exited,
      ProcessSupervisor.spawn.
    rewrite lookup_alter_eq, lookup_insert_eq. done.
  - eexists. repeat split; done.
Qed.

(** What a [start] that rejected left behind: the process table as it was,
    but for a process that was spawned on the port found and has exited. *)
Lemma start_Err cfg options env procs e procs' :
  EmulatorAdapter.start cfg options env procs = (Err e, procs') ->
  procs' = procs \/
  exists p c,
    EmulatorAdapter.spawnOutcome env = Ok p /\
    EmulatorAdapter.portAvailable env c = true /\
    procs' = ProcessSupervisor.exited (Z.pos p)
               (ProcessSupervisor.spawn (Z.pos p) c procs).
Proof.
  unfold EmulatorAdapter.start. intros H.
  repeat case_match; simplify_eq; simpl; try (by left).
  - right. eexists _, _. split; [done|]. split; [|done].
    match goal with
    | H : PortFinder.findAvailableEven _ _ _ = Ok _ |- _ =>
        apply findAvailableEven_Ok in H; apply H
    end.
  - exfalso.
    match goal with H : negb _ = true |- _ => apply negb_true_iff in H; revert H end.
    unfold ProcessSupervisor.isRunning, ProcessSupervisor.spawn.
    rewrite lookup_insert_eq. done.
Qed.

(** C7, as amended. For every [start] call that resolves: the scan starts at
    the requested port (the configured default when the port is absent or
    0), rounded up to the next even value when odd; the console port is
    the first available even port from there up to 5682 inclusive; the
    companion port is the console port plus one. *)
Theorem start_resolves_first_available_even_port
    (cfg : Config) (options : EmulatorAdapter.EmulatorStartOptions)
    (env : EmulatorAdapter.StartEnv) (procs procs' : gmap Z ProcessSupervisor.Proc)
    (r : EmulatorAdapter.EmulatorStartResult) :
  EmulatorAdapter.start cfg options env procs = (Ok r, procs') ->
  let requested := EmulatorAdapter.requestedPort cfg options in
  let lo := EmulatorAdapter.roundUpToEven requested in
  (forall p, EmulatorAdapter.port options = Some p -> p <> 0 -> requested = p) /\
  (EmulatorAdapter.port options = None \/ EmulatorAdapter.port options = Some 0 ->
   requested = defaultEmulatorPort cfg) /\
  Z.even lo = true /\ requested <= lo <= requested + 1 /\
  (Z.even requested = true -> lo = requested) /\
  firstAvailableEven (EmulatorAdapter.portAvailable env) lo 5682
    (EmulatorAdapter.consolePort r) /\
  EmulatorAdapter.adbPort r = EmulatorAdapter.consolePort r + 1.
Proof.
  intros H requested lo.
  apply start_Ok in H as (p & _ & _ & _ & Hadb & Hfind).
  apply findAvailableEven_Ok in Hfind.
  destruct (roundUpToEven_spec requested) as (He & Hr & Hid).
  repeat split; try done; try lia.
  - intros q Hq Hne. unfold requested, EmulatorAdapter.requestedPort.
    rewrite Hq. destruct (Z.eqb_spec q 0); done.
  - intros [Hq|Hq]; unfold requested, EmulatorAdapter.requestedPort;
      rewrite Hq; done.
  - apply Hfind.
  - apply Hfind.
  - apply Hfind.
  - apply Hfind.
  - apply Hfind.
Qed.

(** [start] at a concrete call: nothing requested, every port free. *)
Lemma start_resolves_first_available_even_port_witness :
  let r := {| EmulatorAdapter.pid := 4242; EmulatorAdapter.consolePort := 5554;
              EmulatorAdapter.adbPort := 5555 |} in
  EmulatorAdapter.start Examples.cfg (Examples.options None)
    (Examples.spawning 4242) ∅ =
    (Ok r, ProcessSupervisor.spawn 4242 5554 ∅) /\
  firstAvailableEven (fun _ => true) 5554 5682 (EmulatorAdapter.consolePort r) /\
  EmulatorAdapter.adbPort r = EmulatorAdapter.consolePort r + 1.
Proof.
  intros r.
  assert (H : EmulatorAdapter.start Examples.cfg (Examples.options None)
                (Examples.spawning 4242) ∅ =
              (Ok r, ProcessSupervisor.spawn 4242 5554 ∅))
    by (vm_compute; reflexivity).
  split; [exact H|].
  pose proof (start_resolves_first_available_even_port _ _ _ _ _ _ H) as T.
  cbv zeta in T. destruct T as (_ & _ & _ & _ & _ & T1 & T2).
  split; [exact T1 | exact T2].
Defined.

(** C7, as stated, fails for a requested port 0: the port counts as not
    requested, the scan starts at the default 5554 and not at 0, and the
    port 1024, available and even, is passed over. *)
Lemma start_requested_port_zero_counterexample :
  let r := {| EmulatorAdapter.pid := 4242; EmulatorAdapter.consolePort := 5554;
              EmulatorAdapter.adbPort := 5555 |} in
  EmulatorAdapter.start Examples.cfg (Examples.options (Some 0))
    Examples.unprivileged ∅ =
    (Ok r, ProcessSupervisor.spawn 4242 5554 ∅) /\
  ~ firstAvailableEven (EmulatorAdapter.portAvailable Examples.unprivileged)
      (EmulatorAdapter.roundUpToEven
         (requestedPortIfPresent Examples.cfg (Examples.options (Some 0))))
      5682 (EmulatorAdapter.consolePort r).
Proof.
  intros r. split; [vm_compute; reflexivity|].
  intros (_ & _ & _ & Hfirst).
  specialize (Hfirst 1024). vm_compute in Hfirst.
  assert (true = false) by (apply Hfirst; [split; congruence | reflexivity]).
  discriminate.
Qed.

(** ** Waiting for boot *)

Section BootWait.

Import EmulatorAdapter.

Variables (cfg : Config) (bridge : Bridge).
Variables (timeout startTime : Z).

Local Abbreviation inWindow := (issuedWithin startTime timeout).

Lemma settlesAt_ge cmd now : now <= settlesAt bridge cmd now.
Proof. unfold settlesAt. lia. Qed.

Lemma delay_gt ms now : now < delay ms now.
Proof. unfold delay. lia. Qed.

(** Neither loop runs out of fuel when it is given one unit per
    millisecond that is left, and one more. *)
Lemma waitForDevice_loop_total deviceId fuel now log :
  (Z.to_nat (timeout - (now - startTime)) < fuel)%nat ->
  is_Some (waitForDevice_loop cfg bridge deviceId timeout startTime fuel now log).
Proof.
  revert now log. induction fuel as [|fuel IH]; intros now log Hfuel; [lia|].
  simpl. destruct (Z.ltb_spec (now - startTime) timeout) as [Hlt|Hge]; [|done].
  assert (is_Some (waitForDevice_loop cfg bridge deviceId timeout startTime fuel
            (delay 1000 (settlesAt bridge (devicesCommand cfg) now))
            (log ++ [(now, devicesCommand cfg)]))) as Hagain.
  { apply IH. pose proof (settlesAt_ge (devicesCommand cfg) now).
    unfold delay. lia. }
  destruct (answer bridge _ now) as [stdout|code message].
  - destruct (includes deviceId stdout); [done | exact Hagain].
  - destruct (isENOENT code message); [done | exact Hagain].
Qed.

Lemma waitForBoot_loop_total adbPort fuel now log :
  (Z.to_nat (timeout - (now - startTime)) < fuel)%nat ->
  is_Some (waitForBoot_loop cfg bridge adbPort timeout startTime fuel now log).
Proof.
  revert now log. induction fuel as [|fuel IH]; intros now log Hfuel; [lia|].
  simpl. destruct (Z.ltb_spec (now - startTime) timeout) as [Hlt|Hge]; [|done].
  set (cmd := DeviceCommands.waitForBoot_getprop cfg adbPort).
  assert (is_Some (waitForBoot_loop cfg bridge adbPort timeout startTime fuel
            (delay (bootPollInterval cfg) (settlesAt bridge cmd now))
            (log ++ [(now, cmd)]))) as Hagain.
  { apply IH. pose proof (settlesAt_ge cmd now). unfold delay. lia. }
  destruct (answer bridge cmd now) as [stdout|code message]; [|exact Hagain].
  destruct (bool_decide _); [done | exact Hagain].
Qed.

(** The enumeration ends no earlier than it began. *)
Lemma waitForDevice_loop_ge deviceId fuel now log found :
  waitForDevice_loop cfg bridge deviceId timeout startTime fuel now log = Some found ->
  now <= finishedAt found.
Proof.
  revert now log. induction fuel as [|fuel IH]; intros now log; simpl; [done|].
  pose proof (settlesAt_ge (devicesCommand cfg) now) as Hs.
  assert (forall log',
            waitForDevice_loop cfg bridge deviceId timeout startTime fuel
              (delay 1000 (settlesAt bridge (devicesCommand cfg) now)) log' =
              Some found -> now <= finishedAt found) as Hagain.
  { intros log' H. apply IH in H. unfold delay in H. lia. }
  repeat case_match; try (intros [= <-]; simpl; lia); apply Hagain.
Qed.

Variable D : Z.
Hypothesis D_nonneg : 0 <= D.
Hypothesis latency_bound : forall cmd t, latency bridge cmd t <= D.

Lemma settlesAt_le cmd now : settlesAt bridge cmd now <= now + D.
Proof. unfold settlesAt. pose proof (latency_bound cmd now). lia. Qed.

(** The enumeration loop: where it ends, and what it issued. *)
Lemma waitForDevice_loop_spec deviceId fuel now log found :
  waitForDevice_loop cfg bridge deviceId timeout startTime fuel now log = Some found ->
  startTime <= now -> now < startTime + timeout + D + 1000 ->
  Forall inWindow log ->
  now <= finishedAt found /\
  finishedAt found < startTime + timeout + D + 1000 /\
  Forall inWindow (issued found) /\
  (outcome found = Ok tt -> finishedAt found < startTime + timeout + D) /\
  ((forall t code message,
      answer bridge (devicesCommand cfg) t = ExecFail code message ->
      isENOENT code message = false) ->
   outcome found = Ok tt \/
   exists message, outcome found = Err (Sniaff EMULATOR_BOOT_TIMEOUT message)).
Proof.
  revert now log found.
  induction fuel as [|fuel IH]; intros now log found; simpl; [done|].
  destruct (Z.ltb_spec (now - startTime) timeout) as [Hlt|Hge].
  - set (cmd := devicesCommand cfg).
    pose proof (settlesAt_ge cmd now) as Hs1.
    pose proof (settlesAt_le cmd now) as Hs2.
    intros Hrun Hstart Hnow Hlog.
    assert (Forall inWindow (log ++ [(now, cmd)])) as Hlog'.
    { apply Forall_app. split; [done|].
      apply Forall_cons. split; [unfold issuedWithin; simpl; lia | by constructor]. }
    assert (forall found',
              waitForDevice_loop cfg bridge deviceId timeout startTime fuel
                (delay 1000 (settlesAt bridge cmd now)) (log ++ [(now, cmd)]) =
                Some found' ->
              now <= finishedAt found' /\
              finishedAt found' < startTime + timeout + D + 1000 /\
              Forall inWindow (issued found') /\
              (outcome found' = Ok tt ->
               finishedAt found' < startTime + timeout + D) /\
              ((forall t code message,
                  answer bridge (devicesCommand cfg) t = ExecFail code message ->
                  isENOENT code message = false) ->
               outcome found' = Ok tt \/
               exists message,
                 outcome found' = Err (Sniaff EMULATOR_BOOT_TIMEOUT message)))
      as Hagain.
    { intros found' Hrun'. apply IH in Hrun' as (H1 & H2 & H3 & H4 & H5).
      - split; [unfold delay in H1; lia|]. done.
      - unfold delay. lia.
      - unfold delay. lia.
      - done. }
    destruct (answer bridge cmd now) as [stdout|code message] eqn:Hans.
    + destruct (includes deviceId stdout); [|by apply Hagain].
      injection Hrun as <-. simpl.
      repeat split; [lia | lia | done | intros _; lia | intros _; by left].
    + destruct (isENOENT code message) eqn:Henoent; [|by apply Hagain].
      injection Hrun as <-. simpl.
      repeat split; [lia | lia | done | done |].
      intros Hfound. rewrite (Hfound _ _ _ Hans) in Henoent. done.
  - intros [= <-] Hstart Hnow Hlog. simpl.
    repeat split; [lia | lia | done | done |].
    intros _. right. eexists. reflexivity.
Qed.

(** The boot-property loop likewise. *)
Lemma waitForBoot_loop_spec adbPort fuel now log finished :
  let bound := startTime + timeout + D + Z.max 1000 (Z.max 1 (bootPollInterval cfg)) in
  waitForBoot_loop cfg bridge adbPort timeout startTime fuel now log = Some finished ->
  startTime <= now -> now < bound ->
  Forall inWindow log ->
  finishedAt finished < bound /\
  Forall inWindow (issued finished) /\
  ((forall t stdout,
      answer bridge (DeviceCommands.waitForBoot_getprop cfg adbPort) t =
        ExecOk stdout -> trim stdout <> "1") ->
   exists message, outcome finished = Err (Sniaff EMULATOR_BOOT_TIMEOUT message)).
Proof.
  intros bound. revert now log finished.
  induction fuel as [|fuel IH]; intros now log finished; simpl; [done|].
  destruct (Z.ltb_spec (now - startTime) timeout) as [Hlt|Hge].
  - set (cmd := DeviceCommands.waitForBoot_getprop cfg adbPort).
    pose proof (settlesAt_ge cmd now) as Hs1.
    pose proof (settlesAt_le cmd now) as Hs2.
    intros Hrun Hstart Hnow Hlog.
    assert (Forall inWindow (log ++ [(now, cmd)])) as Hlog'.
    { apply Forall_app. split; [done|].
      apply Forall_cons. split; [unfold issuedWithin; simpl; lia | by constructor]. }
    assert (forall finished',
              waitForBoot_loop cfg bridge adbPort timeout startTime fuel
                (delay (bootPollInterval cfg) (settlesAt bridge cmd now))
                (log ++ [(now, cmd)]) = Some finished' ->
              finishedAt finished' < bound /\
              Forall inWindow (issued finished') /\
              ((forall t stdout,
                  answer bridge cmd t = ExecOk stdout -> trim stdout <> "1") ->
               exists message,
                 outcome finished' = Err (Sniaff EMULATOR_BOOT_TIMEOUT message)))
      as Hagain.
    { intros finished' Hrun'. apply IH in Hrun'; [done| |  |done].
      - unfold delay. lia.
      - unfold delay, bound. lia. }
    destruct (answer bridge cmd now) as [stdout|code message] eqn:Hans;
      [|by apply Hagain].
    destruct (bool_decide (trim stdout = "1")) eqn:Hone; [|by apply Hagain].
    injection Hrun as <-. simpl.
    repeat split; [unfold bound; lia | done |].
    intros Hnever. apply bool_decide_eq_true in Hone.
    destruct (Hnever _ _ Hans Hone).
  - intros [= <-] Hstart Hnow Hlog. simpl.
    repeat split; [done | done |]. intros _. eexists. reflexivity.
Qed.

End BootWait.

(** [waitForBoot] always settles: the fuel of its loops is enough. *)
Lemma waitForBoot_total cfg bridge adbPort timeout now :
  is_Some (EmulatorAdapter.waitForBoot cfg bridge adbPort timeout now).
Proof.
  unfold EmulatorAdapter.waitForBoot, EmulatorAdapter.waitForDevice.
  edestruct (waitForDevice_loop_total cfg bridge timeout now) as [found Hfound];
    [|rewrite Hfound].
  { rewrite Z.sub_diag, Z.sub_0_r. lia. }
  destruct (EmulatorAdapter.outcome found) eqn:Hout; [|done].
  apply waitForBoot_loop_total.
  apply waitForDevice_loop_ge in Hfound.
  lia.
Qed.

(** C5, as amended. Let the device never report that it has booted, let the
    bridge tool be there (no ENOENT from the enumeration), and let no
    bridge command take longer than [D].  Then [waitForBoot(port, T)]
    rejects with the boot-timeout error, less than [T + D + max(1000, poll
    interval)] after the call; and no command of either phase is issued
    outside [T] milliseconds from the start of the call. *)
Theorem waitForBoot_times_out_within_bound
    (cfg : Config) (bridge : EmulatorAdapter.Bridge) (adbPort T t0 D : Z) :
  0 <= T -> 0 <= D ->
  (forall cmd t, EmulatorAdapter.latency bridge cmd t <= D) ->
  (forall t code message,
     EmulatorAdapter.answer bridge (EmulatorAdapter.devicesCommand cfg) t =
       ExecFail code message -> isENOENT code message = false) ->
  (forall t stdout,
     EmulatorAdapter.answer bridge (DeviceCommands.waitForBoot_getprop cfg adbPort) t =
       ExecOk stdout -> trim stdout <> "1") ->
  exists run message,
    EmulatorAdapter.waitForBoot cfg bridge adbPort T t0 = Some run /\
    EmulatorAdapter.outcome run = Err (Sniaff EMULATOR_BOOT_TIMEOUT message) /\
    EmulatorAdapter.finishedAt run - t0 <
      T + D + Z.max 1000 (Z.max 1 (bootPollInterval cfg)) /\
    Forall (issuedWithin t0 T) (EmulatorAdapter.issued run).
Proof.
  intros HT HD Hlat Hadb Hnever.
  destruct (waitForBoot_total cfg bridge adbPort T t0) as [run Hrun].
  revert Hrun. unfold EmulatorAdapter.waitForBoot, EmulatorAdapter.waitForDevice.
  destruct (EmulatorAdapter.waitForDevice_loop _ _ _ _ _ _ _ _) as [found|] eqn:Hfound;
    [|done].
  apply (waitForDevice_loop_spec cfg bridge T t0 D HD Hlat) in Hfound
    as (Hge & Hlt & Hlog & Hok & Hkind); [|lia|lia|by constructor].
  specialize (Hkind Hadb).
  destruct (EmulatorAdapter.outcome found) as [[]|e] eqn:Hout.
  - intros Hloop. rewrite Hloop.
    apply (waitForBoot_loop_spec cfg bridge T t0 D HD Hlat) in Hloop
      as (Hlt2 & Hlog2 & Hkind2); [|lia|specialize (Hok eq_refl); lia|done].
    destruct (Hkind2 Hnever) as [message Hmessage].
    exists run, message. repeat split; [done | lia | done].
  - intros [= <-]. destruct Hkind as [Hkind|[message Hmessage]]; [done|].
    exists found, message. rewrite Hout. repeat split; [done | lia | done].
Qed.

(** The bound at a concrete call: the device is listed and never boots. *)
Lemma waitForBoot_times_out_within_bound_witness :
  exists run message,
    EmulatorAdapter.waitForBoot Examples.cfg Examples.neverBoots 5555 3000 0 =
      Some run /\
    EmulatorAdapter.outcome run = Err (Sniaff EMULATOR_BOOT_TIMEOUT message) /\
    EmulatorAdapter.finishedAt run - 0 <
      3000 + 30 + Z.max 1000 (Z.max 1 (bootPollInterval Examples.cfg)) /\
    Forall (issuedWithin 0 3000) (EmulatorAdapter.issued run).
Proof.
  apply (waitForBoot_times_out_within_bound
           Examples.cfg Examples.neverBoots 5555 3000 0 30).
  - lia.
  - lia.
  - intros cmd t. simpl. lia.
  - intros t code message. vm_compute. discriminate.
  - intros t stdout. vm_compute. intros [= <-]. discriminate.
Defined.

(** C5, as stated, fails in two ways.  Without the bridge tool the call
    rejects with ADB_NOT_FOUND, not with the boot-timeout error.  And with
    a timeout of 1001 ms and a poll interval of 500 ms, a device that is
    never listed makes the call reject after 2000 ms, later than the
    timeout plus one poll interval: the enumeration polls every second. *)
Lemma waitForBoot_bound_counterexample :
  EmulatorAdapter.waitForBoot Examples.cfg Examples.noAdb 5555 3000 0 =
    Some {| EmulatorAdapter.outcome :=
              Err (Sniaff ADB_NOT_FOUND "ADB not found at: adb");
            EmulatorAdapter.finishedAt := 0;
            EmulatorAdapter.issued := [(0, "adb devices")] |} /\
  EmulatorAdapter.waitForBoot Examples.cfg Examples.neverListed 5555 1001 0 =
    Some {| EmulatorAdapter.outcome :=
              Err (Sniaff EMULATOR_BOOT_TIMEOUT
                     "Device emulator-5554 not found in ADB within timeout");
            EmulatorAdapter.finishedAt := 2000;
            EmulatorAdapter.issued := [(0, "adb devices"); (1000, "adb devices")] |} /\
  ~ 2000 - 0 <= 1001 + bootPollInterval Examples.cfg.
Proof.
  split; [vm_compute; reflexivity|].
  split; [vm_compute; reflexivity|].
  simpl. lia.
Qed.

(** ** The session objects and the process table *)

Section ConsistentSteps.

Import ProcessSupervisor WorkspaceManager SessionManager.

Lemma Consistent_initial d : Consistent (initial d).
Proof. split; simpl; intros *; rewrite ?lookup_empty; done. Qed.

Lemma Consistent_updateState id st m :
  Consistent m -> Consistent (updateState id st m).
Proof. intros [H1 H2 H3 H4]. split; simpl; done. Qed.

Lemma Consistent_setDisk d m : Consistent m -> Consistent (setDisk d m).
Proof. intros [H1 H2 H3 H4]. split; simpl; done. Qed.

Lemma Consistent_withState id st m :
  Consistent m -> Consistent (assign id (withState st) m).
Proof.
  intros [H1 H2 H3 H4].
  assert (forall i s, alter (withState st) id (heap m) !! i = Some s ->
            exists s0, heap m !! i = Some s0 /\
                       emulatorPid s = emulatorPid s0 /\
                       emulatorPort s = emulatorPort s0 /\
                       adbPort s = adbPort s0) as Hview.
  { intros i s. rewrite lookup_alter. case_decide as Hi.
    - subst i. destruct (heap m !! id) as [s0|]; [|done].
      intros [= <-]. by exists s0.
    - intros Hs. by exists s. }
  split; simpl; [done| | |done].
  - intros i s pid Hs Hpid.
    apply Hview in Hs as (s0 & Hs0 & E1 & E2 & E3).
    rewrite E2, E3. apply (H2 i s0 pid); congruence.
  - intros i1 i2 s1 s2 pid Hs1 Hs2 Hp1 Hp2.
    apply Hview in Hs1 as (t1 & Ht1 & E1 & _).
    apply Hview in Hs2 as (t2 & Ht2 & E2 & _).
    apply (H3 i1 i2 t1 t2 pid); congruence.
Qed.

Lemma Consistent_register id s m :
  emulatorPid s = None ->
  Consistent m ->
  Consistent (setSessions (<[id := id]> (sessions m))
                (setHeap (<[id := s]> (heap m)) m)).
Proof.
  intros Hnone [H1 H2 H3 H4]. split; simpl.
  - intros i ref. rewrite lookup_insert. case_decide; [congruence | apply H1].
  - intros i s' pid. rewrite lookup_insert. case_decide; [congruence | apply H2].
  - intros i1 i2 s1 s2 pid. rewrite !lookup_insert.
    repeat case_decide; try congruence. apply H3.
  - done.
Qed.

Lemma Consistent_unregister id m :
  Consistent m -> Consistent (setSessions (delete id (sessions m)) m).
Proof.
  intros [H1 H2 H3 H4]. split; simpl; [|done|done|done].
  intros i ref. rewrite lookup_delete. case_decide; [done | apply H1].
Qed.

Lemma Consistent_exited pid m :
  Consistent m -> Consistent (setProcs (exited pid (procs m)) m).
Proof.
  intros [H1 H2 H3 H4].
  assert (forall i pr, exited pid (procs m) !! i = Some pr ->
            exists pr0, procs m !! i = Some pr0 /\
                        procPort pr = procPort pr0 /\
                        (procAlive pr = true -> procAlive pr0 = true)) as Hview.
  { intros i pr. unfold exited. rewrite lookup_alter. case_decide as Hi.
    - subst i. destruct (procs m !! pid) as [pr0|]; [|done].
      intros [= <-]. exists pr0. simpl. done.
    - intros Hpr. by exists pr. }
  split; simpl; [done| |done|].
  - intros i s p Hs Hp. destruct (H2 i s p Hs Hp) as (Hpos & pr & Hpr & E1 & E2).
    split; [done|]. unfold exited. rewrite lookup_alter. case_decide.
    + subst. rewrite Hpr. simpl. eexists. split; [done|]. simpl. done.
    + by exists pr.
  - intros p1 p2 pr1 pr2 Hp1 Hp2 Ha1 Ha2 Hport.
    apply Hview in Hp1 as (q1 & Hq1 & E1 & A1).
    apply Hview in Hp2 as (q2 & Hq2 & E2 & A2).
    apply (H4 p1 p2 q1 q2); auto; congruence.
Qed.

Lemma portFree_spec procs p :
  portFree procs p = true <->
  forall pid pr, procs !! pid = Some pr -> procAlive pr = true -> procPort pr <> p.
Proof.
  unfold portFree. rewrite bool_decide_eq_true, map_Forall_lookup. done.
Qed.

Lemma Consistent_spawn p c m :
  procs m !! Z.pos p = None ->
  portFree (procs m) c = true ->
  Consistent m -> Consistent (setProcs (spawn (Z.pos p) c (procs m)) m).
Proof.
  intros Hfresh Hfree [H1 H2 H3 H4]. rewrite portFree_spec in Hfree.
  split; simpl; [done| |done|].
  - intros i s pid Hs Hp. destruct (H2 i s pid Hs Hp) as (Hpos & pr & Hpr & E).
    split; [done|]. exists pr. split; [|done].
    unfold spawn. rewrite lookup_insert_ne; [done|]. congruence.
  - intros p1 p2 pr1 pr2. unfold spawn. rewrite !lookup_insert.
    repeat case_decide; subst.
    + done.
    + intros [= <-] Hp2 _ Ha2 Hport. simpl in Hport.
      destruct (Hfree p2 pr2 Hp2 Ha2). done.
    + intros Hp1 [= <-] Ha1 _ Hport. simpl in Hport.
      destruct (Hfree p1 pr1 Hp1 Ha1). done.
    + apply H4.
Qed.

Lemma Consistent_withEmulator id r pr m :
  0 < EmulatorAdapter.pid r ->
  procs m !! EmulatorAdapter.pid r = Some pr ->
  procPort pr = EmulatorAdapter.consolePort r ->
  EmulatorAdapter.adbPort r = EmulatorAdapter.consolePort r + 1 ->
  (forall i s, heap m !! i = Some s -> emulatorPid s <> Some (EmulatorAdapter.pid r)) ->
  Consistent m -> Consistent (assign id (withEmulator r) m).
Proof.
  intros Hpos Hpr Hport Hadb Hunowned [H1 H2 H3 H4].
  split; simpl; [done| | |done].
  - intros i s pid. rewrite lookup_alter. case_decide as Hi.
    + subst i. destruct (heap m !! id) as [s0|]; [|done].
      intros [= <-]. simpl. intros [= <-]. split; [done|]. by exists pr.
    + apply H2.
  - intros i1 i2 s1 s2 pid. rewrite !lookup_alter.
    destruct (decide (id = i1)) as [<-|Hi1]; destruct (decide (id = i2)) as [<-|Hi2];
      [done| | |apply H3].
    + destruct (heap m !! id) as [s0|]; [|done].
      intros [= <-] Hs2. simpl. intros [= <-] Hp2. destruct (Hunowned _ _ Hs2 Hp2).
    + destruct (heap m !! id) as [s0|]; [|done].
      intros Hs1 [= <-] Hp1. simpl. intros [= <-]. destruct (Hunowned _ _ Hs1 Hp1).
Qed.


Create HintDb consistent.
#[local] Hint Resolve Consistent_updateState Consistent_setDisk
  Consistent_withState Consistent_unregister Consistent_exited : consistent.

Lemma Consistent_caught session e m m' pc :
  caught session e m = (m', pc) -> Consistent m -> Consistent m'.
Proof.
  unfold caught. intros H Hm.
  repeat case_match; simplify_eq; eauto with consistent.
Qed.

(** Resuming a [startSession] call keeps the state consistent, when the
    pid of a spawn is new to the supervisor. *)
Lemma Consistent_startSession_resume cfg id input pc reply m m' pc' :
  freshPid reply (procs m) = true ->
  startSession_resume cfg id input pc reply m = Some (m', pc') ->
  Consistent m -> Consistent m'.
Proof.
  intros Hfresh Hstep Hm. destruct pc, reply; simpl in Hstep; try done.
  - (* ensureSniaffAvd settled *)
    destruct r; simplify_eq; eauto using Consistent_caught with consistent.
  - (* workspaceManager.create settled *)
    unfold create in Hstep. destruct failure; simplify_eq.
    + eauto using Consistent_caught with consistent.
    + apply Consistent_withState, Consistent_updateState.
      apply (Consistent_register id _ (setDisk _ m)); [done|].
      eauto with consistent.
  - (* emulatorAdapter.start settled *)
    destruct (EmulatorAdapter.start _ _ _ _) as [[r|e] p] eqn:Hstart.
    + simplify_eq. apply start_Ok in Hstart as (q & Hq & Hpid & -> & Hadb & Hfind).
      apply findAvailableEven_Ok in Hfind as (_ & _ & Havail & _).
      simpl in Havail, Hq. apply andb_prop in Havail as [_ Hfree].
      simpl in Hfresh. rewrite Hq in Hfresh. apply bool_decide_eq_true in Hfresh.
      apply Consistent_withState, Consistent_updateState.
      eapply Consistent_withEmulator.
      * rewrite Hpid. lia.
      * simpl. rewrite Hpid. apply lookup_insert_eq.
      * done.
      * done.
      * simpl. intros i s Hs Hp. rewrite Hpid in Hp.
        destruct (pid_tracked m Hm i s _ Hs Hp) as (_ & pr & Hpr & _).
        congruence.
      * by apply Consistent_spawn.
    + simplify_eq. eapply Consistent_caught; [eassumption|].
      apply start_Err in Hstart as [->|(q & c & Hq & Havail & ->)].
      * by destruct m.
      * simpl in Havail, Hq. apply andb_prop in Havail as [_ Hfree].
        simpl in Hfresh. rewrite Hq in Hfresh. apply bool_decide_eq_true in Hfresh.
        apply (Consistent_exited (Z.pos q)
                 (setProcs (spawn (Z.pos q) c (procs m)) m)).
        by apply Consistent_spawn.
  - (* waitForBoot settled *)
    destruct r.
    + destruct (_ !! id) eqn:Hs; simpl in Hstep; simplify_eq. eauto with consistent.
    + simplify_eq. eauto using Consistent_caught.
  - (* the final updateMeta settled *)
    unfold updateMeta in Hstep. destruct failure.
    + simplify_eq. eapply Consistent_caught; [eassumption|]. eauto with consistent.
    + simpl in Hstep. destruct (heap m !! id) eqn:Hs; simpl in Hstep; simplify_eq.
      eauto with consistent.
  - (* emulatorAdapter.stop settled, in rollback *)
    simplify_eq. eauto with consistent.
  - (* updateMeta settled, in rollback *)
    unfold updateMeta in Hstep. destruct failure; simplify_eq;
      eauto with consistent.
Qed.

Lemma Consistent_stopSession_call id m m' pc :
  stopSession_call id m = (m', pc) -> Consistent m -> Consistent m'.
Proof.
  unfold stopSession_call. intros H Hm. repeat case_match; simplify_eq; done.
Qed.

Lemma Consistent_stopSession_resume id pc reply m m' pc' :
  stopSession_resume id pc reply m = Some (m', pc') ->
  Consistent m -> Consistent m'.
Proof.
  intros Hstep Hm. destruct pc, reply; simpl in Hstep; simplify_eq.
  - eauto with consistent.
  - apply (Consistent_unregister id (setDisk _ m)). eauto with consistent.
Qed.

(** The five ways a transition comes about. *)
Lemma step_cases cfg l w w' :
  step cfg l w = Some w' ->
  (exists id input,
     l = CallStartSession id input /\ starts w !! id = None /\
     w' = {| manager := updateState id SETUP_AVD (manager w);
             starts := <[id := (input, AtEnsureAvd)]> (starts w);
             stops := stops w |}) \/
  (exists id reply input pc m' pc',
     l = ResumeStartSession id reply /\ starts w !! id = Some (input, pc) /\
     freshPid reply (procs (manager w)) = true /\
     startSession_resume cfg id input pc reply (manager w) = Some (m', pc') /\
     w' = {| manager := m'; starts := <[id := (input, pc')]> (starts w);
             stops := stops w |}) \/
  (exists id m' pc,
     l = CallStopSession id /\ stopSession_call id (manager w) = (m', pc) /\
     w' = {| manager := m'; starts := starts w;
             stops := stops w ++ [(id, pc)] |}) \/
  (exists k reply id pc m' pc',
     l = ResumeStopSession k reply /\ stops w !! k = Some (id, pc) /\
     stopSession_resume id pc reply (manager w) = Some (m', pc') /\
     w' = {| manager := m'; starts := starts w;
             stops := <[k := (id, pc')]> (stops w) |}) \/
  (exists pid,
     l = EmulatorExits pid /\
     w' = {| manager := setProcs (exited pid (procs (manager w))) (manager w);
             starts := starts w; stops := stops w |}).
Proof.
  intros Hstep. destruct l as [id input|id reply|id|k reply|pid]; simpl in Hstep.
  - left. destruct (starts w !! id) eqn:Hid; simplify_eq. by exists id, input.
  - right; left. destruct (starts w !! id) as [[input pc]|] eqn:Hid;
      simpl in Hstep; [|done].
    destruct (freshPid reply (procs (manager w))) eqn:Hfresh; [|done].
    destruct (startSession_resume _ _ _ _ _ _) as [[m' pc']|] eqn:Hres;
      simpl in Hstep; simplify_eq.
    by exists id, reply, input, pc, m', pc'.
  - right; right; left. simplify_eq.
    destruct (stopSession_call id (manager w)) as [m' pc] eqn:Hcall.
    by exists id, m', pc.
  - right; right; right; left.
    destruct (stops w !! k) as [[id pc]|] eqn:Hk; simpl in Hstep; [|done].
    destruct (stopSession_resume _ _ _ _) as [[m' pc']|] eqn:Hres;
      simpl in Hstep; simplify_eq.
    by exists k, reply, id, pc, m', pc'.
  - right; right; right; right. simplify_eq. by exists pid.
Qed.

(** Every state that calls can reach is consistent. *)
Lemma Consistent_reachable cfg w :
  reachable cfg w -> Consistent (manager w).
Proof.
  induction 1 as [d|w l w' _ IH Hstep]; [apply Consistent_initial|].
  apply step_cases in Hstep
    as [(id & input & -> & _ & ->)
       |[(id & reply & input & pc & m' & pc' & -> & _ & Hfresh & Hres & ->)
       |[(id & m' & pc & -> & Hcall & ->)
       |[(k & reply & id & pc & m' & pc' & -> & _ & Hres & ->)
       |(pid & -> & ->)]]]]; simpl.
  - eauto with consistent.
  - eauto using Consistent_startSession_resume.
  - eauto using Consistent_stopSession_call.
  - eauto using Consistent_stopSession_resume.
  - eauto with consistent.
Qed.

End ConsistentSteps.

(** ** Ports of the sessions in the registry *)

Lemma run_reachable cfg ls w w' :
  SessionManager.reachable cfg w -> SessionManager.run cfg ls w = Some w' ->
  SessionManager.reachable cfg w'.
Proof.
  revert w. induction ls as [|l ls IH]; intros w Hw; simpl.
  - intros [= <-]. done.
  - destruct (SessionManager.step cfg l w) as [w1|] eqn:Hstep; simpl; [|done].
    apply IH. by eapply SessionManager.reachable_step.
Qed.

Lemma getSession_Some m id s :
  Consistent m -> SessionManager.getSession m id = Some s ->
  SessionManager.sessions m !! id = Some id /\ SessionManager.heap m !! id = Some s.
Proof.
  intros Hm. unfold SessionManager.getSession.
  destruct (SessionManager.sessions m !! id) as [ref|] eqn:Href; simpl; [|done].
  rewrite (refs_own m Hm id ref Href) in *. done.
Qed.

(** ** One call on its own *)

Section OneCall.

Import ProcessSupervisor WorkspaceManager SessionManager.

Variables (cfg : Config) (id : string) (input : StartInput) (a : Answers).

Lemma settle_resume n m pc reply next :
  replyAt a pc = Some reply ->
  startSession_resume cfg id input pc reply m = Some next ->
  startSession_settle cfg id input a (S n) (m, pc) =
  startSession_settle cfg id input a n next.
Proof. intros Hreply Hnext. simpl. rewrite Hreply, Hnext. done. Qed.

Lemma settle_Rejected n m e :
  startSession_settle cfg id input a n (m, Rejected e) = (m, Rejected e).
Proof. destruct n; reflexivity. Qed.

Lemma settle_Resolved n m r :
  startSession_settle cfg id input a n (m, Resolved r) = (m, Resolved r).
Proof. destruct n; reflexivity. Qed.

(** Once the session object exists, what is caught is rolled back to the
    end: the emulator of the session, if it has one, is stopped; the
    record is marked, if it can be written; the entry is removed. *)
Lemma rollback_completes n e m s :
  heap m !! id = Some s ->
  (forall pid, emulatorPid s = Some pid -> 0 < pid) ->
  let after := startSession_settle cfg id input a (2 + n) (caught (Some id) e m) in
  after.2 = Rejected (rethrown e) /\
  sessions after.1 = delete id (sessions m) /\
  heap after.1 = alter (withState ERROR) id (heap m) /\
  procs after.1 =
    match emulatorPid s with
    | Some pid => exited pid (procs m)
    | None => procs m
    end /\
  disk after.1 = (updateMeta id errorFields (rollbackMetaAnswer a) (disk m)).2 /\
  emitted after.1 = emitted m.
Proof.
  intros Hs Hpos. unfold caught. simpl heap. rewrite lookup_alter_eq, Hs. simpl.
  destruct (emulatorPid s) as [pid|] eqn:Hpid.
  - destruct (Z.eqb_spec pid 0) as [->|_]; [specialize (Hpos 0 eq_refl); lia|].
    simpl. rewrite settle_Rejected.
    destruct (rollbackMetaAnswer a); simpl; repeat split; reflexivity.
  - simpl. rewrite ?settle_Rejected.
    destruct (rollbackMetaAnswer a); simpl; repeat split; reflexivity.
Qed.

Lemma isRunning_exited_same pid procs : isRunning pid (exited pid procs) = false.
Proof.
  unfold isRunning, exited. rewrite lookup_alter_eq.
  destruct (procs !! pid); done.
Qed.

Lemma isRunning_exited pid pid' procs :
  isRunning pid' (exited pid procs) = true -> isRunning pid' procs = true.
Proof.
  destruct (decide (pid = pid')) as [<-|Hne].
  - by rewrite isRunning_exited_same.
  - unfold isRunning, exited. by rewrite lookup_alter_ne.
Qed.

Lemma isRunning_exited_spawn pid pid' c procs :
  isRunning pid' (exited pid (spawn pid c procs)) = true ->
  isRunning pid' procs = true.
Proof.
  destruct (decide (pid = pid')) as [<-|Hne].
  - by rewrite isRunning_exited_same.
  - unfold isRunning, exited, spawn.
    by rewrite lookup_alter_ne, lookup_insert_ne.
Qed.

(** What a rollback leaves behind, told from the state [m'] in which the
    error was caught; [m0] is any state whose running processes include
    those of [m'] other than the emulator of the session. *)
Lemma rolled_back n e m0 m' s after :
  after = startSession_settle cfg id input a (2 + n) (caught (Some id) e m') ->
  heap m' !! id = Some s ->
  (forall pid, emulatorPid s = Some pid -> 0 < pid) ->
  is_Some (disk m' !! id) ->
  (forall pid, emulatorPid s <> Some pid ->
               isRunning pid (procs m') = true -> isRunning pid (procs m0) = true) ->
  after.2 = Rejected (rethrown e) /\
  getSession after.1 id = None /\
  (exists s', heap after.1 !! id = Some s' /\ state s' = ERROR /\
              forall pid, emulatorPid s' = Some pid ->
                          isRunning pid (procs after.1) = false) /\
  (forall pid, isRunning pid (procs after.1) = true ->
               isRunning pid (procs m0) = true) /\
  is_Some (disk after.1 !! id) /\
  (rollbackMetaAnswer a = None ->
   exists meta, disk after.1 !! id = Some (Some meta) /\
                metaState meta = Some ERROR).
Proof.
  intros -> Hs Hpos Hdisk Hrun.
  destruct (rollback_completes n e m' s Hs Hpos)
    as (Hpc & Hsessions & Hheap & Hprocs & Hdisk' & _).
  set (after := startSession_settle _ _ _ _ _ _) in *. clearbody after.
  split; [done|]. split; [|split; [|split; [|split]]].
  - unfold getSession. rewrite Hsessions, lookup_delete_eq. done.
  - exists (withState ERROR s). rewrite Hheap, lookup_alter_eq, Hs.
    split; [done|]. split; [done|]. simpl. intros pid Hpid.
    rewrite Hprocs, Hpid. apply isRunning_exited_same.
  - intros pid. rewrite Hprocs. destruct (emulatorPid s) as [pid'|] eqn:Hpid.
    + destruct (decide (pid' = pid)) as [->|Hne].
      * by rewrite isRunning_exited_same.
      * intros H. apply isRunning_exited in H. apply Hrun; [congruence|done].
    + by apply Hrun.
  - rewrite Hdisk'. unfold updateMeta.
    destruct (rollbackMetaAnswer a); simpl; [done|].
    rewrite lookup_insert_eq. done.
  - intros Hrb. rewrite Hdisk', Hrb. simpl. rewrite lookup_insert_eq.
    eexists. split; [reflexivity|]. reflexivity.
Qed.

(** C1, as amended. A [startSession] call whose workspace was created
    either resolves (the emulator started, the device booted, the final
    record was written) or is rolled back to the end and rejects: the
    registry entry is removed, so that [getSession] finds nothing; the
    session object is left in state ERROR; the emulator of the session, if
    one was launched, is not running, and no process is running that was
    not running before the call; the workspace is still there; and its
    record says ERROR whenever the rollback could write it (a failure of
    that write is ignored). *)
Theorem startSession_failure_rolls_back (m : Manager) (avd : AvdSetupInfo) :
  ensureAvdAnswer a = Ok avd ->
  createAnswer a = None ->
  let after := startSession cfg id input a m in
  (exists result options r p,
     after.2 = Resolved result /\
     EmulatorAdapter.start cfg options (seenFrom (procs m) (startAnswer a)) (procs m) =
       (Ok r, p) /\
     waitForBootAnswer a = Ok tt /\ finalMetaAnswer a = None) \/
  (exists e,
     after.2 = Rejected e /\
     getSession after.1 id = None /\
     (exists s, heap after.1 !! id = Some s /\ state s = ERROR /\
                forall pid, emulatorPid s = Some pid ->
                            isRunning pid (procs after.1) = false) /\
     (forall pid, isRunning pid (procs after.1) = true ->
                  isRunning pid (procs m) = true) /\
     is_Some (disk after.1 !! id) /\
     (rollbackMetaAnswer a = None ->
      exists meta, disk after.1 !! id = Some (Some meta) /\
                   metaState meta = Some ERROR)).
Proof.
  intros Havd Hcreate after.
  (* up to the await of emulatorAdapter.start *)
  assert (exists m1 ws s0,
            after = startSession_settle cfg id input a 5 (m1, AtEmulatorStart avd ws) /\
            heap m1 !! id = Some s0 /\ emulatorPid s0 = None /\
            is_Some (disk m1 !! id) /\ procs m1 = procs m)
    as (m1 & ws & s0 & Hafter & Hs0 & Hpid0 & Hdisk1 & Hprocs1).
  { subst after. unfold startSession, startSession_call.
    erewrite settle_resume; [|reflexivity|simpl; rewrite Havd; reflexivity].
    erewrite settle_resume;
      [|reflexivity|simpl; rewrite Hcreate; simpl; reflexivity].
    eexists _, _, _. split; [reflexivity|]. simpl.
    rewrite lookup_alter_eq, lookup_insert_eq. simpl.
    split; [reflexivity|]. split; [reflexivity|]. split; [|reflexivity].
    destruct (disk m !! id) eqn:Hd; [by rewrite Hd|by rewrite lookup_insert_eq]. }
  clearbody after.
  destruct (EmulatorAdapter.start cfg
              {| EmulatorAdapter.avdName := setupAvdName avd;
                 EmulatorAdapter.port := inputEmulatorPort input;
                 EmulatorAdapter.headless := inputHeadless input;
                 EmulatorAdapter.logFile := logsDir ws +:+ "/emulator.log" |}
              (seenFrom (procs m1) (startAnswer a)) (procs m1))
    as [[r|e] p] eqn:Hstart.
  2:{ (* emulatorAdapter.start rejected *)
    erewrite settle_resume in Hafter;
      [|reflexivity|simpl; rewrite Hstart; reflexivity].
    right. exists (rethrown e).
    apply (rolled_back 2 e m (setProcs p m1) s0); simpl; try done.
    - intros pid. by rewrite Hpid0.
    - intros pid _. rewrite Hprocs1 in Hstart.
      apply start_Err in Hstart as [->|(q & c & _ & _ & ->)]; [done|].
      apply isRunning_exited_spawn. }
  erewrite settle_resume in Hafter;
    [|reflexivity|simpl; rewrite Hstart; reflexivity].
  pose proof Hstart as Hok. rewrite Hprocs1 in Hok at 2.
  apply start_Ok in Hok as (q & _ & Hpid & -> & _ & _).
  match type of Hafter with
  | _ = startSession_settle _ _ _ _ _ (?x, _) => set (m2 := x) in Hafter
  end.
  assert (heap m2 !! id = Some (withState WAIT_BOOT (withEmulator r s0))) as Hs2.
  { subst m2. simpl. rewrite !lookup_alter_eq, Hs0. done. }
  assert (is_Some (disk m2 !! id)) as Hdisk2 by done.
  assert (procs m2 = spawn (Z.pos q) (EmulatorAdapter.consolePort r) (procs m))
    as Hprocs2 by done.
  assert (forall pid, Some (EmulatorAdapter.pid r) <> Some pid ->
            isRunning pid (procs m2) = true -> isRunning pid (procs m) = true)
    as Hrun2.
  { intros pid Hne. rewrite Hprocs2. unfold isRunning, spawn.
    rewrite lookup_insert_ne; [done|]. congruence. }
  clearbody m2.
  destruct (waitForBootAnswer a) as [[]|e] eqn:Hboot.
  2:{ (* waitForBoot rejected *)
    erewrite settle_resume in Hafter;
      [|simpl; rewrite Hboot; reflexivity|reflexivity].
    right. exists (rethrown e).
    apply (rolled_back 1 e m m2 _ after Hafter Hs2); simpl; try done.
    intros pid [= <-]. lia. }
  erewrite settle_resume in Hafter;
    [|simpl; rewrite Hboot; reflexivity
     |simpl; rewrite lookup_alter_eq, Hs2; reflexivity].
  match type of Hafter with
  | _ = startSession_settle _ _ _ _ _ (?x, _) => set (m3 := x) in Hafter
  end.
  assert (heap m3 !! id =
          Some (withState READY (withState WAIT_BOOT (withEmulator r s0)))) as Hs3.
  { subst m3. simpl. rewrite lookup_alter_eq, Hs2. done. }
  assert (is_Some (disk m3 !! id)) as Hdisk3 by done.
  assert (procs m3 = procs m2) as Hprocs3 by done.
  clearbody m3.
  destruct (finalMetaAnswer a) as [e|] eqn:Hmeta.
  - (* the final updateMeta rejected *)
    erewrite settle_resume in Hafter;
      [|simpl; rewrite Hmeta; reflexivity|reflexivity].
    right. exists (rethrown e). simpl in Hafter.
    apply (rolled_back 0 e m (setDisk (disk m3) m3) _ after Hafter Hs3);
      simpl; try done.
    + intros pid [= <-]. lia.
    + rewrite Hprocs3. done.
  - (* resolved *)
    erewrite settle_resume in Hafter;
      [|simpl; rewrite Hmeta; reflexivity|simpl; rewrite Hs3; reflexivity].
    rewrite settle_Resolved in Hafter. subst after.
    left. eexists _, _, r, _. split; [reflexivity|].
    split; [|done]. rewrite <- Hprocs1. exact Hstart.
Qed.

End OneCall.

(** The rollback at a concrete call: the device does not boot in time. *)
Lemma startSession_failure_rolls_back_witness :
  let after :=
    SessionManager.startSession Examples.cfg "s1" Examples.input Examples.bootFails
      (SessionManager.initial ∅) in
  after.2 = SessionManager.Rejected Examples.bootTimedOut /\
  SessionManager.getSession after.1 "s1" = None /\
  exists meta,
    SessionManager.disk after.1 !! "s1" = Some (Some meta) /\
    WorkspaceManager.metaState meta = Some ERROR.
Proof.
  intros after.
  destruct (startSession_failure_rolls_back Examples.cfg "s1" Examples.input
              Examples.bootFails (SessionManager.initial ∅) Examples.avdSetup
              eq_refl eq_refl)
    as [(result & _ & _ & _ & Hres & _)|(e & _ & Hget & _ & _ & _ & Hmeta)].
  - vm_compute in Hres. discriminate Hres.
  - split; [vm_compute; reflexivity|]. split; [exact Hget|].
    apply Hmeta. reflexivity.
Defined.

(** C1, as stated, fails when the record cannot be written: the disk is
    full at the final write and during the rollback, the call rejects, the
    entry is removed, the workspace is still there, and its record is not
    marked ERROR (there is none). *)
Lemma startSession_rollback_record_unmarked_counterexample :
  let after :=
    SessionManager.startSession Examples.cfg "s1" Examples.input Examples.metaFails
      (SessionManager.initial ∅) in
  after.2 = SessionManager.Rejected
              (Sniaff INTERNAL_ERROR
                 "Session start failed: no space left on device") /\
  SessionManager.getSession after.1 "s1" = None /\
  ProcessSupervisor.isRunning 4242 (SessionManager.procs after.1) = false /\
  SessionManager.disk after.1 !! "s1" = Some None.
Proof.
  intros after. do 3 (split; [vm_compute; reflexivity|]). vm_compute. reflexivity.
Qed.

(** ** Stopping a session *)

(** C3. For a session id that is not in the registry, [stopSession]
    rejects with SESSION_NOT_FOUND and leaves the whole state as it was:
    registry, session objects, processes, workspaces and events; the same
    holds for the call made among other calls. *)
Theorem stopSession_unknown_id_rejects_without_effect
    (cfg : Config) (w : SessionManager.System) (id : string) :
  SessionManager.sessions (SessionManager.manager w) !! id = None ->
  let notFound := Sniaff SESSION_NOT_FOUND ("Session '" +:+ id +:+ "' not found") in
  SessionManager.stopSession id (SessionManager.manager w) =
    (SessionManager.manager w, SessionManager.StopRejected notFound) /\
  SessionManager.step cfg (SessionManager.CallStopSession id) w =
    Some {| SessionManager.manager := SessionManager.manager w;
            SessionManager.starts := SessionManager.starts w;
            SessionManager.stops :=
              SessionManager.stops w ++ [(id, SessionManager.StopRejected notFound)] |}.
Proof.
  intros Hid notFound.
  unfold SessionManager.stopSession. simpl.
  unfold SessionManager.stopSession_call, SessionManager.getSession.
  rewrite Hid. simpl. done.
Qed.

Lemma stopSession_unknown_id_rejects_without_effect_witness :
  SessionManager.stopSession "nobody"
    (SessionManager.manager Examples.afterTwoInFlight) =
    (SessionManager.manager Examples.afterTwoInFlight,
     SessionManager.StopRejected
       (Sniaff SESSION_NOT_FOUND "Session 'nobody' not found")).
Proof.
  apply (stopSession_unknown_id_rejects_without_effect
           Examples.cfg Examples.afterTwoInFlight "nobody").
  vm_compute. reflexivity.
Defined.

(** C4, as amended. For a session that is in the registry, [stopSession]
    resolves: the workspace is removed; the entry is removed, so that
    [getSession] finds nothing; the other sessions and workspaces are as
    they were.  When the session has the pid of its emulator, that process
    is not running afterwards, whether it was running or had exited
    already, and the other processes are as they were.  When it has none
    yet, no process is touched: an emulator that the [startSession] call
    of the session has spawned already goes on running. *)
Theorem stopSession_known_id_cleans_up
    (m : SessionManager.Manager) (id : string) (session : Session) :
  SessionManager.getSession m id = Some session ->
  let after := SessionManager.stopSession id m in
  after.2 = SessionManager.StopResolved /\
  SessionManager.getSession after.1 id = None /\
  SessionManager.disk after.1 !! id = None /\
  (forall id', id' <> id ->
     SessionManager.getSession after.1 id' = SessionManager.getSession m id' /\
     SessionManager.disk after.1 !! id' = SessionManager.disk m !! id') /\
  (forall pid, emulatorPid session = Some pid -> pid <> 0 ->
     ProcessSupervisor.isRunning pid (SessionManager.procs after.1) = false /\
     forall pid', pid' <> pid ->
       SessionManager.procs after.1 !! pid' = SessionManager.procs m !! pid') /\
  (emulatorPid session = None \/ emulatorPid session = Some 0 ->
   SessionManager.procs after.1 = SessionManager.procs m).
Proof.
  intros Hget after.
  assert (forall m', SessionManager.heap m' = SessionManager.heap m ->
            SessionManager.sessions m' = delete id (SessionManager.sessions m) ->
            SessionManager.getSession m' id = None /\
            forall id', id' <> id ->
              SessionManager.getSession m' id' = SessionManager.getSession m id')
    as Hregistry.
  { intros m' Hheap Hsessions. unfold SessionManager.getSession.
    rewrite Hheap, Hsessions, lookup_delete_eq. split; [done|].
    intros id' Hne. by rewrite lookup_delete_ne. }
  subst after. unfold SessionManager.stopSession, SessionManager.stopSession_call.
  rewrite Hget.
  destruct (emulatorPid session) as [pid|] eqn:Hpid.
  - destruct (Z.eqb_spec pid 0) as [->|Hnz]; simpl.
    + destruct (Hregistry
                  (SessionManager.setSessions (delete id (SessionManager.sessions m))
                     (SessionManager.setDisk (delete id (SessionManager.disk m)) m)))
        as [Hgone Hothers]; [done|done|].
      split; [done|]. split; [exact Hgone|]. split; [apply lookup_delete_eq|].
      split; [|split; [|done]].
      * intros id' Hne. split; [by apply Hothers|by apply lookup_delete_ne].
      * intros pid' [= <-] Hne. done.
    + destruct (Hregistry
                  (SessionManager.setSessions (delete id (SessionManager.sessions m))
                     (SessionManager.setDisk (delete id (SessionManager.disk m))
                        (SessionManager.setProcs
                           (ProcessSupervisor.exited pid (SessionManager.procs m)) m))))
        as [Hgone Hothers]; [done|done|].
      split; [done|]. split; [exact Hgone|]. split; [apply lookup_delete_eq|].
      split; [|split].
      * intros id' Hne. split; [by apply Hothers|by apply lookup_delete_ne].
      * intros pid' [= <-] _. split; [apply isRunning_exited_same|].
        intros pid' Hne. unfold ProcessSupervisor.exited. by apply lookup_alter_ne.
      * intros [?|[= ->]]; done.
  - simpl.
    destruct (Hregistry
                (SessionManager.setSessions (delete id (SessionManager.sessions m))
                   (SessionManager.setDisk (delete id (SessionManager.disk m)) m)))
      as [Hgone Hothers]; [done|done|].
    split; [done|]. split; [exact Hgone|]. split; [apply lookup_delete_eq|].
    split; [|split; [done|done]].
    intros id' Hne. split; [by apply Hothers|by apply lookup_delete_ne].
Qed.

(** Stopping, in the state of the second run, the session whose emulator
    has exited already: the call resolves all the same. *)
Lemma stopSession_known_id_cleans_up_witness :
  let m := SessionManager.manager Examples.afterPortReused in
  let after := SessionManager.stopSession "a" m in
  after.2 = SessionManager.StopResolved /\
  SessionManager.getSession after.1 "a" = None /\
  SessionManager.disk after.1 !! "a" = None /\
  (forall id', id' <> "a" ->
     SessionManager.getSession after.1 id' = SessionManager.getSession m id' /\
     SessionManager.disk after.1 !! id' = SessionManager.disk m !! id') /\
  (forall pid,
     emulatorPid (Examples.waiting "a" "2026-01-01T00:00:00.000Z" 5554 10) =
       Some pid -> pid <> 0 ->
     ProcessSupervisor.isRunning pid (SessionManager.procs after.1) = false /\
     forall pid', pid' <> pid ->
       SessionManager.procs after.1 !! pid' = SessionManager.procs m !! pid') /\
  (emulatorPid (Examples.waiting "a" "2026-01-01T00:00:00.000Z" 5554 10) = None \/
   emulatorPid (Examples.waiting "a" "2026-01-01T00:00:00.000Z" 5554 10) = Some 0 ->
   SessionManager.procs after.1 = SessionManager.procs m).
Proof.
  intros m.
  apply (stopSession_known_id_cleans_up m "a"
           (Examples.waiting "a" "2026-01-01T00:00:00.000Z" 5554 10)).
  vm_compute. reflexivity.
Defined.

(** C4, as stated, fails for a session that is still being started.  The
    emulator of session [a] has been spawned as process 10, and [start]
    has not returned, so that the session is in the registry without its
    pid.  [stopSession] resolves, and process 10 runs on.  The
    [startSession] call then goes on to its end: it resolves, the record
    of the workspace is written again, with READY, and the emulator runs,
    for a session that [getSession] does not find. *)
Lemma stopSession_leaves_emulator_counterexample :
  (Interleaved.run Examples.cfg Races.settling (Interleaved.initialSystem ∅) =
     Some Races.afterSettling /\
   SessionManager.getSession (Interleaved.manager Races.afterSettling) "a" =
     Some (Examples.placeholder "a" "2026-01-01T00:00:00.000Z") /\
   ProcessSupervisor.isRunning 10
     (SessionManager.procs (Interleaved.manager Races.afterSettling)) = true) /\
  (Interleaved.run Examples.cfg Races.stoppedWhileSettling
     (Interleaved.initialSystem ∅) = Some Races.afterStoppedWhileSettling /\
   Interleaved.stops Races.afterStoppedWhileSettling =
     [("a", SessionManager.StopResolved)] /\
   ProcessSupervisor.isRunning 10
     (SessionManager.procs (Interleaved.manager Races.afterStoppedWhileSettling)) =
     true) /\
  (Interleaved.run Examples.cfg Races.startedAfterStopped
     (Interleaved.initialSystem ∅) = Some Races.afterStartedAfterStopped /\
   (exists input r,
      Interleaved.starts Races.afterStartedAfterStopped !! "a" =
        Some (input, Interleaved.Outside (SessionManager.Resolved r))) /\
   SessionManager.getSession (Interleaved.manager Races.afterStartedAfterStopped) "a" =
     None /\
   ProcessSupervisor.isRunning 10
     (SessionManager.procs (Interleaved.manager Races.afterStartedAfterStopped)) =
     true /\
   WorkspaceManager.metaState <$>
     mjoin (SessionManager.disk (Interleaved.manager Races.afterStartedAfterStopped)
              !! "a") = Some (Some READY)).
Proof.
  split; [|split].
  - do 2 (split; [vm_compute; reflexivity|]). vm_compute. reflexivity.
  - do 2 (split; [vm_compute; reflexivity|]). vm_compute. reflexivity.
  - split; [vm_compute; reflexivity|].
    split; [eexists _, _; vm_compute; reflexivity|].
    do 2 (split; [vm_compute; reflexivity|]). vm_compute. reflexivity.
Qed.

(** ** The calls and the manager state *)

Section TrackedSteps.

Import ProcessSupervisor WorkspaceManager SessionManager.

Lemma eventsOf_same_emitted id m m' :
  emitted m' = emitted m -> eventsOf id m' = eventsOf id m.
Proof. unfold eventsOf. by intros ->. Qed.

Lemma eventsOf_snoc id id' st m m' :
  emitted m' = emitted m ++ [(id', st)] ->
  eventsOf id m' =
  eventsOf id m ++ (if decide (id' = id /\ st <> ERROR) then [st] else []).
Proof.
  unfold eventsOf. intros ->. rewrite filter_app, fmap_app. f_equal.
  case_decide as H.
  - rewrite filter_cons_True by done. done.
  - rewrite filter_cons_False by done. done.
Qed.

Lemma caught_None e m : caught None e m = (m, Rejected (rethrown e)).
Proof. reflexivity. Qed.

Lemma caught_Some id e m m' pc :
  caught (Some id) e m = (m', pc) ->
  m' = assign id (withState ERROR) m /\
  (pc = AtRollbackMeta e \/ exists pid, pc = AtRollbackStop e pid).
Proof.
  unfold caught. intros H. repeat case_match; simplify_eq; split; eauto.
Qed.

(** What resuming a call does to the rest: nothing to the objects and
    entries of other sessions, and no event with another id. *)
Lemma startSession_resume_frame cfg id input pc reply m m' pc' :
  startSession_resume cfg id input pc reply m = Some (m', pc') ->
  (forall id', id' <> id ->
     heap m' !! id' = heap m !! id' /\
     sessions m' !! id' = sessions m !! id' /\
     eventsOf id' m' = eventsOf id' m).
Proof.
  intros Hstep id' Hne.
  destruct pc, reply; simpl in Hstep; try done;
    repeat (first [progress simplify_eq | case_match]; try done);
    repeat match goal with
    | H : caught None _ _ = _ |- _ => rewrite caught_None in H; simplify_eq
    | H : caught (Some _) _ _ = _ |- _ => apply caught_Some in H as [-> _]
    | H : ?x ≫= _ = Some _ |- _ => destruct x eqn:?; simpl in H; simplify_eq
    end; simpl.
  all: split; [|split].
  all: rewrite ?lookup_alter_ne, ?lookup_insert_ne, ?lookup_delete_ne by done.
  all: try done.
  all: try (apply eventsOf_same_emitted; reflexivity).
  all: try (erewrite eventsOf_snoc by reflexivity;
            rewrite decide_False by (intros [? _]; congruence); apply app_nil_r).
Qed.

Lemma take_lifecycle_snoc n st :
  lifecycle !! n = Some st -> take n lifecycle ++ [st] = take (S n) lifecycle.
Proof. intros H. by rewrite (take_S_r _ _ _ H). Qed.

(** What resuming a call does to its own progress. *)
Lemma startSession_resume_progress cfg id input pc reply m m' pc' n :
  eventsOf id m = take n lifecycle ->
  fits pc n (heap m !! id) ->
  startSession_resume cfg id input pc reply m = Some (m', pc') ->
  exists n', eventsOf id m' = take n' lifecycle /\ fits pc' n' (heap m' !! id).
Proof.
  intros Hev Hfits Hstep.
  destruct pc, reply; simpl in Hstep; try done;
    repeat (first [progress simplify_eq | case_match]; try done);
    repeat match goal with
    | H : caught None _ _ = _ |- _ => rewrite caught_None in H; simplify_eq
    | H : caught (Some _) _ _ = _ |- _ => apply caught_Some in H as [-> ?]
    | H : ?x ≫= _ = Some _ |- _ => destruct x eqn:?; simpl in H; simplify_eq
    end; simpl in Hfits.
  all: destruct_and?; destruct_or?; destruct_and?;
       repeat match goal with H : exists _, _ |- _ => destruct H end;
       destruct_and?; subst.
  all: try match goal with
       | H : state <$> heap ?m !! ?i = Some _ |- _ =>
           destruct (heap m !! i) as [s0|] eqn:Hs0; simpl in H; simplify_eq
       end.
  all: repeat match goal with
       | H : _ \/ _ |- _ => destruct H
       | H : exists _, _ |- _ => destruct H
       end; subst.
  all: eexists; split;
       [ match type of Hev with
         | eventsOf _ ?mm = _ =>
             first
             [ exact Hev
             | erewrite (eventsOf_same_emitted id mm) by reflexivity; exact Hev
             | erewrite (eventsOf_snoc id id _ mm) by reflexivity;
               rewrite decide_True by (split; [reflexivity|discriminate]);
               rewrite Hev; apply take_lifecycle_snoc; reflexivity ]
         end |].
  all: simpl; rewrite ?lookup_alter_eq, ?lookup_insert_eq; simpl;
       repeat match goal with H : heap _ !! _ = _ |- _ => rewrite H end; simpl.
  all: try (split; [done|]); eauto 10.
  all: first [ congruence | right; split; [lia | congruence] ].
Qed.


(** A call that is past the creation of its workspace has its entry,
    unless something else removed it. *)
Lemma startSession_resume_registered cfg id input pc reply m m' pc' :
  startSession_resume cfg id input pc reply m = Some (m', pc') ->
  pastCreation pc' ->
  (pastCreation pc -> sessions m !! id = Some id) ->
  sessions m' !! id = Some id.
Proof.
  intros Hstep Hpast Hold.
  destruct pc, reply; simpl in Hstep; try done;
    repeat (first [progress simplify_eq | case_match]; try done);
    repeat match goal with
    | H : caught None _ _ = _ |- _ => rewrite caught_None in H; simplify_eq
    | H : caught (Some _) _ _ = _ |- _ => apply caught_Some in H as [-> ?]
    | H : ?x ≫= _ = Some _ |- _ => destruct x eqn:?; simpl in H; simplify_eq
    end; simpl in *; try done.
  all: rewrite ?lookup_insert_eq; try done; try (by apply Hold).
Qed.

Lemma stopSession_call_same id m m' pc :
  stopSession_call id m = (m', pc) -> m' = m.
Proof.
  unfold stopSession_call. intros H. repeat case_match; simplify_eq; done.
Qed.

(** What resuming a [stopSession] call changes: the processes, the disk,
    and the registry entry of its own session. *)
Lemma stopSession_resume_frame id pc reply m m' pc' :
  stopSession_resume id pc reply m = Some (m', pc') ->
  heap m' = heap m /\ emitted m' = emitted m /\
  (forall id', id' <> id -> sessions m' !! id' = sessions m !! id') /\
  (forall id', sessions m !! id' = None -> sessions m' !! id' = None).
Proof.
  intros Hstep. destruct pc, reply; simpl in Hstep; simplify_eq; simpl.
  - done.
  - split; [done|]. split; [done|]. split.
    + intros id' Hne. by rewrite lookup_delete_ne.
    + intros id' Hnone. rewrite lookup_delete. case_decide; done.
Qed.

Lemma Tracked_initial d : Tracked (initialSystem d).
Proof.
  split; simpl.
  - intros id _. unfold eventsOf. simpl. rewrite !lookup_empty. done.
  - intros id input pc. rewrite lookup_empty. done.
  - intros id input pc. rewrite lookup_empty. done.
Qed.

Lemma Tracked_step cfg l w w' :
  Tracked w -> step cfg l w = Some w' -> Tracked w'.
Proof.
  intros [Hun Hpro Hreg] Hstep.
  apply step_cases in Hstep
    as [(id & input & -> & Hnew & ->)
       |[(id & reply & input & pc & m' & pc' & -> & Hid & _ & Hres & ->)
       |[(id & m' & pc & -> & Hcall & ->)
       |[(k & reply & id & pc & m' & pc' & -> & Hk & Hres & ->)
       |(pid & -> & ->)]]]].
  - (* startSession is called *)
    destruct (Hun id Hnew) as (Hev & Hheap & Hsess).
    split; simpl.
    + intros id'. rewrite lookup_insert. case_decide as Hne; [done|].
      intros Hnone. destruct (Hun id' Hnone) as (Hev' & Hheap' & Hsess').
      split; [|done].
      erewrite (eventsOf_snoc id' id _ (manager w)) by reflexivity.
      rewrite decide_False by (intros [? _]; congruence).
      by rewrite Hev'.
    + intros id' input' pc. rewrite lookup_insert. case_decide as Hne.
      * subst id'. intros [= <- <-]. exists 1%nat. split; [|done].
        erewrite (eventsOf_snoc id id _ (manager w)) by reflexivity.
        rewrite decide_True by done. by rewrite Hev.
      * intros Hid'. destruct (Hpro id' input' pc Hid') as (n & Hn & Hfits).
        exists n. split; [|done].
        erewrite (eventsOf_snoc id' id _ (manager w)) by reflexivity.
        rewrite decide_False by (intros [? _]; congruence).
        by rewrite app_nil_r.
    + intros id' input' pc. rewrite lookup_insert. case_decide as Hne.
      * intros [= <- <-]. done.
      * intros Hid' Hpast Hstop. by apply (Hreg id' input' pc).
  - (* a startSession call is resumed *)
    pose proof (startSession_resume_frame _ _ _ _ _ _ _ _ Hres) as Hframe.
    split; simpl.
    + intros id'. rewrite lookup_insert. case_decide as Hne; [done|].
      intros Hnone. destruct (Hun id' Hnone) as (Hev' & Hheap' & Hsess').
      destruct (Hframe id') as (-> & -> & ->); [congruence|]. done.
    + intros id' input' pc0. rewrite lookup_insert. case_decide as Hne.
      * subst id'. intros [= <- <-].
        destruct (Hpro id input pc Hid) as (n & Hn & Hfits).
        eauto using startSession_resume_progress.
      * intros Hid'. destruct (Hframe id') as (-> & _ & ->); [congruence|].
        by apply (Hpro id' input' pc0).
    + intros id' input' pc0. rewrite lookup_insert. case_decide as Hne.
      * subst id'. intros [= <- <-] Hpast Hstop.
        eapply startSession_resume_registered; [done|done|].
        intros Hpast0. by apply (Hreg id input pc).
      * intros Hid' Hpast Hstop.
        destruct (Hframe id') as (_ & -> & _); [congruence|].
        by apply (Hreg id' input' pc0).
  - (* stopSession is called *)
    apply stopSession_call_same in Hcall as ->.
    split; simpl; [done|done|].
    intros id' input' pc0 Hid' Hpast Hstop. apply (Hreg id' input' pc0 Hid' Hpast).
    intros (j & pcj & Hj). apply Hstop. exists j, pcj. simpl.
    by apply lookup_app_l_Some.
  - (* a stopSession call is resumed *)
    apply stopSession_resume_frame in Hres as (Hheap & Hemit & Hother & Hnone).
    split; simpl.
    + intros id' Hid'. destruct (Hun id' Hid') as (Hev' & Hheap' & Hsess').
      rewrite Hheap, (eventsOf_same_emitted id' (manager w) m' Hemit). auto.
    + intros id' input' pc0 Hid'. rewrite Hheap.
      rewrite (eventsOf_same_emitted id' (manager w) m' Hemit). by apply (Hpro id' input' pc0).
    + intros id' input' pc0 Hid' Hpast Hstop.
      assert (k < length (stops w))%nat as Hlen by (by eapply lookup_lt_Some).
      assert (id' <> id) as Hne.
      { intros ->. apply Hstop. exists k, pc'. simpl.
        by rewrite list_lookup_insert_eq. }
      rewrite Hother by done. apply (Hreg id' input' pc0 Hid' Hpast).
      intros (j & pcj & Hj). destruct (decide (j = k)) as [->|Hjk].
      * congruence.
      * apply Hstop. exists j, pcj. simpl. by rewrite list_lookup_insert_ne.
  - (* an emulator exits *)
    split; simpl; done.
Qed.

(** Every state that calls can reach is tracked. *)
Lemma Tracked_reachable cfg w : reachable cfg w -> Tracked w.
Proof.
  induction 1 as [d|w l w' _ IH Hstep]; [apply Tracked_initial|].
  by eapply Tracked_step.
Qed.

End TrackedSteps.


(** ** What the calls show of a session while it starts *)

Lemma elem_of_getAllSessions (m : SessionManager.Manager) (s : Session) :
  s ∈ SessionManager.getAllSessions m <->
  exists id, SessionManager.getSession m id = Some s.
Proof.
  unfold SessionManager.getAllSessions, SessionManager.getSession.
  rewrite list_elem_of_omap. split.
  - intros ([id ref] & Hin & Hs). apply elem_of_map_to_list in Hin.
    exists id. rewrite Hin. done.
  - intros (id & Hs).
    destruct (SessionManager.sessions m !! id) as [ref|] eqn:Href; [|done].
    exists (id, ref). split; [by apply elem_of_map_to_list | done].
Qed.

(** In every interleaving of calls, the [stateChange] events that carry the
    session id of a [startSession] call and a state of the lifecycle are,
    oldest first, the first [n] states of SETUP_AVD, CREATE_WORKSPACE,
    START_EMULATOR, WAIT_BOOT, READY, with [1 <= n <= 5]: none is skipped,
    repeated or out of order.  Where the call is suspended tells [n], and
    all five are out once it has resolved; the session object exists from
    the third event on and carries the state of the last event, or ERROR
    once the rollback has begun. *)
Theorem lifecycle_events_in_order
    (cfg : Config) (w : SessionManager.System) (id : string)
    (input : StartInput) (pc : SessionManager.StartPc) :
  SessionManager.reachable cfg w ->
  SessionManager.starts w !! id = Some (input, pc) ->
  exists n,
    (1 <= n <= 5)%nat /\
    eventsOf id (SessionManager.manager w) = take n lifecycle /\
    fits pc n (SessionManager.heap (SessionManager.manager w) !! id).
Proof.
  intros Hw Hid. apply Tracked_reachable in Hw.
  destruct (progress w Hw id input pc Hid) as (n & Hn & Hfits).
  exists n. split; [|done].
  destruct pc; simpl in Hfits; destruct_and?; destruct_or?; destruct_and?; lia.
Qed.

Lemma lifecycle_events_in_order_witness :
  exists n,
    (1 <= n <= 5)%nat /\
    eventsOf "c" (SessionManager.manager Examples.afterPortReused) =
      take n lifecycle /\
    fits (SessionManager.AtWaitForBoot Examples.avdSetup) n
      (SessionManager.heap (SessionManager.manager Examples.afterPortReused) !! "c").
Proof.
  apply (lifecycle_events_in_order Examples.cfg Examples.afterPortReused "c"
           Examples.input).
  - apply (run_reachable Examples.cfg Examples.portReused
             (SessionManager.initialSystem ∅)).
    + apply SessionManager.reachable_initial.
    + vm_compute. reflexivity.
  - vm_compute. reflexivity.
Defined.

(** While a [startSession] call is suspended at [emulatorAdapter.start],
    and unless [stopSession] was called for its id, the session is in the
    registry already: [getSession] and [getAllSessions] return it, with the
    placeholder ports 0 and 0, no pid and the state START_EMULATOR, so that
    the device id derived from it is ["emulator--1"]. *)
Theorem starting_session_is_listed_with_placeholders
    (cfg : Config) (w : SessionManager.System) (id : string) (input : StartInput)
    (avd : AvdSetupInfo) (ws : WorkspaceManager.Workspace) :
  SessionManager.reachable cfg w ->
  SessionManager.starts w !! id = Some (input, SessionManager.AtEmulatorStart avd ws) ->
  ~ stopRequested w id ->
  exists s,
    SessionManager.getSession (SessionManager.manager w) id = Some s /\
    s ∈ SessionManager.getAllSessions (SessionManager.manager w) /\
    emulatorPort s = 0 /\ adbPort s = 0 /\ emulatorPid s = None /\
    state s = START_EMULATOR /\
    deviceIdOf (adbPort s) = "emulator--1".
Proof.
  intros Hw Hid Hstop. apply Tracked_reachable in Hw.
  destruct (progress w Hw id input _ Hid) as (n & _ & _ & s & Hs & Hst & Hp & Ha & Hpid).
  pose proof (registered w Hw id input _ Hid I Hstop) as Hreg.
  assert (SessionManager.getSession (SessionManager.manager w) id = Some s) as Hget.
  { unfold SessionManager.getSession. rewrite Hreg. exact Hs. }
  exists s. split; [done|]. split; [apply elem_of_getAllSessions; eauto|].
  repeat split; try done. rewrite Ha. reflexivity.
Qed.

Lemma starting_session_is_listed_with_placeholders_witness :
  exists s,
    SessionManager.getSession (SessionManager.manager Examples.afterTwoInFlight) "a"
      = Some s /\
    s ∈ SessionManager.getAllSessions (SessionManager.manager Examples.afterTwoInFlight) /\
    emulatorPort s = 0 /\ adbPort s = 0 /\ emulatorPid s = None /\
    state s = START_EMULATOR /\
    deviceIdOf (adbPort s) = "emulator--1".
Proof.
  apply (starting_session_is_listed_with_placeholders Examples.cfg
           Examples.afterTwoInFlight "a" Examples.input Examples.avdSetup
           {| WorkspaceManager.path := "/home/u/.sniaff/workspaces/a";
              WorkspaceManager.logsDir := "/home/u/.sniaff/workspaces/a/logs" |}).
  - apply (run_reachable Examples.cfg Examples.twoInFlight
             (SessionManager.initialSystem ∅)).
    + apply SessionManager.reachable_initial.
    + vm_compute. reflexivity.
  - vm_compute. reflexivity.
  - intros (k & pc & Hk). vm_compute in Hk. destruct k; discriminate Hk.
Defined.

(** ** What the calls emit and how they reject *)

Section Emissions.

Import ProcessSupervisor WorkspaceManager SessionManager.

(** Resuming a call emits at most one event, with the id of the call and a
    state of the lifecycle; and a call rejects with what [rethrown] makes
    of the error that was caught. *)
Lemma startSession_resume_emits cfg id input pc reply m m' pc' :
  startSession_resume cfg id input pc reply m = Some (m', pc') ->
  (emitted m' = emitted m \/
   exists st, st ∈ lifecycle /\ emitted m' = emitted m ++ [(id, st)]) /\
  (forall e, pc' = Rejected e -> exists cause, e = rethrown cause).
Proof.
  intros Hstep.
  destruct pc, reply; simpl in Hstep; try done;
    repeat (first [progress simplify_eq | case_match]; try done);
    repeat match goal with
    | H : caught None _ _ = _ |- _ => rewrite caught_None in H; simplify_eq
    | H : caught (Some _) _ _ = _ |- _ => apply caught_Some in H as [-> [->|[? ->]]]
    | H : ?x ≫= _ = Some _ |- _ => destruct x eqn:?; simpl in H; simplify_eq
    end; simpl.
  all: split;
    [ first [ by left
            | right; eexists; split; [|reflexivity]; unfold lifecycle; repeat first [apply list_elem_of_here | apply list_elem_of_further] ]
    | intros e0 He0; simplify_eq; eauto ].
Qed.

End Emissions.

(** In every reachable state, every [stateChange] event that was emitted
    carries the session id of a [startSession] call that was made and one
    of the five states of the lifecycle: the state ERROR is never
    announced. *)
Theorem emitted_events_are_lifecycle_states
    (cfg : Config) (w : SessionManager.System) (id : string) (st : SessionState) :
  SessionManager.reachable cfg w ->
  (id, st) ∈ SessionManager.emitted (SessionManager.manager w) ->
  st ∈ lifecycle /\ st <> ERROR /\ is_Some (SessionManager.starts w !! id).
Proof.
  intros Hw. revert id st.
  assert (forall st, st ∈ lifecycle -> st <> ERROR) as Hne.
  { intros st Hst ->. unfold lifecycle in Hst.
    repeat (apply elem_of_cons in Hst as [Hst|Hst]; [discriminate Hst|]).
    by apply elem_of_nil in Hst. }
  enough (forall id st, (id, st) ∈ SessionManager.emitted (SessionManager.manager w) ->
            st ∈ lifecycle /\ is_Some (SessionManager.starts w !! id)) as H.
  { intros id st Hin. destruct (H id st Hin). auto. }
  induction Hw as [d|w l w' _ IH Hstep];
    [simpl; intros id st Hin; by apply elem_of_nil in Hin|].
  apply step_cases in Hstep
    as [(id & input & -> & Hnew & ->)
       |[(id & reply & input & pc & m' & pc' & -> & Hid & _ & Hres & ->)
       |[(id & m' & pc & -> & Hcall & ->)
       |[(k & reply & id & pc & m' & pc' & -> & Hk & Hres & ->)
       |(pid & -> & ->)]]]]; simpl.
  - intros id' st Hin. apply elem_of_app in Hin as [Hin|Hin].
    + destruct (IH id' st Hin) as [H1 H2]. split; [done|].
      rewrite lookup_insert. case_decide; done.
    + apply list_elem_of_singleton in Hin as [= -> ->].
      split; [unfold lifecycle; apply list_elem_of_here|]. by rewrite lookup_insert_eq.
  - apply startSession_resume_emits in Hres as [[Hsame|(st0 & Hst0 & Hsnoc)] _].
    + rewrite Hsame. intros id' st Hin. destruct (IH id' st Hin) as [H1 H2].
      split; [done|]. rewrite lookup_insert. case_decide; done.
    + rewrite Hsnoc. intros id' st Hin. apply elem_of_app in Hin as [Hin|Hin].
      * destruct (IH id' st Hin) as [H1 H2]. split; [done|].
        rewrite lookup_insert. case_decide; done.
      * apply list_elem_of_singleton in Hin as [= -> ->].
        split; [done|]. by rewrite lookup_insert_eq.
  - apply stopSession_call_same in Hcall as ->. done.
  - apply stopSession_resume_frame in Hres as (_ & -> & _). done.
  - done.
Qed.

Section Rejections.

Import ProcessSupervisor WorkspaceManager SessionManager.

Variables (cfg : Config) (id : string) (input : StartInput) (a : Answers).

(** Whatever is caught once the session object exists is what the call
    rejects with, typed: the rollback does not change it. *)
Lemma caught_rejects n e m s :
  heap m !! id = Some s ->
  (forall pid, emulatorPid s = Some pid -> 0 < pid) ->
  (startSession_settle cfg id input a (2 + n) (caught (Some id) e m)).2 =
    Rejected (rethrown e).
Proof.
  intros Hs Hpos.
  by destruct (rollback_completes cfg id input a n e m s Hs Hpos) as [H _].
Qed.

Lemma heap_assign ref f (m : Manager) :
  heap (assign ref f m) = alter f ref (heap m).
Proof. reflexivity. Qed.

Lemma heap_updateState i st (m : Manager) : heap (updateState i st m) = heap m.
Proof. reflexivity. Qed.

(** The steps after [start], for a session object that is there. *)
Lemma resume_booted avd m s :
  heap m !! id = Some s ->
  exists fields,
    startSession_resume cfg id input (AtWaitForBoot avd) (WaitForBootSettled (Ok tt)) m =
      Some (assign id (withState READY) (updateState id READY m),
            AtFinalMeta avd fields).
Proof.
  intros Hs. simpl. rewrite lookup_alter_eq, Hs. simpl. by eexists.
Qed.

Lemma resume_recorded avd fields m s :
  heap m !! id = Some s ->
  exists d result,
    startSession_resume cfg id input (AtFinalMeta avd fields) (UpdateMetaSettled None) m =
      Some (setDisk d m, Resolved result).
Proof. intros Hs. simpl. rewrite Hs. simpl. by eexists _, _. Qed.

Lemma started_settles avd ws m s :
  heap m !! id = Some s -> emulatorPid s = None ->
  let settled := (startSession_settle cfg id input a 5 (m, AtEmulatorStart avd ws)).2 in
  match EmulatorAdapter.start cfg
          {| EmulatorAdapter.avdName := setupAvdName avd;
             EmulatorAdapter.port := inputEmulatorPort input;
             EmulatorAdapter.headless := inputHeadless input;
             EmulatorAdapter.logFile := logsDir ws +:+ "/emulator.log" |}
          (seenFrom (procs m) (startAnswer a)) (procs m) with
  | (Err e, _) => settled = Rejected (rethrown e)
  | (Ok _, _) =>
      match waitForBootAnswer a with
      | Err e => settled = Rejected (rethrown e)
      | Ok _ =>
          match finalMetaAnswer a with
          | Some e => settled = Rejected (rethrown e)
          | None => exists result, settled = Resolved result
          end
      end
  end.
Proof.
  intros Hs Hpid settled. subst settled.
  set (options := {| EmulatorAdapter.avdName := setupAvdName avd;
                     EmulatorAdapter.port := _; EmulatorAdapter.headless := _;
                     EmulatorAdapter.logFile := _ |}).
  destruct (EmulatorAdapter.start cfg options _ (procs m)) as [[r|e] p] eqn:Hstart.
  2:{ erewrite settle_resume;
        [|reflexivity|simpl; fold options; rewrite Hstart; reflexivity].
      apply (caught_rejects 2 e (setProcs p m) s); [done|].
      intros pid. by rewrite Hpid. }
  erewrite settle_resume;
    [|reflexivity|simpl; fold options; rewrite Hstart; reflexivity].
  pose proof (start_Ok _ _ _ _ _ _ Hstart) as (q & _ & Hq & _).
  set (m1 := assign id (withState WAIT_BOOT) _).
  assert (heap m1 !! id = Some (withState WAIT_BOOT (withEmulator r s))) as Hs1.
  { unfold m1.
    rewrite heap_assign, lookup_alter_eq, heap_updateState, heap_assign,
      lookup_alter_eq.
    change (heap (setProcs p m)) with (heap m). by rewrite Hs. }
  destruct (waitForBootAnswer a) as [[]|e] eqn:Hboot.
  2:{ erewrite settle_resume; [|reflexivity|simpl; rewrite Hboot; reflexivity].
      apply (caught_rejects 1 e m1 _ Hs1). simpl. intros pid [= <-]. lia. }
  destruct (resume_booted avd m1 _ Hs1) as [fields Hres1].
  erewrite settle_resume; [|simpl; rewrite Hboot; reflexivity|exact Hres1].
  set (m2 := assign id (withState READY) _).
  assert (heap m2 !! id = Some (withState READY (withState WAIT_BOOT (withEmulator r s))))
    as Hs2.
  { unfold m2. by rewrite heap_assign, lookup_alter_eq, heap_updateState, Hs1. }
  destruct (finalMetaAnswer a) as [e|] eqn:Hmeta.
  { erewrite settle_resume;
      [|reflexivity|simpl; rewrite Hmeta; simpl; reflexivity].
    apply (caught_rejects 0 e _ _ Hs2). simpl. intros pid [= <-]. lia. }
  destruct (resume_recorded avd fields m2 _ Hs2) as (d & result & Hres2).
  erewrite settle_resume; [|simpl; rewrite Hmeta; reflexivity|exact Hres2].
  rewrite settle_Resolved. by exists result.
Qed.

(** How a whole call settles, by its first failure. *)
Lemma startSession_settles (m : Manager) :
  let settled := (startSession cfg id input a m).2 in
  match firstFailure cfg id input a m with
  | None => exists result, settled = Resolved result
  | Some cause => settled = Rejected (rethrown cause)
  end.
Proof.
  intros settled. subst settled.
  unfold firstFailure, startSession, startSession_call.
  destruct (ensureAvdAnswer a) as [avd|e] eqn:Havd.
  2:{ erewrite settle_resume; [|reflexivity|simpl; rewrite Havd; reflexivity].
      by rewrite caught_None, settle_Rejected. }
  erewrite settle_resume; [|reflexivity|simpl; rewrite Havd; reflexivity].
  destruct (createAnswer a) as [e|] eqn:Hcreate.
  { erewrite settle_resume;
      [|reflexivity|simpl; rewrite Hcreate; simpl; reflexivity].
    by rewrite caught_None, settle_Rejected. }
  erewrite settle_resume;
    [|reflexivity|simpl; rewrite Hcreate; simpl; reflexivity].
  set (m1 := assign id (withState START_EMULATOR) _).
  set (ws := {| path := _; logsDir := _ |}).
  set (s := {| sessionId := id; avdName := setupAvdName avd; emulatorPort := 0;
               adbPort := 0; createdAt := clockAnswer a; state := START_EMULATOR;
               workspacePath := workspacesDir cfg +:+ "/" +:+ id;
               emulatorPid := None |}).
  assert (heap m1 !! id = Some s) as Hs.
  { unfold m1. rewrite heap_assign, lookup_alter_eq, heap_updateState. simpl.
    by rewrite lookup_insert_eq. }
  pose proof (started_settles avd ws m1 s Hs eq_refl) as Hsettles.
  cbv zeta in Hsettles. unfold ws in Hsettles. cbn [logsDir] in Hsettles.
  change (procs m1) with (procs m) in Hsettles.
  revert Hsettles.
  destruct (EmulatorAdapter.start cfg _ _ (procs m)) as [[r|e] p]; [|done].
  destruct (waitForBootAnswer a) as [[]|e]; [|done].
  by destruct (finalMetaAnswer a).
Qed.

End Rejections.

(** A [startSession] call that runs with nothing else in between settles,
    and how is decided by the first of its five awaited operations that
    fails: when none fails it resolves; when one does it rejects with the
    error of that operation, as it is when that is a [SniaffError], and
    otherwise as INTERNAL_ERROR with the message of the error after
    ["Session start failed: "]; what fails during the rollback does not
    change the error. *)
Theorem startSession_rejects_with_typed_error
    (cfg : Config) (id : string) (input : StartInput)
    (a : SessionManager.Answers) (m : SessionManager.Manager) :
  let settled := (SessionManager.startSession cfg id input a m).2 in
  match firstFailure cfg id input a m with
  | None => exists result, settled = SessionManager.Resolved result
  | Some (Sniaff code message) =>
      settled = SessionManager.Rejected (Sniaff code message)
  | Some (Raw _ message) =>
      settled =
        SessionManager.Rejected
          (Sniaff INTERNAL_ERROR ("Session start failed: " +:+ message))
  end.
Proof.
  intros settled. pose proof (startSession_settles cfg id input a m) as Hsettles.
  simpl in Hsettles. fold settled in Hsettles.
  destruct (firstFailure cfg id input a m) as [[code message|code message]|]; done.
Qed.

Lemma emitted_events_are_lifecycle_states_witness :
  WAIT_BOOT ∈ lifecycle /\ WAIT_BOOT <> ERROR /\
  is_Some (SessionManager.starts Examples.afterPortReused !! "c").
Proof.
  apply (emitted_events_are_lifecycle_states Examples.cfg Examples.afterPortReused).
  - apply (run_reachable Examples.cfg Examples.portReused
             (SessionManager.initialSystem ∅)).
    + apply SessionManager.reachable_initial.
    + vm_compute. reflexivity.
  - vm_compute. repeat first [apply list_elem_of_here | apply list_elem_of_further].
Defined.

(** ** A stop during a start *)

Section StopWins.

Import ProcessSupervisor WorkspaceManager SessionManager.

(** Resuming a call never drops a session object, and touches the registry
    entry of the call only to insert it when the workspace has been
    created, or to delete it. *)
Lemma startSession_resume_own cfg id input pc reply m m' pc' :
  startSession_resume cfg id input pc reply m = Some (m', pc') ->
  (forall id', is_Some (heap m !! id') -> is_Some (heap m' !! id')) /\
  ((exists avd, pc = AtCreateWorkspace avd) \/
   sessions m' !! id = sessions m !! id \/ sessions m' !! id = None).
Proof.
  intros Hstep.
  assert (forall f (h : gmap string Session) id',
            is_Some (h !! id') -> is_Some (alter f id h !! id')) as Halter.
  { intros f h id' [s Hs]. rewrite lookup_alter. case_decide; subst; rewrite Hs; eauto. }
  assert (forall s (h : gmap string Session) id',
            is_Some (h !! id') -> is_Some (<[id:=s]> h !! id')) as Hinsert.
  { intros s h id' Hs. rewrite lookup_insert. case_decide; eauto. }
  destruct pc, reply; simpl in Hstep; try done;
    repeat (first [progress simplify_eq | case_match]; try done);
    repeat match goal with
    | H : caught None _ _ = _ |- _ => rewrite caught_None in H; simplify_eq
    | H : caught (Some _) _ _ = _ |- _ => apply caught_Some in H as [-> ?]
    | H : ?x ≫= _ = Some _ |- _ => destruct x eqn:?; simpl in H; simplify_eq
    end; simpl.
  all: split; [intros id' Hs; eauto 6|].
  all: first [ left; eexists; reflexivity
             | right; left; reflexivity
             | right; right; apply lookup_delete_eq ].
Qed.

(** A [stopSession] call that found its session goes for a session whose
    object exists; once it has resolved, the entry is gone for good. *)
Lemma stopped_reachable cfg w :
  reachable cfg w ->
  (forall k id pc, stops w !! k = Some (id, pc) ->
     (forall e, pc <> StopRejected e) -> is_Some (heap (manager w) !! id)) /\
  (forall k id, stops w !! k = Some (id, StopResolved) ->
     sessions (manager w) !! id = None).
Proof.
  induction 1 as [d|w l w' Hw [IHa IHb] Hstep]; [split; intros *; done|].
  pose proof (Tracked_reachable cfg w Hw) as Htr.
  pose proof (Consistent_reachable cfg w Hw) as Hco.
  apply step_cases in Hstep
    as [(id & input & -> & Hnew & ->)
       |[(id & reply & input & pc & m' & pc' & -> & Hid & _ & Hres & ->)
       |[(id & m' & pc & -> & Hcall & ->)
       |[(k & reply & id & pc & m' & pc' & -> & Hk & Hres & ->)
       |(pid & -> & ->)]]]]; simpl.
  - split; [exact IHa | exact IHb].
  - pose proof (startSession_resume_frame _ _ _ _ _ _ _ _ Hres) as Hframe.
    apply startSession_resume_own in Hres as [Hgrow Hown].
    split.
    + intros j id' pcj Hj Hnr. apply Hgrow. by apply (IHa j id' pcj).
    + intros j id' Hj. destruct (decide (id' = id)) as [->|Hne].
      * destruct Hown as [[avd ->]|[->| ->]]; [|by apply (IHb j)|done].
        destruct (progress w Htr id input _ Hid) as (n & _ & _ & Hnone).
        destruct (IHa j id StopResolved Hj) as [s Hs]; [done|]. congruence.
      * destruct (Hframe id' Hne) as (_ & -> & _). by apply (IHb j).
  - split.
    + intros j id' pcj Hj Hnr.
      apply lookup_app_Some in Hj as [Hj|[_ Hj]]; [|].
      * apply stopSession_call_same in Hcall as ->. by apply (IHa j id' pcj).
      * apply list_lookup_singleton_Some in Hj as [_ [= -> ->]].
        unfold stopSession_call in Hcall.
        destruct (getSession (manager w) id') as [s|] eqn:Hget.
        -- apply (getSession_Some _ _ _ Hco) in Hget as [_ Hs].
           repeat case_match; simplify_eq; eauto.
        -- simplify_eq. by destruct (Hnr _ eq_refl).
    + intros j id' Hj.
      apply lookup_app_Some in Hj as [Hj|[_ Hj]].
      * apply stopSession_call_same in Hcall as ->. by apply (IHb j).
      * apply list_lookup_singleton_Some in Hj as [_ [= -> ->]].
        unfold stopSession_call in Hcall. repeat case_match; simplify_eq.
  - assert (k < length (stops w))%nat as Hlen by (by eapply lookup_lt_Some).
    pose proof Hres as Hres'.
    apply stopSession_resume_frame in Hres as (Hheap & _ & Hother & Hnone).
    split.
    + intros j id' pcj. rewrite Hheap. destruct (decide (j = k)) as [->|Hjk].
      * rewrite list_lookup_insert_eq by done. intros [= -> ->] _.
        apply (IHa k id' pc Hk). intros e ->. done.
      * rewrite list_lookup_insert_ne by done. apply IHa.
    + intros j id'. destruct (decide (j = k)) as [->|Hjk].
      * rewrite list_lookup_insert_eq by done. intros [= -> ->].
        destruct pc, reply; simpl in Hres'; simplify_eq. simpl.
        apply lookup_delete_eq.
      * rewrite list_lookup_insert_ne by done. intros Hj.
        apply Hnone. by apply (IHb j).
  - split; [exact IHa | exact IHb].
Qed.

(** The object made for a session id carries that id. *)
Lemma sessionId_reachable cfg w id s :
  reachable cfg w -> heap (manager w) !! id = Some s -> sessionId s = id.
Proof.
  intros Hw. revert id s.
  induction Hw as [d|w l w' Hw IH Hstep]; [intros id s; done|].
  apply step_cases in Hstep
    as [(id & input & -> & Hnew & ->)
       |[(id & reply & input & pc & m' & pc' & -> & Hid & _ & Hres & ->)
       |[(id & m' & pc & -> & Hcall & ->)
       |[(k & reply & id & pc & m' & pc' & -> & Hk & Hres & ->)
       |(pid & -> & ->)]]]]; simpl; try done.
  - intros id' s. destruct (decide (id' = id)) as [->|Hne].
    + assert (forall f (h : gmap string Session),
                (forall t, sessionId (f t) = sessionId t) ->
                (forall t, h !! id = Some t -> sessionId t = id) ->
                forall t, alter f id h !! id = Some t -> sessionId t = id)
        as Halter.
      { intros f h Hf Hh t. rewrite lookup_alter_eq.
        destruct (h !! id) as [u|] eqn:Hu; [|done]. intros [= <-].
        rewrite Hf. by apply Hh. }
      specialize (IH id). revert s.
      destruct pc, reply; simpl in Hres; try done;
        repeat (first [progress simplify_eq | case_match]; try done);
        repeat match goal with
        | H : caught None _ _ = _ |- _ => rewrite caught_None in H; simplify_eq
        | H : caught (Some _) _ _ = _ |- _ => apply caught_Some in H as [-> ?]
        | H : ?x ≫= _ = Some _ |- _ => destruct x eqn:?; simpl in H; simplify_eq
        end; simpl; try exact IH.
      all: repeat (apply Halter; [done|]);
        first [ exact IH
              | intros t Ht; apply IH; congruence
              | intros t; rewrite lookup_insert_eq; by intros [= <-] ].
    + destruct (startSession_resume_frame _ _ _ _ _ _ _ _ Hres id' Hne) as (-> & _).
      apply IH.
  - apply stopSession_call_same in Hcall as ->. done.
  - apply stopSession_resume_frame in Hres as (-> & _). done.
Qed.

End StopWins.

(** Once a [stopSession] call for a session has resolved, [getSession]
    finds nothing for its id and [getAllSessions] lists no session with that
    id, in every state that follows, whatever the
    calls in flight do: a [startSession] call that was still starting the
    session when it was stopped mutates its object, but never puts the
    entry back. *)
Theorem stopped_session_stays_out_of_registry
    (cfg : Config) (w : SessionManager.System) (k : nat) (id : string) :
  SessionManager.reachable cfg w ->
  SessionManager.stops w !! k = Some (id, SessionManager.StopResolved) ->
  SessionManager.getSession (SessionManager.manager w) id = None /\
  forall s, s ∈ SessionManager.getAllSessions (SessionManager.manager w) ->
            sessionId s <> id.
Proof.
  intros Hw Hk.
  destruct (stopped_reachable cfg w Hw) as [_ Hb].
  pose proof (Hb k id Hk) as Hnone.
  split; [unfold SessionManager.getSession; by rewrite Hnone|].
  intros s Hs Hid. apply elem_of_getAllSessions in Hs as [id' Hget].
  apply (getSession_Some _ _ _ (Consistent_reachable cfg w Hw)) in Hget as [Hreg Hs].
  apply (sessionId_reachable cfg w id' s Hw) in Hs. congruence.
Qed.

(** The state the third run ends in: the session was stopped while its
    emulator had not started, and its [startSession] call resolved all the
    same. *)
Lemma stopped_session_stays_out_of_registry_witness :
  SessionManager.getSession
    (SessionManager.manager Scenarios.afterStoppedWhileStarting) "a" = None /\
  forall s,
    s ∈ SessionManager.getAllSessions
          (SessionManager.manager Scenarios.afterStoppedWhileStarting) ->
    sessionId s <> "a".
Proof.
  apply (stopped_session_stays_out_of_registry Examples.cfg
           Scenarios.afterStoppedWhileStarting 0 "a").
  - apply (run_reachable Examples.cfg Scenarios.stoppedWhileStarting
             (SessionManager.initialSystem ∅)).
    + apply SessionManager.reachable_initial.
    + vm_compute. reflexivity.
  - vm_compute. reflexivity.
Defined.

(** ** The tool handlers *)

Section EscapeText.

Import InputTextTool.

Lemma string_app_assoc (s t u : string) : (s +:+ t) +:+ u = s +:+ (t +:+ u).
Proof.
  induction s as [|a s IH]; [done|].
  change (String a ((s +:+ t) +:+ u) = String a (s +:+ (t +:+ u))).
  by rewrite IH.
Qed.

Lemma replaceAll_app c r s t :
  replaceAll c r (s +:+ t) = replaceAll c r s +:+ replaceAll c r t.
Proof.
  induction s as [|a s IH]; [done|].
  change (String a s +:+ t) with (String a (s +:+ t)).
  change (replaceAll c r (String a (s +:+ t))) with
    ((if Ascii.eqb a c then r else String a EmptyString) +:+ replaceAll c r (s +:+ t)).
  change (replaceAll c r (String a s)) with
    ((if Ascii.eqb a c then r else String a EmptyString) +:+ replaceAll c r s).
  by rewrite IH, string_app_assoc.
Qed.

Lemma escapeText_app s t :
  DeviceCommands.escapeText (s +:+ t) =
  DeviceCommands.escapeText s +:+ DeviceCommands.escapeText t.
Proof. unfold DeviceCommands.escapeText. by rewrite !replaceAll_app. Qed.

Lemma escapeText_one a :
  DeviceCommands.escapeText (String a EmptyString) = escapeChar a.
Proof. destruct a as [[] [] [] [] [] [] [] []]; vm_compute; reflexivity. Qed.

End EscapeText.
Section KeyCodes.

Import KeyEventTool.

Lemma parseInt_from_app acc s t :
  parseInt_from acc (s +:+ t) = parseInt_from (parseInt_from acc s) t.
Proof. revert acc. induction s as [|a s IH]; intros acc; [done|]. apply IH. Qed.

Lemma allDigits_app s t : allDigits (s +:+ t) = allDigits s && allDigits t.
Proof.
  induction s as [|a s IH]; [done|].
  change (allDigits (String a s +:+ t)) with (isDigit a && allDigits (s +:+ t)).
  rewrite IH. simpl. by rewrite andb_assoc.
Qed.

Lemma pretty_N_char_digit x :
  (x < 10)%N ->
  isDigit (pretty_N_char x) = true /\
  Z.of_nat (nat_of_ascii (pretty_N_char x)) - 48 = Z.of_N x.
Proof.
  intros Hx.
  assert (x = 0 \/ x = 1 \/ x = 2 \/ x = 3 \/ x = 4 \/ x = 5 \/ x = 6 \/
          x = 7 \/ x = 8 \/ x = 9)%N as Hc by lia.
  repeat destruct Hc as [->|Hc]; try subst x; by vm_compute.
Qed.

(** The digits of a number, as [pretty] writes them: they are digits, they
    denote the number, and there is one at least for a positive number. *)
Lemma pretty_N_go_digits x :
  exists d, (forall s, pretty_N_go x s = d +:+ s) /\
            allDigits d = true /\ parseInt d = Z.of_N x /\
            ((0 < x)%N -> d <> EmptyString).
Proof.
  induction (N.lt_wf_0 x) as [x _ IH].
  assert (x = 0 \/ 0 < x)%N as [->|Hx] by lia.
  { exists EmptyString. repeat split; try done; lia. }
  destruct (IH (x `div` 10)%N) as (d & Hgo & Hd & Hv & _).
  { by apply N.div_lt. }
  destruct (pretty_N_char_digit (x `mod` 10)%N) as [Hc Hcv].
  { by apply N.mod_lt. }
  exists (d +:+ String (pretty_N_char (x `mod` 10)) EmptyString).
  split; [|split; [|split]].
  - intros s. rewrite pretty_N_go_step, Hgo by done.
    by rewrite string_app_assoc.
  - rewrite allDigits_app, Hd. simpl. by rewrite Hc.
  - unfold parseInt in *. rewrite parseInt_from_app, Hv. simpl.
    rewrite Hcv. rewrite (N.div_mod x 10) at 3 by done. lia.
  - intros _. destruct d; done.
Qed.

Lemma numberToString_digits n :
  0 <= n ->
  exists a d, numberToString n = String a d /\ isDigit a = true /\
              allDigits d = true /\ parseInt (String a d) = n.
Proof.
  intros Hn. unfold numberToString, pretty, pretty_Z.
  destruct n as [|p|p]; [by exists "0"%char, EmptyString| |lia].
  unfold pretty, pretty_positive, pretty, pretty_N.
  rewrite decide_False by done.
  destruct (pretty_N_go_digits (N.pos p)) as (d & Hgo & Hd & Hv & Hne).
  rewrite Hgo.
  assert (d +:+ EmptyString = d) as ->.
  { clear. induction d as [|a d IH]; [done|].
    change (String a (d +:+ EmptyString) = String a d). by rewrite IH. }
  destruct d as [|a d]; [by destruct Hne|].
  exists a, d. simpl in Hd. apply andb_true_iff in Hd as [? ?]. done.
Qed.

Lemma toUpperCase_digits s : allDigits s = true -> toUpperCase s = s.
Proof.
  induction s as [|a s IH]; [done|]. simpl.
  intros [Ha Hs]%andb_true_iff. rewrite IH by done. f_equal.
  unfold toUpperCaseChar, isDigit in *.
  destruct (97 <=? nat_of_ascii a)%nat eqn:H1; [|done].
  apply Nat.leb_le in H1. apply andb_true_iff in Ha as [_ H2%Nat.leb_le]. lia.
Qed.

Lemma KEY_CODES_no_digit a s :
  isDigit a = true -> KEY_CODES !! String a s = None.
Proof.
  intros Ha. unfold KEY_CODES. apply not_elem_of_list_to_map_1. simpl.
  intros Hin.
  repeat (apply elem_of_cons in Hin as [Heq|Hin];
          [injection Heq as -> _; vm_compute in Ha; discriminate|]).
  by apply elem_of_nil in Hin.
Qed.

End KeyCodes.

(** A key given as the decimal digits of a number resolves to that number:
    no name of the table is made of digits, the digits pass the test
    [/^\d+$/], and [parseInt] reads back what was written. *)
Theorem resolveKey_numeric_round_trip (n : Z) :
  0 <= n <= 9007199254740991 ->
  KeyEventTool.resolveKey (numberToString n) = Ok n.
Proof.
  intros [Hn _].
  destruct (numberToString_digits n Hn) as (a & d & Hs & Ha & Hd & Hv).
  unfold KeyEventTool.resolveKey. rewrite Hs.
  rewrite toUpperCase_digits by (simpl; by rewrite Ha, Hd).
  rewrite KEY_CODES_no_digit by done.
  unfold KeyEventTool.isNumeric. simpl. by rewrite Ha, Hd, Hv.
Qed.

Lemma resolveKey_numeric_round_trip_witness :
  0 <= 66 <= 9007199254740991 /\
  KeyEventTool.resolveKey (numberToString 66) = Ok 66.
Proof.
  split; [lia|]. apply (resolveKey_numeric_round_trip 66). lia.
Defined.
Section KeyCase.

Import KeyEventTool.

Lemma toUpperCaseChar_digit b :
  isDigit (toUpperCaseChar b) = true -> toUpperCaseChar b = b.
Proof. destruct b as [[] [] [] [] [] [] [] []]; vm_compute; done. Qed.

Lemma toUpperCase_eq_digits k1 k2 :
  allDigits k1 = true -> toUpperCase k1 = toUpperCase k2 -> k2 = k1.
Proof.
  revert k2. induction k1 as [|a k1 IH]; intros [|b k2]; simpl; try done.
  intros [Ha Hk]%andb_true_iff [= Hab Hrest].
  rewrite (IH k2 Hk Hrest). f_equal.
  assert (toUpperCaseChar a = a) as Haa.
  { clear -Ha. unfold toUpperCaseChar, isDigit in *.
    destruct (97 <=? nat_of_ascii a)%nat eqn:H1; [|done].
    apply Nat.leb_le in H1. apply andb_true_iff in Ha as [_ H2%Nat.leb_le]. lia. }
  rewrite Haa in Hab. rewrite Hab in Ha.
  apply toUpperCaseChar_digit in Ha. congruence.
Qed.

End KeyCase.

(** Key names are matched without regard to the case of their letters: two
    keys with the same upper-case form resolve to the same key code, or
    neither resolves. *)
Theorem resolveKey_ignores_case (k1 k2 : string) (keyCode : Z) :
  KeyEventTool.toUpperCase k1 = KeyEventTool.toUpperCase k2 ->
  KeyEventTool.resolveKey k1 = Ok keyCode ->
  KeyEventTool.resolveKey k2 = Ok keyCode.
Proof.
  intros Hup. unfold KeyEventTool.resolveKey. rewrite <-Hup.
  destruct (KeyEventTool.KEY_CODES !! _); [done|].
  unfold KeyEventTool.isNumeric.
  destruct (KeyEventTool.allDigits k1) eqn:Hd.
  - by rewrite (toUpperCase_eq_digits k1 k2 Hd Hup), Hd.
  - by rewrite andb_false_r.
Qed.

Lemma resolveKey_ignores_case_witness :
  KeyEventTool.resolveKey "Volume_Up" = Ok 24.
Proof.
  apply (resolveKey_ignores_case "volume_up" "Volume_Up" 24).
  - vm_compute. reflexivity.
  - vm_compute. reflexivity.
Defined.

(** Once a [stopSession] call for a session has resolved, no tool handler
    sends anything to a device on behalf of that session: each one answers
    with SESSION_NOT_FOUND, whatever its other arguments are. *)
Theorem tool_handlers_refuse_stopped_session
    (cfg : Config) (w : SessionManager.System) (k : nat) (id : string) :
  SessionManager.reachable cfg w ->
  SessionManager.stops w !! k = Some (id, SessionManager.StopResolved) ->
  let m := SessionManager.manager w in
  let notFound :=
    Sniaff SESSION_NOT_FOUND ("Session '" +:+ id +:+ "' not found") in
  (forall exec text, InputTextTool.handler cfg m exec id text = ([], Err notFound)) /\
  (forall exec key longPress,
     KeyEventTool.handler cfg m exec id key longPress = ([], Err notFound)) /\
  (forall exec, InstallMitmCertTool.handler cfg m exec id = ([], Err notFound)).
Proof.
  intros Hw Hk m notFound.
  destruct (stopped_reachable cfg w Hw) as [_ Hb].
  assert (SessionManager.getSession m id = None) as Hnone.
  { unfold SessionManager.getSession, m. by rewrite (Hb k id Hk). }
  unfold InputTextTool.handler, KeyEventTool.handler, InstallMitmCertTool.handler.
  rewrite Hnone. done.
Qed.

Lemma tool_handlers_refuse_stopped_session_witness :
  let m := SessionManager.manager Scenarios.afterStoppedWhileStarting in
  let notFound := Sniaff SESSION_NOT_FOUND "Session 'a' not found" in
  (forall exec text,
     InputTextTool.handler Examples.cfg m exec "a" text = ([], Err notFound)) /\
  (forall exec key longPress,
     KeyEventTool.handler Examples.cfg m exec "a" key longPress =
       ([], Err notFound)) /\
  (forall exec, InstallMitmCertTool.handler Examples.cfg m exec "a" =
                  ([], Err notFound)).
Proof.
  apply (tool_handlers_refuse_stopped_session Examples.cfg
           Scenarios.afterStoppedWhileStarting 0 "a").
  - apply (run_reachable Examples.cfg Scenarios.stoppedWhileStarting
             (SessionManager.initialSystem ∅)).
    + apply SessionManager.reachable_initial.
    + vm_compute. reflexivity.
  - vm_compute. reflexivity.
Defined.


(** The thirteen replacements of the [input_text] handler, applied one
    after the other to the whole text, come to one pass over the text that
    treats each character on its own: a backslash goes before each of the
    twelve special characters, a space becomes [%s], every other character
    stays; nothing that one replacement wrote is touched by a later one. *)
Theorem escapeText_escapes_each_character (a : ascii) (text : string) :
  DeviceCommands.escapeText EmptyString = EmptyString /\
  DeviceCommands.escapeText (String a text) =
    InputTextTool.escapeChar a +:+ DeviceCommands.escapeText text.
Proof.
  split; [reflexivity|].
  change (String a text) with (String a EmptyString +:+ text).
  by rewrite escapeText_app, escapeText_one.
Qed.

(** The escaping loses information: a text with the two characters [%s]
    is sent to the device in the same form as the text with a space in
    their place. *)
Theorem escapeText_sends_percent_s_as_space (before after : string) :
  DeviceCommands.escapeText (before +:+ "%s" +:+ after) =
  DeviceCommands.escapeText (before +:+ " " +:+ after).
Proof. by rewrite !escapeText_app. Qed.

(** ** The listing of the images *)

Section Lines.

Lemma string_app_nil_r (s : string) : s +:+ EmptyString = s.
Proof.
  induction s as [|a s IH]; [done|].
  change (String a (s +:+ EmptyString) = String a s). by rewrite IH.
Qed.

Lemma trimEnd_cons a s :
  trimEnd (String a s) =
  match trimEnd s with
  | EmptyString => if isWhiteSpace a then EmptyString else String a EmptyString
  | t => String a t
  end.
Proof. done. Qed.

Lemma trimEnd_noWhiteSpace s : noWhiteSpace s = true -> trimEnd s = s.
Proof.
  induction s as [|a s IH]; [done|].
  intros [Ha Hs]%andb_true_iff. rewrite trimEnd_cons, (IH Hs).
  apply negb_true_iff in Ha. rewrite Ha. by destruct s.
Qed.

Lemma trimEnd_app_keep s t :
  trimEnd t <> EmptyString -> trimEnd (s +:+ t) = s +:+ trimEnd t.
Proof.
  intros Ht. induction s as [|a s IH]; [done|].
  change (String a s +:+ t) with (String a (s +:+ t)).
  rewrite trimEnd_cons, IH.
  change (String a s +:+ trimEnd t) with (String a (s +:+ trimEnd t)).
  destruct (s +:+ trimEnd t) eqn:Hst; [|done].
  destruct s; [|done]. by destruct Ht.
Qed.

Lemma trimEnd_app_drop s t :
  trimEnd t = EmptyString -> trimEnd (s +:+ t) = trimEnd s.
Proof.
  intros Ht. induction s as [|a s IH]; [done|].
  change (String a s +:+ t) with (String a (s +:+ t)).
  by rewrite !trimEnd_cons, IH.
Qed.

Lemma split_no_sep c s : occurs c s = false -> split c s = [s].
Proof.
  induction s as [|a s IH]; [done|]. simpl.
  intros [Ha Hs]%orb_false_iff. by rewrite Ha, (IH Hs).
Qed.

Lemma split_app_sep c s t :
  occurs c s = false -> split c (s +:+ String c t) = s :: split c t.
Proof.
  induction s as [|a s IH].
  - intros _. change (split c (String c t) = EmptyString :: split c t).
    simpl. by rewrite Ascii.eqb_refl.
  - intros [Ha Hs]%orb_false_iff.
    change (String a s +:+ String c t) with (String a (s +:+ String c t)).
    simpl. by rewrite Ha, (IH Hs).
Qed.

(** Every piece of a split is free of the separator. *)
Lemma split_pieces c s piece : piece ∈ split c s -> occurs c piece = false.
Proof.
  revert piece. induction s as [|a s IH]; intros piece; simpl.
  - intros ->%list_elem_of_singleton. done.
  - destruct (Ascii.eqb a c) eqn:Hac.
    + intros [->|Hin]%elem_of_cons; [done | by apply IH].
    + destruct (split c s) as [|p ps] eqn:Hsplit.
      * intros ->%list_elem_of_singleton. simpl. by rewrite Hac.
      * intros [->|Hin]%elem_of_cons.
        -- simpl. rewrite Hac. apply IH. apply list_elem_of_here.
        -- apply IH. by apply list_elem_of_further.
Qed.

Lemma noWhiteSpace_no_lf s : noWhiteSpace s = true -> occurs lf s = false.
Proof.
  induction s as [|a s IH]; [done|]. simpl.
  intros [Ha Hs]%andb_true_iff. rewrite (IH Hs), orb_false_r.
  destruct (Ascii.eqb_spec a lf) as [->|]; done.
Qed.

Lemma trim_listingOf names :
  Forall isAvdName names -> trim (listingOf names) = joined names.
Proof.
  intros Hnames. unfold trim.
  assert (trimStart (listingOf names) = listingOf names) as ->.
  { destruct Hnames as [|name names [Hne Hws] _]; [done|].
    destruct name as [|a name]; [done|]. simpl in Hws.
    apply andb_true_iff in Hws as [Ha%negb_true_iff _].
    change (listingOf (String a name :: names))
      with (String a (name +:+ String lf (listingOf names))).
    simpl. by rewrite Ha. }
  induction Hnames as [|name names [Hne Hws] Hnames IH]; [done|].
  change (listingOf (name :: names)) with (name +:+ String lf (listingOf names)).
  destruct names as [|name' names].
  - change (name +:+ String lf (listingOf [])) with (name +:+ String lf EmptyString).
    rewrite trimEnd_app_drop by done. by apply trimEnd_noWhiteSpace.
  - change (name +:+ String lf (listingOf (name' :: names)))
      with (name +:+ (String lf EmptyString +:+ listingOf (name' :: names))).
    rewrite <-string_app_assoc, trimEnd_app_keep, IH.
    + by rewrite string_app_assoc.
    + rewrite IH. inversion Hnames as [|? ? [Hne' _] _]; subst.
      simpl. destruct names; [done|]. by destruct name'.
Qed.

Lemma split_joined names :
  names <> [] -> Forall isAvdName names -> split lf (joined names) = names.
Proof.
  intros Hne Hnames.
  induction Hnames as [|name names [_ Hws] Hnames IH]; [done|].
  destruct names as [|name' names].
  - apply split_no_sep. by apply noWhiteSpace_no_lf.
  - change (joined (name :: name' :: names))
      with (name +:+ String lf (joined (name' :: names))).
    rewrite split_app_sep by (by apply noWhiteSpace_no_lf).
    by rewrite IH.
Qed.

End Lines.

(** [listAvds] reads a listing back: when the emulator prints the names of
    the images one to a line, each a name without white space, [listAvds]
    resolves to exactly these names, in the order printed. *)
Theorem listAvds_reads_back_listing (cfg : Config) (names : list string) :
  Forall isAvdName names ->
  EmulatorAdapter.listAvds cfg (ExecOk (listingOf names)) = Ok names.
Proof.
  intros Hnames. unfold EmulatorAdapter.listAvds. f_equal.
  rewrite trim_listingOf by done.
  destruct names as [|name names]; [done|].
  rewrite split_joined by done.
  clear -Hnames. induction Hnames as [|n ns [Hne _] _ IH]; [done|].
  simpl. rewrite bool_decide_eq_false_2 by done. simpl. by rewrite IH.
Qed.

Lemma listAvds_reads_back_listing_witness :
  EmulatorAdapter.listAvds Examples.cfg
    (ExecOk (listingOf ["SniaffPhone"; "Pixel_7"])) =
  Ok ["SniaffPhone"; "Pixel_7"].
Proof.
  apply (listAvds_reads_back_listing Examples.cfg ["SniaffPhone"; "Pixel_7"]).
  repeat constructor; done.
Defined.
Section Pieces.

Lemma split_head_prefix c s p ps :
  split c s = p :: ps -> exists after, s = p +:+ after.
Proof.
  revert p ps. induction s as [|a s IH]; intros p ps; simpl.
  - intros [= <- <-]. by exists EmptyString.
  - destruct (Ascii.eqb a c).
    + intros [= <- <-]. by exists (String a s).
    + destruct (split c s) as [|q qs].
      * intros [= <- <-]. by exists s.
      * intros [= <- <-]. destruct (IH q qs eq_refl) as [after ->].
        by exists after.
Qed.

Lemma split_substring c s piece :
  piece ∈ split c s -> exists before after, s = before +:+ piece +:+ after.
Proof.
  revert piece. induction s as [|a s IH]; intros piece; simpl.
  - intros ->%list_elem_of_singleton. by exists EmptyString, EmptyString.
  - destruct (Ascii.eqb a c) eqn:Hac.
    + intros [->|Hin]%elem_of_cons.
      * by exists EmptyString, (String a s).
      * destruct (IH _ Hin) as (before & after & ->).
        by exists (String a before), after.
    + destruct (split c s) as [|p ps] eqn:Hsplit.
      * intros ->%list_elem_of_singleton. by exists EmptyString, s.
      * intros [->|Hin]%elem_of_cons.
        -- destruct (split_head_prefix c s p ps Hsplit) as [after ->].
           by exists EmptyString, after.
        -- destruct (IH piece) as (before & after & ->);
             [by apply list_elem_of_further|].
           by exists (String a before), after.
Qed.

Lemma trimStart_suffix s : exists before, s = before +:+ trimStart s.
Proof.
  induction s as [|a s [before IH]]; [by exists EmptyString|]. simpl.
  destruct (isWhiteSpace a); [|by exists EmptyString].
  exists (String a before).
  change (String a s = String a (before +:+ trimStart s)). by f_equal.
Qed.

Lemma trimEnd_prefix s : exists after, s = trimEnd s +:+ after.
Proof.
  induction s as [|a s [after IH]]; [by exists EmptyString|].
  rewrite trimEnd_cons. destruct (trimEnd s) as [|b t] eqn:Ht.
  - destruct (isWhiteSpace a); [by exists (String a s)|].
    exists after. change (String a s = String a (EmptyString +:+ after)).
    by f_equal.
  - exists after. change (String a s = String a (String b t +:+ after)).
    by f_equal.
Qed.

End Pieces.

(** Whenever [listAvds] resolves, the command succeeded, and every name of
    the result is a non-empty piece of the output of the command without a
    line feed in it. *)
Theorem listAvds_names_are_lines
    (cfg : Config) (out : ExecOutcome) (names : list string) :
  EmulatorAdapter.listAvds cfg out = Ok names ->
  exists stdout,
    out = ExecOk stdout /\
    forall name, name ∈ names ->
      name <> EmptyString /\ occurs lf name = false /\
      includes name stdout = true.
Proof.
  unfold EmulatorAdapter.listAvds.
  destruct out as [stdout|code message]; [|by destruct (isENOENT code message)].
  intros [= <-]. exists stdout. split; [done|]. intros name Hin.
  apply list_elem_of_In, filter_In in Hin as [Hin Hne].
  apply list_elem_of_In in Hin.
  split; [|split].
  - intros ->. done.
  - by apply split_pieces in Hin.
  - apply includes_spec.
    apply split_substring in Hin as (before & after & Htrim).
    unfold trim in Htrim.
    destruct (trimStart_suffix stdout) as [front Hfront].
    destruct (trimEnd_prefix (trimStart stdout)) as [back Hback].
    exists (front +:+ before), (after +:+ back).
    rewrite Hfront at 1. rewrite Hback at 1. rewrite Htrim.
    by rewrite !string_app_assoc.
Qed.

Lemma listAvds_names_are_lines_witness :
  exists stdout,
    Examples.avdsListing = ExecOk stdout /\
    forall name, name ∈ ["SniaffPhone"; "Pixel_7"] ->
      name <> EmptyString /\ occurs lf name = false /\
      includes name stdout = true.
Proof.
  apply (listAvds_names_are_lines Examples.cfg Examples.avdsListing
           ["SniaffPhone"; "Pixel_7"]).
  vm_compute. reflexivity.
Defined.
(** ** Starting an emulator *)

(** A [start] that rejects does so with a [SniaffError] and leaves no
    emulator running that was not running before; an image that is not in
    the listing is reported as AVD_NOT_FOUND before a port is looked for
    or a process is spawned. *)
Theorem start_rejection_leaves_no_emulator
    (cfg : Config) (options : EmulatorAdapter.EmulatorStartOptions)
    (env : EmulatorAdapter.StartEnv) (procs procs' : gmap Z ProcessSupervisor.Proc)
    (e : Thrown) :
  EmulatorAdapter.start cfg options env procs = (Err e, procs') ->
  (exists code message, e = Sniaff code message) /\
  (forall pid, ProcessSupervisor.isRunning pid procs' = true ->
               ProcessSupervisor.isRunning pid procs = true) /\
  (forall avds,
     EmulatorAdapter.listAvds cfg (EmulatorAdapter.listAvdsOutcome env) = Ok avds ->
     EmulatorAdapter.avdName options ∉ avds ->
     procs' = procs /\
     e = Sniaff AVD_NOT_FOUND
           ("AVD '" +:+ EmulatorAdapter.avdName options +:+ "' not found")).
Proof.
  intros Hstart. split; [|split].
  - revert Hstart. unfold EmulatorAdapter.start, EmulatorAdapter.listAvds.
    intros H. repeat case_match; simplify_eq; eauto.
  - intros pid. destruct (start_Err _ _ _ _ _ _ Hstart) as [->|(p & c & _ & _ & ->)];
      [done|]. apply isRunning_exited_spawn.
  - intros avds Hlist Hnot. revert Hstart. unfold EmulatorAdapter.start.
    rewrite Hlist. rewrite bool_decide_eq_false_2 by done. simpl.
    by intros [= <- <-].
Qed.

Lemma start_rejection_leaves_no_emulator_witness :
  let env :=
    {| EmulatorAdapter.listAvdsOutcome := Examples.avdsListing;
       EmulatorAdapter.portAvailable := fun _ => true;
       EmulatorAdapter.logStreamError := None;
       EmulatorAdapter.spawnOutcome := Ok 77%positive;
       EmulatorAdapter.exitsDuringSettle := true |} in
  let e := Sniaff EMULATOR_START_FAILED "Emulator process exited immediately" in
  let procs' :=
    ProcessSupervisor.exited 77 (ProcessSupervisor.spawn 77 5554 ∅) in
  (exists code message, e = Sniaff code message) /\
  (forall pid, ProcessSupervisor.isRunning pid procs' = true ->
               ProcessSupervisor.isRunning pid ∅ = true) /\
  (forall avds,
     EmulatorAdapter.listAvds Examples.cfg (EmulatorAdapter.listAvdsOutcome env) =
       Ok avds ->
     EmulatorAdapter.avdName (Examples.options None) ∉ avds ->
     procs' = ∅ /\
     e = Sniaff AVD_NOT_FOUND
           ("AVD '" +:+ EmulatorAdapter.avdName (Examples.options None) +:+
            "' not found")).
Proof.
  intros env e procs'.
  apply (start_rejection_leaves_no_emulator Examples.cfg (Examples.options None)
           env ∅ procs' e).
  vm_compute. reflexivity.
Defined.

(** A [start] that resolves has found the image in the listing, has opened
    the log file, and has a process that outlived the settle delay: the
    supervisor tracks it, running, under the pid of the result and on the
    console port of the result, and the rest of the process table is as it
    was. *)
Theorem start_resolves_with_tracked_process
    (cfg : Config) (options : EmulatorAdapter.EmulatorStartOptions)
    (env : EmulatorAdapter.StartEnv) (procs procs' : gmap Z ProcessSupervisor.Proc)
    (r : EmulatorAdapter.EmulatorStartResult) :
  EmulatorAdapter.start cfg options env procs = (Ok r, procs') ->
  0 < EmulatorAdapter.pid r /\
  procs' !! EmulatorAdapter.pid r =
    Some {| ProcessSupervisor.procPort := EmulatorAdapter.consolePort r;
            ProcessSupervisor.procAlive := true |} /\
  ProcessSupervisor.isRunning (EmulatorAdapter.pid r) procs' = true /\
  (forall pid, pid <> EmulatorAdapter.pid r -> procs' !! pid = procs !! pid) /\
  (exists avds,
     EmulatorAdapter.listAvds cfg (EmulatorAdapter.listAvdsOutcome env) = Ok avds /\
     EmulatorAdapter.avdName options ∈ avds) /\
  EmulatorAdapter.logStreamError env = None /\
  EmulatorAdapter.exitsDuringSettle env = false.
Proof.
  intros Hstart.
  pose proof (start_Ok _ _ _ _ _ _ Hstart) as (p & Hp & Hpid & -> & _ & _).
  rewrite Hpid. unfold ProcessSupervisor.isRunning, ProcessSupervisor.spawn.
  rewrite lookup_insert_eq.
  split; [lia|]. split; [done|]. split; [done|].
  split; [intros pid Hne; by rewrite lookup_insert_ne|].
  revert Hstart. unfold EmulatorAdapter.start.
  destruct (EmulatorAdapter.listAvds _ _) as [avds|]; [|done].
  destruct (decide (EmulatorAdapter.avdName options ∈ avds)) as [Hin|Hnot];
    [|by rewrite bool_decide_eq_false_2].
  intros H. split; [by exists avds|].
  repeat case_match; simplify_eq; try done.
  exfalso.
  match goal with H : negb _ = false |- _ => apply negb_false_iff in H; revert H end.
  unfold ProcessSupervisor.isRunning, ProcessSupervisor.exited,
    ProcessSupervisor.spawn.
  rewrite lookup_alter_eq, lookup_insert_eq. done.
Qed.

Lemma start_resolves_with_tracked_process_witness :
  let r := {| EmulatorAdapter.pid := 4242; EmulatorAdapter.consolePort := 5554;
              EmulatorAdapter.adbPort := 5555 |} in
  let procs' := ProcessSupervisor.spawn 4242 5554 ∅ in
  0 < EmulatorAdapter.pid r /\
  procs' !! EmulatorAdapter.pid r =
    Some {| ProcessSupervisor.procPort := EmulatorAdapter.consolePort r;
            ProcessSupervisor.procAlive := true |} /\
  ProcessSupervisor.isRunning (EmulatorAdapter.pid r) procs' = true /\
  (forall pid, pid <> EmulatorAdapter.pid r ->
     procs' !! pid = (∅ : gmap Z ProcessSupervisor.Proc) !! pid) /\
  (exists avds,
     EmulatorAdapter.listAvds Examples.cfg
       (EmulatorAdapter.listAvdsOutcome (Examples.spawning 4242)) = Ok avds /\
     EmulatorAdapter.avdName (Examples.options None) ∈ avds) /\
  EmulatorAdapter.logStreamError (Examples.spawning 4242) = None /\
  EmulatorAdapter.exitsDuringSettle (Examples.spawning 4242) = false.
Proof.
  intros r procs'.
  apply (start_resolves_with_tracked_process Examples.cfg (Examples.options None)
           (Examples.spawning 4242) ∅ procs' r).
  vm_compute. reflexivity.
Defined.

(** ** The two phases of the wait for boot *)

Section Polling.

Import EmulatorAdapter.

Variables (cfg : Config) (bridge : Bridge).
Variables (timeout startTime : Z).

Lemma spaced_nil d : spaced d [].
Proof. intros i c c' H. done. Qed.

Lemma spaced_cons d c cmds :
  Forall (fun c' => c.1 + d <= c'.1) cmds -> spaced d cmds -> spaced d (c :: cmds).
Proof.
  intros Hall Hsp [|i] c1 c2; simpl.
  - intros [= <-] Hc2. rewrite Forall_lookup in Hall. by apply (Hall 0%nat).
  - apply Hsp.
Qed.

Local Abbreviation polled := (polled bridge timeout startTime).

Lemma polled_again cmd d good now log r :
  0 <= d -> now - startTime < timeout ->
  polled cmd d good (settlesAt bridge cmd now + d) (log ++ [(now, cmd)]) r ->
  polled cmd d good now log r.
Proof.
  intros Hd Hlt (more & Hissued & Hall & Hsp & Hfin & Hbefore & Hok).
  pose proof (settlesAt_ge bridge cmd now) as Hs.
  exists ((now, cmd) :: more).
  split; [by rewrite Hissued, <-app_assoc|].
  split; [|split; [|split; [|split]]].
  - constructor; [simpl; split; [done|lia]|].
    eapply Forall_impl; [exact Hall|]. simpl. intros c [? ?]. split; [done|lia].
  - apply spaced_cons; [|done].
    eapply Forall_impl; [exact Hall|]. simpl. intros c [? ?]. lia.
  - lia.
  - constructor; [simpl; lia | done].
  - intros Hout. destruct (Hok Hout) as (t & out & Hlast & Hrest).
    exists t, out. split; [|done].
    destruct more as [|c more]; [done|]. by rewrite last_cons, Hlast.
Qed.

Lemma polled_once cmd d good now log out :
  now - startTime < timeout -> answer bridge cmd now = ExecOk out -> good out ->
  polled cmd d good now log
    {| outcome := Ok tt; finishedAt := settlesAt bridge cmd now;
       issued := log ++ [(now, cmd)] |}.
Proof.
  intros Hlt Hans Hgood. pose proof (settlesAt_ge bridge cmd now) as Hs.
  exists [(now, cmd)]. simpl.
  split; [done|]. split; [repeat constructor; simpl; lia|].
  split; [intros [|[|i]] c c'; done|]. split; [done|].
  split; [repeat constructor; simpl; lia|].
  intros _. by exists now, out.
Qed.

Lemma polled_failed cmd d good now now' log e :
  now - startTime < timeout -> now <= now' ->
  polled cmd d good now log
    {| outcome := Err e; finishedAt := now'; issued := log ++ [(now, cmd)] |}.
Proof.
  intros Hlt Hle. exists [(now, cmd)]. simpl.
  split; [done|]. split; [repeat constructor; simpl; lia|].
  split; [intros [|[|i]] c c'; done|]. split; [done|].
  split; [repeat constructor; simpl; lia|]. done.
Qed.

Lemma polled_none cmd d good now log e :
  polled cmd d good now log
    {| outcome := Err e; finishedAt := now; issued := log |}.
Proof.
  exists []. simpl. rewrite app_nil_r.
  split; [done|]. split; [constructor|]. split; [apply spaced_nil|].
  split; [lia|]. split; [constructor|]. done.
Qed.

Lemma waitForDevice_loop_polled deviceId fuel now log found :
  waitForDevice_loop cfg bridge deviceId timeout startTime fuel now log = Some found ->
  polled (devicesCommand cfg) 1000 (fun out => includes deviceId out = true)
    now log found.
Proof.
  revert now log found.
  induction fuel as [|fuel IH]; intros now log found; simpl; [done|].
  destruct (Z.ltb_spec (now - startTime) timeout) as [Hlt|Hge];
    [|intros [= <-]; apply polled_none].
  assert (forall r,
            waitForDevice_loop cfg bridge deviceId timeout startTime fuel
              (delay 1000 (settlesAt bridge (devicesCommand cfg) now))
              (log ++ [(now, devicesCommand cfg)]) = Some r ->
            polled (devicesCommand cfg) 1000
              (fun out => includes deviceId out = true) now log r) as Hagain.
  { intros r Hr. apply polled_again; [lia|done|]. apply IH in Hr.
    unfold delay in Hr. by replace (Z.max 1 1000) with 1000 in Hr by lia. }
  destruct (answer bridge _ now) as [out|code message] eqn:Hans.
  - destruct (includes deviceId out) eqn:Hin; [|apply Hagain].
    intros [= <-]. by apply (polled_once _ _ _ _ _ out).
  - destruct (isENOENT code message); [|apply Hagain].
    intros [= <-]. apply polled_failed; [done|]. apply settlesAt_ge.
Qed.

Lemma waitForBoot_loop_polled adbPort fuel now log finished :
  waitForBoot_loop cfg bridge adbPort timeout startTime fuel now log = Some finished ->
  polled (DeviceCommands.waitForBoot_getprop cfg adbPort)
    (Z.max 1 (bootPollInterval cfg)) (fun out => trim out = "1") now log finished.
Proof.
  revert now log finished.
  induction fuel as [|fuel IH]; intros now log finished; simpl; [done|].
  destruct (Z.ltb_spec (now - startTime) timeout) as [Hlt|Hge];
    [|intros [= <-]; apply polled_none].
  set (cmd := DeviceCommands.waitForBoot_getprop cfg adbPort).
  assert (forall r,
            waitForBoot_loop cfg bridge adbPort timeout startTime fuel
              (delay (bootPollInterval cfg) (settlesAt bridge cmd now))
              (log ++ [(now, cmd)]) = Some r ->
            polled cmd (Z.max 1 (bootPollInterval cfg))
              (fun out => trim out = "1") now log r) as Hagain.
  { intros r Hr. apply polled_again; [lia|done|]. by apply IH in Hr. }
  destruct (answer bridge cmd now) as [out|code message] eqn:Hans; [|apply Hagain].
  destruct (bool_decide (trim out = "1")) eqn:Hone; [|apply Hagain].
  intros [= <-]. apply bool_decide_eq_true in Hone.
  by apply (polled_once _ _ _ _ _ out).
Qed.

End Polling.
(** [waitForBoot] works in two phases inside one window: it first polls
    the list of devices, a second apart or more, then probes the boot
    property, a poll interval (and a millisecond at least) apart or more;
    every command is issued inside [T] milliseconds from the start of the
    call, whatever time the commands take; and no probe is issued before
    the last poll. *)
Theorem waitForBoot_polls_in_two_phases
    (cfg : Config) (bridge : EmulatorAdapter.Bridge) (adbPort T t0 : Z)
    (run : EmulatorAdapter.Run) :
  EmulatorAdapter.waitForBoot cfg bridge adbPort T t0 = Some run ->
  exists polls probes,
    EmulatorAdapter.issued run = polls ++ probes /\
    Forall (fun c => c.2 = EmulatorAdapter.devicesCommand cfg) polls /\
    Forall (fun c => c.2 = DeviceCommands.waitForBoot_getprop cfg adbPort) probes /\
    Forall (issuedWithin t0 T) (EmulatorAdapter.issued run) /\
    spaced 1000 polls /\
    spaced (Z.max 1 (bootPollInterval cfg)) probes /\
    (forall c c', c ∈ polls -> c' ∈ probes -> c.1 <= c'.1).
Proof.
  unfold EmulatorAdapter.waitForBoot, EmulatorAdapter.waitForDevice.
  destruct (EmulatorAdapter.waitForDevice_loop _ _ _ _ _ _ _ _) as [found|] eqn:Hfound;
    [|done].
  apply waitForDevice_loop_polled in Hfound
    as (polls & Hpolls & Hall & Hsp & Hfin & Hbefore & _).
  simpl in Hpolls.
  assert (Forall (issuedWithin t0 T) polls) as Hwin.
  { eapply Forall_impl; [exact Hall|]. by intros c [_ ?]. }
  assert (Forall (fun c => c.2 = EmulatorAdapter.devicesCommand cfg) polls) as Hcmd.
  { eapply Forall_impl; [exact Hall|]. by intros c [? _]. }
  destruct (EmulatorAdapter.outcome found).
  - intros Hloop. apply waitForBoot_loop_polled in Hloop
      as (probes & Hissued & Hall2 & Hsp2 & _).
    exists polls, probes. rewrite Hissued, Hpolls.
    split; [done|]. split; [done|].
    split; [eapply Forall_impl; [exact Hall2|]; by intros c [? _]|].
    split.
    { apply Forall_app. split; [done|].
      eapply Forall_impl; [exact Hall2|]. intros c [_ ?].
      unfold issuedWithin. lia. }
    split; [done|]. split; [done|].
    intros c c' Hc Hc'.
    rewrite Forall_forall in Hbefore. rewrite Forall_forall in Hall2.
    specialize (Hbefore c Hc). destruct (Hall2 c' Hc') as [_ ?]. simpl in *. lia.
  - intros [= <-]. exists polls, []. rewrite Hpolls, app_nil_r.
    split; [done|]. split; [done|]. split; [constructor|]. split; [done|].
    split; [done|]. split; [intros i c c' H; done|].
    intros c c' _ Hc'. by apply elem_of_nil in Hc'.
Qed.

Lemma waitForBoot_polls_in_two_phases_witness :
  let getprop := "adb -s emulator-5554 shell getprop sys.boot_completed" in
  let run :=
    {| EmulatorAdapter.outcome := Ok tt; EmulatorAdapter.finishedAt := 2180;
       EmulatorAdapter.issued :=
         [(0, "adb devices"); (30, getprop); (560, getprop); (1090, getprop);
          (1620, getprop); (2150, getprop)] |} in
  exists polls probes,
    EmulatorAdapter.issued run = polls ++ probes /\
    Forall (fun c => c.2 = EmulatorAdapter.devicesCommand Examples.cfg) polls /\
    Forall (fun c => c.2 = DeviceCommands.waitForBoot_getprop Examples.cfg 5555)
      probes /\
    Forall (issuedWithin 0 10000) (EmulatorAdapter.issued run) /\
    spaced 1000 polls /\
    spaced (Z.max 1 (bootPollInterval Examples.cfg)) probes /\
    (forall c c', c ∈ polls -> c' ∈ probes -> c.1 <= c'.1).
Proof.
  intros getprop run.
  apply (waitForBoot_polls_in_two_phases Examples.cfg
           Devices.bootsAfterTwoSeconds 5555 10000 0 run).
  vm_compute. reflexivity.
Defined.

(** [waitForBoot] resolves only after the device was listed and reported
    that it has booted: the last poll of the list of devices was answered
    with a list that names the device, the last probe of the boot property
    was answered with [1] (white space aside), inside the window, and the
    call resolves when that probe settles. *)
Theorem waitForBoot_resolves_after_boot_reported
    (cfg : Config) (bridge : EmulatorAdapter.Bridge) (adbPort T t0 : Z)
    (run : EmulatorAdapter.Run) :
  EmulatorAdapter.waitForBoot cfg bridge adbPort T t0 = Some run ->
  EmulatorAdapter.outcome run = Ok tt ->
  let devices := EmulatorAdapter.devicesCommand cfg in
  let getprop := DeviceCommands.waitForBoot_getprop cfg adbPort in
  exists t1 out1 t2 out2,
    (t1, devices) ∈ EmulatorAdapter.issued run /\
    EmulatorAdapter.answer bridge devices t1 = ExecOk out1 /\
    includes (deviceIdOf adbPort) out1 = true /\
    last (EmulatorAdapter.issued run) = Some (t2, getprop) /\
    EmulatorAdapter.answer bridge getprop t2 = ExecOk out2 /\
    trim out2 = "1" /\
    t0 <= t1 <= t2 /\ t2 < t0 + T /\
    EmulatorAdapter.finishedAt run = EmulatorAdapter.settlesAt bridge getprop t2.
Proof.
  unfold EmulatorAdapter.waitForBoot, EmulatorAdapter.waitForDevice.
  destruct (EmulatorAdapter.waitForDevice_loop _ _ _ _ _ _ _ _) as [found|] eqn:Hfound;
    [|done].
  apply waitForDevice_loop_polled in Hfound
    as (polls & Hpolls & Hall & _ & _ & Hbefore & Hok).
  simpl in Hpolls.
  destruct (EmulatorAdapter.outcome found) as [[]|e] eqn:Hout;
    [|intros [= <-] Hrun; congruence].
  destruct (Hok eq_refl) as (t1 & out1 & Hlast1 & Hans1 & Hgood1 & Hfin1).
  intros Hloop Hrun.
  apply waitForBoot_loop_polled in Hloop
    as (probes & Hissued & Hall2 & _ & _ & _ & Hok2).
  destruct (Hok2 Hrun) as (t2 & out2 & Hlast2 & Hans2 & Hgood2 & Hfin2).
  exists t1, out1, t2, out2.
  apply last_Some in Hlast1 as [polls' ->].
  apply last_Some in Hlast2 as [probes' ->].
  rewrite Hissued, Hpolls.
  apply Forall_app in Hall as [_ Hall]. apply Forall_app in Hall2 as [_ Hall2].
  apply Forall_app in Hbefore as [_ Hbefore].
  inversion Hall as [|? ? [_ H1] _]; subst.
  inversion Hall2 as [|? ? [_ H2] _]; subst.
  inversion Hbefore as [|? ? H3 _]; subst. simpl in *.
  split; [apply elem_of_app; left; apply elem_of_app; right;
          apply list_elem_of_here|].
  split; [done|]. split; [done|].
  split; [by rewrite app_assoc, last_snoc|].
  split; [done|]. split; [done|]. split; [lia|]. split; [lia|]. done.
Qed.

Lemma waitForBoot_resolves_after_boot_reported_witness :
  let devices := EmulatorAdapter.devicesCommand Examples.cfg in
  let getprop := DeviceCommands.waitForBoot_getprop Examples.cfg 5555 in
  let run :=
    {| EmulatorAdapter.outcome := Ok tt; EmulatorAdapter.finishedAt := 2180;
       EmulatorAdapter.issued :=
         [(0, "adb devices"); (30, getprop); (560, getprop); (1090, getprop);
          (1620, getprop); (2150, getprop)] |} in
  exists t1 out1 t2 out2,
    (t1, devices) ∈ EmulatorAdapter.issued run /\
    EmulatorAdapter.answer Devices.bootsAfterTwoSeconds devices t1 = ExecOk out1 /\
    includes (deviceIdOf 5555) out1 = true /\
    last (EmulatorAdapter.issued run) = Some (t2, getprop) /\
    EmulatorAdapter.answer Devices.bootsAfterTwoSeconds getprop t2 = ExecOk out2 /\
    trim out2 = "1" /\
    0 <= t1 <= t2 /\ t2 < 0 + 10000 /\
    EmulatorAdapter.finishedAt run =
      EmulatorAdapter.settlesAt Devices.bootsAfterTwoSeconds getprop t2.
Proof.
  intros devices getprop run.
  apply (waitForBoot_resolves_after_boot_reported Examples.cfg
           Devices.bootsAfterTwoSeconds 5555 10000 0 run).
  - vm_compute. reflexivity.
  - reflexivity.
Defined.
(** What [waitForBoot] issues is issued from the start of the call on, and
    it resolves on a probe answered with [1]. *)
Lemma waitForBoot_polls_then_probes cfg bridge adbPort T t0 run :
  EmulatorAdapter.waitForBoot cfg bridge adbPort T t0 = Some run ->
  Forall (fun c => t0 <= c.1) (EmulatorAdapter.issued run) /\
  (EmulatorAdapter.outcome run = Ok tt ->
   exists t out,
     last (EmulatorAdapter.issued run) =
       Some (t, DeviceCommands.waitForBoot_getprop cfg adbPort) /\
     EmulatorAdapter.answer bridge (DeviceCommands.waitForBoot_getprop cfg adbPort) t =
       ExecOk out /\
     trim out = "1").
Proof.
  unfold EmulatorAdapter.waitForBoot, EmulatorAdapter.waitForDevice.
  destruct (EmulatorAdapter.waitForDevice_loop _ _ _ _ _ _ _ _) as [found|] eqn:Hfound;
    [|done].
  apply waitForDevice_loop_polled in Hfound
    as (polls & Hpolls & Hall & _ & Hfin & _ & _).
  simpl in Hpolls.
  assert (Forall (fun c => t0 <= c.1) polls) as Hfrom.
  { eapply Forall_impl; [exact Hall|]. intros c [_ ?]. lia. }
  destruct (EmulatorAdapter.outcome found) as [[]|e] eqn:Hout.
  - intros Hloop. apply waitForBoot_loop_polled in Hloop
      as (probes & Hissued & Hall2 & _ & _ & _ & Hok2).
    rewrite Hissued, Hpolls. split.
    + apply Forall_app. split; [done|].
      eapply Forall_impl; [exact Hall2|]. intros c [_ ?]. lia.
    + intros Hrun. destruct (Hok2 Hrun) as (t2 & out2 & Hlast2 & Hans2 & Hgood2 & _).
      exists t2, out2. split; [|done].
      apply last_Some in Hlast2 as [probes' ->].
      by rewrite app_assoc, last_snoc.
  - intros [= <-]. rewrite Hpolls, Hout. done.
Qed.
(** ** Rebooting *)

(** [reboot] always settles, and whatever goes wrong is reported as
    INTERNAL_ERROR: a device that does not boot in time is not reported as
    a boot timeout, a missing bridge tool not as such.  The reboot command
    is issued first; when it fails nothing else is issued; otherwise the
    wait for boot begins five seconds or more after the command has
    settled; and the call resolves only on a probe of the boot property
    that was answered with [1]. *)
Theorem reboot_wraps_every_failure
    (cfg : Config) (bridge : EmulatorAdapter.Bridge) (adbPort T t0 : Z) :
  let cmd := DeviceCommands.reboot cfg adbPort in
  let getprop := DeviceCommands.waitForBoot_getprop cfg adbPort in
  exists run rest,
    DeviceControl.reboot cfg bridge adbPort T t0 = Some run /\
    (EmulatorAdapter.outcome run = Ok tt \/
     exists message,
       EmulatorAdapter.outcome run = Err (Sniaff INTERNAL_ERROR message)) /\
    EmulatorAdapter.issued run = (t0, cmd) :: rest /\
    Forall (fun c => EmulatorAdapter.settlesAt bridge cmd t0 + 5000 <= c.1) rest /\
    (forall code message,
       EmulatorAdapter.answer bridge cmd t0 = ExecFail code message -> rest = []) /\
    (EmulatorAdapter.outcome run = Ok tt ->
     exists t out,
       last rest = Some (t, getprop) /\
       EmulatorAdapter.answer bridge getprop t = ExecOk out /\ trim out = "1").
Proof.
  intros cmd getprop. unfold DeviceControl.reboot. fold cmd.
  destruct (EmulatorAdapter.answer bridge cmd t0) as [out|code message] eqn:Hans.
  - set (t := EmulatorAdapter.delay 5000 (EmulatorAdapter.settlesAt bridge cmd t0)).
    destruct (waitForBoot_total cfg bridge adbPort T t) as [booted Hbooted].
    rewrite Hbooted. eexists _, (EmulatorAdapter.issued booted). simpl.
    split; [done|].
    split; [destruct (EmulatorAdapter.outcome booted) as [[]|e]; eauto|].
    split; [done|].
    destruct (waitForBoot_polls_then_probes cfg bridge adbPort T t booted Hbooted)
      as (Hfrom & Hok).
    split.
    { eapply Forall_impl; [exact Hfrom|]. intros c. unfold t, EmulatorAdapter.delay.
      lia. }
    split; [done|].
    intros Hout. apply Hok. by destruct (EmulatorAdapter.outcome booted) as [[]|e].
  - eexists _, []. simpl. split; [done|]. split; [eauto|].
    split; [done|]. split; [constructor|]. split; [done|]. done.
Qed.

(** ** The proxy *)

(** [clearProxy] issues the command [setProxy] issues for an empty host
    and the port 0, and nothing else; but where [setProxy] rejects with
    PROXY_CONFIG_FAILED when the command fails, [clearProxy] resolves
    whatever the command does. *)
Theorem clearProxy_is_setProxy_without_failure
    (cfg : Config) (exec : string -> ExecOutcome) (adbPort : Z) :
  (DeviceControl.clearProxy cfg exec adbPort).1 =
    (DeviceControl.setProxy cfg exec adbPort EmptyString 0).1 /\
  (DeviceControl.clearProxy cfg exec adbPort).2 = Ok tt /\
  (forall host port,
     match exec (DeviceCommands.setProxy cfg adbPort host port) with
     | ExecOk _ => (DeviceControl.setProxy cfg exec adbPort host port).2 = Ok tt
     | ExecFail _ message =>
         (DeviceControl.setProxy cfg exec adbPort host port).2 =
           Err (Sniaff PROXY_CONFIG_FAILED
                  ("Failed to configure proxy: " +:+ message))
     end).
Proof.
  unfold DeviceControl.clearProxy, DeviceControl.setProxy.
  assert (DeviceCommands.setProxy cfg adbPort EmptyString 0 =
          DeviceCommands.clearProxy cfg adbPort) as -> by done.
  split; [by destruct (exec _)|]. split; [by destruct (exec _)|].
  intros host port. by destruct (exec _).
Qed.
(** ** Installing a module *)

Section FileNames.

Lemma split_nonempty c s : split c s <> [].
Proof.
  destruct s as [|a s]; simpl; [done|].
  destruct (Ascii.eqb a c); [done|]. by destruct (split c s).
Qed.

Lemma split_app c s t :
  split c (s +:+ String c t) = split c s ++ split c t.
Proof.
  induction s as [|a s IH].
  - change (split c (String c t) = EmptyString :: split c t).
    simpl. by rewrite Ascii.eqb_refl.
  - change (String a s +:+ String c t) with (String a (s +:+ String c t)).
    simpl. rewrite IH. destruct (Ascii.eqb a c); [done|].
    pose proof (split_nonempty c s). by destruct (split c s).
Qed.

Lemma last_app_nonempty {A} (l1 l2 : list A) d :
  l2 <> [] -> List.last (l1 ++ l2) d = List.last l2 d.
Proof.
  intros Hne. induction l1 as [|x l1 IH]; [done|].
  simpl. rewrite IH. destruct (l1 ++ l2) eqn:Happ; [|done].
  by apply app_eq_nil in Happ as [_ ?].
Qed.

(** The last piece of a path: it has no slash in it. *)
Lemma last_split_free c s : occurs c (List.last (split c s) EmptyString) = false.
Proof.
  apply (split_pieces c s).
  pose proof (split_nonempty c s) as Hne.
  destruct (split c s) as [|p ps]; [done|]. clear Hne.
  revert p. induction ps as [|q ps IH]; intros p.
  - apply list_elem_of_here.
  - apply list_elem_of_further. apply IH.
Qed.

End FileNames.

(** The file name under which [installMagiskModule] stores a module on the
    device is the base name of the path it is given: what follows the last
    slash, and the whole path when there is no slash.  It is never empty
    and never contains a slash: a path that ends in a slash gives
    [module.zip]. *)
Theorem moduleFileName_is_base_name (directory name : string) :
  name <> EmptyString -> occurs "/" name = false ->
  DeviceControl.moduleFileName (directory +:+ "/" +:+ name) = name /\
  DeviceControl.moduleFileName name = name /\
  DeviceControl.moduleFileName (directory +:+ "/") = "module.zip" /\
  forall modulePath,
    DeviceControl.moduleFileName modulePath <> EmptyString /\
    occurs "/" (DeviceControl.moduleFileName modulePath) = false.
Proof.
  intros Hne Hfree. unfold DeviceControl.moduleFileName.
  split; [|split; [|split]].
  - change (directory +:+ "/" +:+ name) with (directory +:+ String "/" name).
    rewrite split_app, last_app_nonempty by apply split_nonempty.
    rewrite split_no_sep by done. simpl. by rewrite bool_decide_eq_false_2.
  - rewrite split_no_sep by done. simpl. by rewrite bool_decide_eq_false_2.
  - change (directory +:+ "/") with (directory +:+ String "/" EmptyString).
    by rewrite split_app, last_app_nonempty.
  - intros modulePath. case_bool_decide as Hlast; [done|].
    split; [done | apply last_split_free].
Qed.

Lemma moduleFileName_is_base_name_witness :
  DeviceControl.moduleFileName
    ("/opt/modules" +:+ "/" +:+ "AlwaysTrustUserCerts.zip") =
    "AlwaysTrustUserCerts.zip" /\
  DeviceControl.moduleFileName "AlwaysTrustUserCerts.zip" =
    "AlwaysTrustUserCerts.zip" /\
  DeviceControl.moduleFileName ("/opt/modules" +:+ "/") = "module.zip" /\
  forall modulePath,
    DeviceControl.moduleFileName modulePath <> EmptyString /\
    occurs "/" (DeviceControl.moduleFileName modulePath) = false.
Proof.
  apply (moduleFileName_is_base_name "/opt/modules" "AlwaysTrustUserCerts.zip").
  - done.
  - vm_compute. reflexivity.
Defined.

(** A module file [<directory>/<name>] is pushed to
    [/sdcard/Download/<name>] on the device of the port and installed from
    there: when both commands succeed, these two are the commands issued,
    in this order, and the call resolves; when the push fails, nothing is
    asked of Magisk and the call rejects with INTERNAL_ERROR. *)
Theorem installMagiskModule_installs_from_download_dir
    (cfg : Config) (exec : string -> ExecOutcome) (adbPort : Z)
    (directory name : string) :
  name <> EmptyString -> occurs "/" name = false ->
  let modulePath := directory +:+ "/" +:+ name in
  let push :=
    adbPath cfg +:+ " -s " +:+ deviceIdOf adbPort +:+ " push " +:+
    dq +:+ modulePath +:+ dq +:+ " " +:+ dq +:+ "/sdcard/Download/" +:+ name +:+ dq in
  let install :=
    adbPath cfg +:+ " -s " +:+ deviceIdOf adbPort +:+ " shell " +:+ dq +:+
    "su -c 'magisk --install-module /sdcard/Download/" +:+ name +:+ "'" +:+ dq in
  ((exists out out', exec push = ExecOk out /\ exec install = ExecOk out') ->
   DeviceControl.installMagiskModule cfg exec adbPort modulePath =
     ([push; install], Ok tt)) /\
  (forall code message,
     exec push = ExecFail code message ->
     DeviceControl.installMagiskModule cfg exec adbPort modulePath =
       ([push], Err (Sniaff INTERNAL_ERROR
                       ("Failed to install Magisk module: " +:+ message)))).
Proof.
  intros Hne Hfree modulePath push install.
  assert (DeviceCommands.installMagiskModule cfg adbPort modulePath
            (DeviceControl.moduleFileName modulePath) = [push; install]) as Hcmds.
  { unfold DeviceCommands.installMagiskModule, DeviceControl.moduleFileName, modulePath.
    change (directory +:+ "/" +:+ name) with (directory +:+ String "/" name).
    rewrite split_app, last_app_nonempty by apply split_nonempty.
    rewrite split_no_sep by done. simpl. rewrite bool_decide_eq_false_2 by done.
    unfold push, install, deviceIdOf, modulePath.
    change (directory +:+ "/" +:+ name) with (directory +:+ String "/" name).
    by rewrite !string_app_assoc. }
  unfold DeviceControl.installMagiskModule. rewrite Hcmds. simpl.
  split.
  - intros (out & out' & -> & ->). done.
  - intros code message ->. done.
Qed.

Lemma installMagiskModule_installs_from_download_dir_witness :
  let exec := fun _ : string => ExecOk EmptyString in
  let modulePath := "/opt/modules" +:+ "/" +:+ "certs.zip" in
  let push :=
    adbPath Examples.cfg +:+ " -s " +:+ deviceIdOf 5555 +:+ " push " +:+
    dq +:+ modulePath +:+ dq +:+ " " +:+ dq +:+ "/sdcard/Download/" +:+
    "certs.zip" +:+ dq in
  let install :=
    adbPath Examples.cfg +:+ " -s " +:+ deviceIdOf 5555 +:+ " shell " +:+ dq +:+
    "su -c 'magisk --install-module /sdcard/Download/" +:+ "certs.zip" +:+ "'" +:+
    dq in
  ((exists out out', exec push = ExecOk out /\ exec install = ExecOk out') ->
   DeviceControl.installMagiskModule Examples.cfg exec 5555 modulePath =
     ([push; install], Ok tt)) /\
  (forall code message,
     exec push = ExecFail code message ->
     DeviceControl.installMagiskModule Examples.cfg exec 5555 modulePath =
       ([push], Err (Sniaff INTERNAL_ERROR
                       ("Failed to install Magisk module: " +:+ message)))).
Proof.
  intros exec.
  apply (installMagiskModule_installs_from_download_dir Examples.cfg exec 5555
           "/opt/modules" "certs.zip").
  - done.
  - vm_compute. reflexivity.
Defined.

(** ** The emulator start in its parts *)

Section WindowedSteps.

Import ProcessSupervisor WorkspaceManager SessionManager Interleaved.

(** The process table [procs'] comes from [procs] by exits: the same
    processes on the same ports, none running that was not. *)
Local Abbreviation shrinks procs procs' :=
  (forall pid : Z,
     match procs' !! pid, procs !! pid with
     | Some pr', Some pr =>
         procPort pr' = procPort pr /\ (procAlive pr' = true -> procAlive pr = true)
     | None, None => True
     | _, _ => False
     end).

Lemma shrinks_refl (procs : gmap Z Proc) : shrinks procs procs.
Proof. intros pid. by destruct (procs !! pid). Qed.

Lemma shrinks_exited pid0 (procs : gmap Z Proc) : shrinks procs (exited pid0 procs).
Proof.
  intros pid. unfold exited. destruct (decide (pid = pid0)) as [->|Hne].
  - rewrite lookup_alter_eq. by destruct (procs !! pid0).
  - rewrite lookup_alter_ne by done. by destruct (procs !! pid).
Qed.

Lemma portFree_shrinks (procs procs' : gmap Z Proc) c :
  shrinks procs procs' -> portFree procs c = true -> portFree procs' c = true.
Proof.
  rewrite !portFree_spec. intros Hsh Hfree pid pr' Hpr' Halive.
  specialize (Hsh pid). rewrite Hpr' in Hsh.
  destruct (procs !! pid) as [pr|] eqn:Hpr; [|done].
  destruct Hsh as [-> Hal]. by apply (Hfree pid pr), Hal.
Qed.

(** The call is inside the part of [start] that the process table bears
    on. *)
Local Abbreviation inWindow call :=
  (match call.2 with
   | AtSpawn _ _ _ | AtSettleDelay _ _ _ _ => True
   | _ => False
   end).

(** A transition that spawns nothing, gives no session a pid and moves no
    call into the window keeps the state windowed. *)
Lemma Windowed_quiet w m' starts' stops' :
  Windowed w -> Consistent m' ->
  shrinks (procs (manager w)) (procs m') ->
  (forall i s', heap m' !! i = Some s' ->
     emulatorPid s' = None \/
     exists s, heap (manager w) !! i = Some s /\ emulatorPid s = emulatorPid s') ->
  (forall id call, starts' !! id = Some call -> inWindow call ->
                   starts w !! id = Some call) ->
  Windowed {| manager := m'; starts := starts'; stops := stops' |}.
Proof.
  intros [Hco Hpr Hal Hse Hap] Hco' Hsh Hheap Hstarts. split; simpl.
  - done.
  - intros id input avd ws c Hid.
    apply (portFree_shrinks _ _ _ Hsh), (Hpr id input avd ws).
    by apply Hstarts.
  - intros id1 id2 [i1 pc1] [i2 pc2] H1 H2 Hh1 Hh2.
    apply (Hal id1 id2 (i1, pc1) (i2, pc2)); try done.
    + apply Hstarts; [done|]. simpl in *. by destruct pc1.
    + apply Hstarts; [done|]. simpl in *. by destruct pc2.
  - intros id input avd ws c pid Hid.
    destruct (Hse id input avd ws c pid) as (Hpos & (pr & Hpid & Hport) & Hun);
      [by apply Hstarts|].
    split; [done|]. split.
    + specialize (Hsh pid). rewrite Hpid in Hsh.
      destruct (procs m' !! pid) as [pr'|]; [|done].
      exists pr'. split; [done|]. destruct Hsh as [-> _]. done.
    + intros i s' Hs' Hown. destruct (Hheap i s' Hs') as [Hnone|(s & Hs & Heq)].
      * congruence.
      * apply (Hun i s Hs). congruence.
  - intros id1 id2 input1 input2 avd1 avd2 ws1 ws2 c1 c2 pid H1 H2.
    eapply Hap; by apply Hstarts.
Qed.

(** The pids of the session objects of [h'] are pids of [h]. *)
Local Abbreviation samePids h h' :=
  (forall (i : string) (s' : Session), h' !! i = Some s' ->
     emulatorPid s' = None \/
     exists s : Session, h !! i = Some s /\ emulatorPid s = emulatorPid s').

Lemma samePids_refl (h : gmap string Session) : samePids h h.
Proof. intros i s' Hs'. right. by exists s'. Qed.

Lemma samePids_withState (h h' : gmap string Session) st id :
  samePids h h' -> samePids h (alter (withState st) id h').
Proof.
  intros Hh i s'. destruct (decide (i = id)) as [->|Hne].
  - rewrite lookup_alter_eq. destruct (h' !! id) as [s|] eqn:Hs; [|done].
    intros [= <-]. simpl. by apply Hh.
  - rewrite lookup_alter_ne by done. apply Hh.
Qed.

Lemma samePids_insert (h h' : gmap string Session) id s :
  emulatorPid s = None -> samePids h h' -> samePids h (<[id := s]> h').
Proof.
  intros Hnone Hh i s'. destruct (decide (i = id)) as [->|Hne].
  - rewrite lookup_insert_eq. intros [= <-]. by left.
  - rewrite lookup_insert_ne by done. apply Hh.
Qed.

Lemma thrown_spec id e m m' pc' :
  thrown id e m = (m', pc') ->
  m' = assign id (withState ERROR) m /\
  exists pc0, pc' = Outside pc0 /\
              (pc0 = AtRollbackMeta e \/ exists pid, pc0 = AtRollbackStop e pid).
Proof.
  unfold thrown. destruct (caught (Some id) e m) as [m0 pc0] eqn:Hc.
  apply caught_Some in Hc as [-> Hpc]. simpl. intros [= <- <-]. eauto.
Qed.

(** What resuming a call outside of [start] does to the process table
    and to the pids of the sessions: nothing but an exit. *)
Lemma startSession_resume_quiet cfg id input pc reply m m' pc' :
  (forall avd ws, pc <> AtEmulatorStart avd ws) ->
  startSession_resume cfg id input pc reply m = Some (m', pc') ->
  shrinks (procs m) (procs m') /\ samePids (heap m) (heap m') /\
  SessionManager.freshPid reply (procs m) = true.
Proof.
  intros Hpc Hstep.
  destruct pc, reply; simpl in Hstep; try done;
    try (by destruct (Hpc _ _ eq_refl));
    repeat (first [progress simplify_eq | case_match]; try done);
    repeat match goal with
    | H : caught None _ _ = _ |- _ => rewrite caught_None in H; simplify_eq
    | H : caught (Some _) _ _ = _ |- _ => apply caught_Some in H as [-> ?]
    | H : ?x ≫= _ = Some _ |- _ => destruct x eqn:?; simpl in H; simplify_eq
    end; simpl;
    (split; [first [apply shrinks_refl | apply shrinks_exited]|]);
    (split; [|done]);
    repeat first [ apply samePids_refl
                 | apply samePids_withState
                 | apply samePids_insert; [done|] ].
Qed.

Lemma stopSession_resume_quiet id pc reply m m' pc' :
  stopSession_resume id pc reply m = Some (m', pc') ->
  shrinks (procs m) (procs m').
Proof.
  intros Hstep. destruct pc, reply; simpl in Hstep; simplify_eq; simpl;
    first [apply shrinks_refl | apply shrinks_exited].
Qed.


Lemma interleaved_step_cases cfg l w w' :
  step cfg l w = Some w' ->
  (exists id input,
     l = CallStartSession id input /\ starts w !! id = None /\
     w' = {| manager := updateState id SETUP_AVD (manager w);
             starts := <[id := (input, Outside AtEnsureAvd)]> (starts w);
             stops := stops w |}) \/
  (exists id answer input pc m' pc',
     l = ResumeStartSession id answer /\ starts w !! id = Some (input, pc) /\
     freshPid answer (procs (manager w)) = true /\
     resume cfg id input pc answer (manager w) = Some (m', pc') /\
     w' = {| manager := m'; starts := <[id := (input, pc')]> (starts w);
             stops := stops w |}) \/
  (exists id m' pc,
     l = CallStopSession id /\ stopSession_call id (manager w) = (m', pc) /\
     w' = {| manager := m'; starts := starts w;
             stops := stops w ++ [(id, pc)] |}) \/
  (exists k reply id pc m' pc',
     l = ResumeStopSession k reply /\ stops w !! k = Some (id, pc) /\
     stopSession_resume id pc reply (manager w) = Some (m', pc') /\
     w' = {| manager := m'; starts := starts w;
             stops := <[k := (id, pc')]> (stops w) |}) \/
  (exists pid,
     l = EmulatorExits pid /\
     w' = {| manager := setProcs (exited pid (procs (manager w))) (manager w);
             starts := starts w; stops := stops w |}).
Proof.
  intros Hstep. destruct l as [id input|id answer|id|k reply|pid]; simpl in Hstep.
  - left. destruct (starts w !! id) eqn:Hid; simplify_eq. by exists id, input.
  - right; left. destruct (starts w !! id) as [[input pc]|] eqn:Hid;
      simpl in Hstep; [|done].
    destruct (freshPid answer (procs (manager w))) eqn:Hfresh; [|done].
    destruct (resume cfg id input pc answer (manager w)) as [[m' pc']|] eqn:Hres;
      simpl in Hstep; simplify_eq.
    by exists id, answer, input, pc, m', pc'.
  - right; right; left.
    destruct (stopSession_call id (manager w)) as [m' pc] eqn:Hcall.
    simplify_eq. by exists id, m', pc.
  - do 3 right; left. destruct (stops w !! k) as [[id pc]|] eqn:Hk;
      simpl in Hstep; [|done].
    destruct (stopSession_resume id pc reply (manager w)) as [[m' pc']|] eqn:Hres;
      simpl in Hstep; simplify_eq.
    by exists k, reply, id, pc, m', pc'.
  - do 4 right. simplify_eq. by exists pid.
Qed.

(** A call moves to a place outside of the window: the state stays
    windowed when the transition is quiet. *)
Lemma Windowed_moved_out w id input pc' m' :
  Windowed w -> Consistent m' ->
  shrinks (procs (manager w)) (procs m') ->
  samePids (heap (manager w)) (heap m') ->
  ~ inWindow (input, pc') ->
  Windowed {| manager := m'; starts := <[id := (input, pc')]> (starts w);
              stops := stops w |}.
Proof.
  intros Hw Hco Hsh Hpids Hout. apply (Windowed_quiet w); try done.
  intros id' call. rewrite lookup_insert. case_decide as Hid; [|done].
  intros [= <-] Hin. done.
Qed.

Lemma Windowed_thrown w id input e m' pc' :
  Windowed w -> thrown id e (manager w) = (m', pc') ->
  Windowed {| manager := m'; starts := <[id := (input, pc')]> (starts w);
              stops := stops w |}.
Proof.
  intros Hw (-> & pc0 & -> & _)%thrown_spec.
  apply Windowed_moved_out; try done.
  - apply Consistent_withState, Hw.
  - apply shrinks_refl.
  - apply samePids_withState, samePids_refl.
  - simpl. tauto.
Qed.

Lemma Windowed_initial d : Windowed (initialSystem d).
Proof.
  split; simpl; try (intros *; by rewrite lookup_empty).
  apply Consistent_initial.
Qed.


Lemma honest_portFree available (procs : gmap Z Proc) c :
  honest available procs = true -> available c = true -> portFree procs c = true.
Proof.
  unfold honest. rewrite bool_decide_eq_true, map_Forall_lookup, portFree_spec.
  intros Hh Hc pid pr Hpr Halive Hport. specialize (Hh pid pr Hpr Halive).
  congruence.
Qed.

(** The port finder answers, and the call holds a port. *)
Lemma Windowed_handed w id input avd ws c :
  Windowed w ->
  portFree (procs (manager w)) c = true ->
  map_Forall (fun _ call => holdsPort call = false) (starts w) ->
  Windowed {| manager := manager w;
              starts := <[id := (input, AtSpawn avd ws c)]> (starts w);
              stops := stops w |}.
Proof.
  intros [Hco Hpr Hal Hse Hap] Hfree Hnone. rewrite map_Forall_lookup in Hnone.
  split; simpl.
  - done.
  - intros id' input' avd' ws' c'. rewrite lookup_insert. case_decide as Hid.
    + by intros [= <- <- <- <-].
    + apply Hpr.
  - intros id1 id2 call1 call2. rewrite !lookup_insert.
    case_decide as H1; case_decide as H2; try congruence.
    + intros _ H2' _ Hh2. specialize (Hnone id2 call2 H2'). congruence.
    + intros H1' _ Hh1. specialize (Hnone id1 call1 H1'). congruence.
    + intros H1' _ Hh1. specialize (Hnone id1 call1 H1'). congruence.
  - intros id' input' avd' ws' c' pid. rewrite lookup_insert.
    case_decide as Hid; [done | apply Hse].
  - intros id1 id2 input1 input2 avd1 avd2 ws1 ws2 c1 c2 pid.
    rewrite !lookup_insert. case_decide; [done|]. case_decide; [done|]. apply Hap.
Qed.

(** The emulator is spawned on the port the call holds. *)
Lemma Windowed_spawned w id input avd ws c p :
  Windowed w ->
  starts w !! id = Some (input, AtSpawn avd ws c) ->
  procs (manager w) !! Z.pos p = None ->
  Windowed {| manager := setProcs (spawn (Z.pos p) c (procs (manager w))) (manager w);
              starts := <[id := (input, AtSettleDelay avd ws c (Z.pos p))]> (starts w);
              stops := stops w |}.
Proof.
  intros [Hco Hpr Hal Hse Hap] Hid Hfresh. split; simpl.
  - apply Consistent_spawn; [done | by eapply Hpr | done].
  - intros id' input' avd' ws' c'. rewrite lookup_insert. case_decide as Hne; [done|].
    intros Hid'. destruct Hne.
    by apply (Hal id id' (input, AtSpawn avd ws c) (input', AtSpawn avd' ws' c')).
  - intros id1 id2 call1 call2. rewrite !lookup_insert.
    case_decide; [by intros [= <-]|]. case_decide; [by intros _ [= <-]|].
    apply Hal.
  - intros id' input' avd' ws' c' pid. rewrite lookup_insert. case_decide as Hne.
    + intros [= <- <- <- <- <-]. split; [lia|]. split.
      * unfold spawn. rewrite lookup_insert_eq. by eexists.
      * intros i s Hs Hown.
        destruct (pid_tracked _ Hco i s _ Hs Hown) as (_ & pr & Hpr' & _).
        congruence.
    + intros Hid'. destruct (Hse _ _ _ _ _ _ Hid') as (Hpos & (pr & Hpr' & Hport) & Hun).
      split; [done|]. split; [|done].
      exists pr. split; [|done]. unfold spawn. rewrite lookup_insert_ne; [done|].
      congruence.
  - intros id1 id2 input1 input2 avd1 avd2 ws1 ws2 c1 c2 pid.
    rewrite !lookup_insert. case_decide as H1; case_decide as H2; try congruence.
    + intros [= <- <- <- <- <-] H2'.
      destruct (Hse _ _ _ _ _ _ H2') as (_ & (pr & Hpr' & _) & _). congruence.
    + intros H1' [= <- <- <- <- <-].
      destruct (Hse _ _ _ _ _ _ H1') as (_ & (pr & Hpr' & _) & _). congruence.
    + apply Hap.
Qed.

(** The emulator has outlived the settle delay: [start] returns, and the
    session is given its ports and its pid. *)
Lemma Windowed_started w id input avd ws c pid :
  Windowed w ->
  starts w !! id = Some (input, AtSettleDelay avd ws c pid) ->
  let r := {| EmulatorAdapter.pid := pid; EmulatorAdapter.consolePort := c;
              EmulatorAdapter.adbPort := c + 1 |} in
  Windowed {| manager :=
                assign id (withState WAIT_BOOT)
                  (updateState id WAIT_BOOT (assign id (withEmulator r) (manager w)));
              starts := <[id := (input, Outside (AtWaitForBoot avd))]> (starts w);
              stops := stops w |}.
Proof.
  intros [Hco Hpr Hal Hse Hap] Hid r.
  destruct (Hse _ _ _ _ _ _ Hid) as (Hpos & (pr & Hpr' & Hport) & Hun).
  split; simpl.
  - apply Consistent_withState, Consistent_updateState.
    by apply (Consistent_withEmulator id r pr).
  - intros id' input' avd' ws' c'. rewrite lookup_insert. case_decide; [done|].
    apply Hpr.
  - intros id1 id2 call1 call2. rewrite !lookup_insert.
    case_decide; [by intros [= <-]|]. case_decide; [by intros _ [= <-]|].
    apply Hal.
  - intros id' input' avd' ws' c' pid'. rewrite lookup_insert.
    case_decide as Hne; [done|]. intros Hid'.
    destruct (Hse _ _ _ _ _ _ Hid') as (Hpos' & Htr' & Hun').
    split; [done|]. split; [done|].
    intros i s'. destruct (decide (i = id)) as [->|Hi].
    + rewrite !lookup_alter_eq. destruct (heap (manager w) !! id) as [s|]; [|done].
      intros [= <-]. simpl. intros [= ->]. apply Hne.
      by apply (Hap id id' input input' avd avd' ws ws' c c' pid').
    + rewrite !lookup_alter_ne by done. apply Hun'.
  - intros id1 id2 input1 input2 avd1 avd2 ws1 ws2 c1 c2 pid'.
    rewrite !lookup_insert. case_decide; [done|]. case_decide; [done|]. apply Hap.
Qed.


Lemma resume_outside cfg id input pc reply m m' pc' :
  resume cfg id input (Outside pc) (Settled reply) m = Some (m', pc') ->
  (forall avd ws, pc <> AtEmulatorStart avd ws) /\
  exists pc0, pc' = Outside pc0 /\
              startSession_resume cfg id input pc reply m = Some (m', pc0).
Proof.
  intros Hres. split; [intros avd ws ->; done|].
  destruct pc; cbv beta iota delta [resume] in Hres; try done;
    destruct (startSession_resume _ _ _ _ _ _) as [[m0 pc0]|];
    simpl in Hres; simplify_eq; by exists pc0.
Qed.

Lemma Windowed_step cfg l w w' :
  Windowed w -> orderly l w = true -> step cfg l w = Some w' -> Windowed w'.
Proof.
  intros Hw Hord Hstep.
  apply interleaved_step_cases in Hstep
    as [(id & input & -> & Hnew & ->)
       |[(id & answer & input & pc & m' & pc' & -> & Hid & Hfresh & Hres & ->)
       |[(id & m' & pc & -> & Hcall & ->)
       |[(k & reply & id & pc & m' & pc' & -> & Hk & Hres & ->)
       |(pid & -> & ->)]]]].
  - (* startSession is called *)
    apply Windowed_moved_out; try done.
    + apply Consistent_updateState, Hw.
    + apply shrinks_refl.
    + apply samePids_refl.
    + simpl. tauto.
  - (* a startSession call is resumed *)
    destruct pc as [pc|avd ws|avd ws c|avd ws c pid].
    + (* outside of start, or at listAvds *)
      destruct answer as [reply|out| | |];
        try (by destruct pc; simpl in Hres).
      * apply resume_outside in Hres as (Hpc & pc0 & -> & Hres).
        destruct (startSession_resume_quiet _ _ _ _ _ _ _ _ Hpc Hres)
          as (Hsh & Hpids & Hfresh').
        apply Windowed_moved_out; try done; [|simpl; tauto].
        eapply Consistent_startSession_resume; [exact Hfresh'|exact Hres|apply Hw].
      * destruct pc; simpl in Hres; try done.
        destruct (EmulatorAdapter.listAvds cfg out) as [avds|e];
          [|simplify_eq; by eapply Windowed_thrown].
        destruct (negb _); simplify_eq; [by eapply Windowed_thrown|].
        apply Windowed_moved_out; try done; try apply Hw.
        -- apply shrinks_refl.
        -- apply samePids_refl.
        -- simpl. tauto.
    + (* at the port finder *)
      destruct answer as [|?|available logStreamError| |]; simpl in Hres; try done.
      simpl in Hord. apply andb_true_iff in Hord as [Hhonest Hnone].
      apply bool_decide_eq_true in Hnone.
      destruct (PortFinder.findAvailableEven _ _ _) as [c|] eqn:Hfind;
        [|simplify_eq; by eapply Windowed_thrown].
      destruct logStreamError; simplify_eq; [by eapply Windowed_thrown|].
      apply Windowed_handed; [done| |done].
      apply findAvailableEven_Ok in Hfind as (_ & _ & Hc & _).
      by apply (honest_portFree available).
    + (* at the spawn *)
      destruct answer as [|?| |r|]; simpl in Hres; try done.
      destruct r as [p|[code message|code message]].
      * simplify_eq. simpl in Hfresh. apply bool_decide_eq_true in Hfresh.
        by apply Windowed_spawned.
      * simplify_eq. by eapply Windowed_thrown.
      * destruct (bool_decide _); simplify_eq; by eapply Windowed_thrown.
    + (* at the settle delay *)
      destruct answer; simpl in Hres; try done.
      destruct (negb _); simplify_eq; [by eapply Windowed_thrown|].
      by apply (Windowed_started w id input avd ws c pid).
  - (* stopSession is called *)
    apply stopSession_call_same in Hcall as ->.
    apply (Windowed_quiet w); try done; try apply Hw.
    + apply shrinks_refl.
    + apply samePids_refl.
  - (* a stopSession call is resumed *)
    pose proof (stopSession_resume_quiet _ _ _ _ _ _ Hres) as Hsh.
    pose proof (stopSession_resume_frame _ _ _ _ _ _ Hres) as (Hheap & _).
    apply (Windowed_quiet w); try done.
    + eapply Consistent_stopSession_resume; [exact Hres|apply Hw].
    + rewrite Hheap. apply samePids_refl.
  - (* an emulator exits *)
    apply (Windowed_quiet w); try done.
    + apply Consistent_exited, Hw.
    + apply shrinks_exited.
    + apply samePids_refl.
Qed.

(** Every state that orderly transitions lead to is windowed. *)
Lemma Windowed_serialized cfg w : serialized cfg w -> Windowed w.
Proof.
  induction 1 as [d|w l w' _ IH Hord Hstep]; [apply Windowed_initial|].
  by eapply Windowed_step.
Qed.

Lemma runOrderly_serialized cfg ls w w' :
  serialized cfg w -> runOrderly cfg ls w = Some w' -> serialized cfg w'.
Proof.
  revert w. induction ls as [|l ls IH]; intros w Hw; simpl.
  - by intros [= <-].
  - destruct (orderly l w) eqn:Hord; [|done].
    destruct (step cfg l w) as [w1|] eqn:Hstep; simpl; [|done].
    apply IH. by eapply serialized_step.
Qed.

End WindowedSteps.

(** C2, as amended. In every state that orderly transitions lead to, two
    different sessions of the registry that are both backed by a running
    emulator hold different console ports and different companion ports,
    however the calls are interleaved otherwise.  Orderly: the port finder
    hands out no port that a running emulator of the supervisor holds, and
    hands no call a port while another call holds a port it has not
    spawned its emulator on yet; and pids are not reused.  (A session
    whose emulator has not started yet holds the placeholder pair 0/0, and
    one whose emulator has exited keeps a pair that a later session can
    get.) *)
Theorem running_sessions_hold_distinct_ports
    (cfg : Config) (w : Interleaved.System) (id1 id2 : string)
    (s1 s2 : Session) :
  Interleaved.serialized cfg w ->
  id1 <> id2 ->
  SessionManager.getSession (Interleaved.manager w) id1 = Some s1 ->
  SessionManager.getSession (Interleaved.manager w) id2 = Some s2 ->
  backed (Interleaved.manager w) s1 ->
  backed (Interleaved.manager w) s2 ->
  emulatorPort s1 <> emulatorPort s2 /\ adbPort s1 <> adbPort s2.
Proof.
  intros Hw Hne H1 H2 (pid1 & Hp1 & Hr1) (pid2 & Hp2 & Hr2).
  apply Windowed_serialized in Hw. destruct Hw as [Hw _ _ _ _].
  set (m := Interleaved.manager w) in *.
  apply (getSession_Some m) in H1 as [_ H1]; [|done].
  apply (getSession_Some m) in H2 as [_ H2]; [|done].
  destruct (pid_tracked m Hw id1 s1 pid1 H1 Hp1) as (_ & pr1 & Hpr1 & Hport1 & Hadb1).
  destruct (pid_tracked m Hw id2 s2 pid2 H2 Hp2) as (_ & pr2 & Hpr2 & Hport2 & Hadb2).
  unfold ProcessSupervisor.isRunning in Hr1, Hr2. rewrite Hpr1 in Hr1. rewrite Hpr2 in Hr2.
  assert (emulatorPort s1 <> emulatorPort s2) as Hports.
  { intros Heq. apply Hne.
    assert (pid1 = pid2) as <-
      by (apply (ports_apart m Hw pid1 pid2 pr1 pr2); congruence).
    by apply (pid_owner m Hw id1 id2 s1 s2 pid1). }
  split; [done | lia].
Qed.

(** The amended statement at a concrete state: two calls in flight
    together, the second handed its port after the first has spawned. *)
Lemma running_sessions_hold_distinct_ports_witness :
  let a := Examples.waiting "a" "2026-01-01T00:00:00.000Z" 5554 10 in
  let b := Examples.waiting "b" "2026-01-01T00:00:00.100Z" 5556 11 in
  emulatorPort a <> emulatorPort b /\ adbPort a <> adbPort b.
Proof.
  intros a b.
  apply (running_sessions_hold_distinct_ports Examples.cfg
           Races.afterOneAfterTheOther "a" "b" a b).
  - apply (runOrderly_serialized Examples.cfg Races.oneAfterTheOther
             (Interleaved.initialSystem ∅)).
    + apply Interleaved.serialized_initial.
    + vm_compute. reflexivity.
  - discriminate.
  - vm_compute. reflexivity.
  - vm_compute. reflexivity.
  - exists 10. split; vm_compute; reflexivity.
  - exists 11. split; vm_compute; reflexivity.
Defined.

(** C2, as stated, fails in three ways.  Two calls that are both past the
    creation of their workspace and wait for their emulator to start are
    both in the registry with the console port 0 and the companion port
    0.  Two calls that are handed their port before either has spawned
    are both handed 5554 by a port finder that sees no emulator running:
    both spawn on it, and both sessions are in the registry on the ports
    5554 and 5555 with their emulators running.  And when the emulator of
    a session exits on its own, the session stays in the registry with its
    ports, which the next session gets. *)
Lemma sessions_share_ports_counterexample :
  (Interleaved.run Examples.cfg Races.twoStarting (Interleaved.initialSystem ∅) =
     Some Races.afterTwoStarting /\
   SessionManager.getSession (Interleaved.manager Races.afterTwoStarting) "a" =
     Some (Examples.placeholder "a" "2026-01-01T00:00:00.000Z") /\
   SessionManager.getSession (Interleaved.manager Races.afterTwoStarting) "b" =
     Some (Examples.placeholder "b" "2026-01-01T00:00:00.100Z")) /\
  (Interleaved.run Examples.cfg Races.bothHanded5554 (Interleaved.initialSystem ∅) =
     Some Races.afterBothHanded5554 /\
   SessionManager.getSession (Interleaved.manager Races.afterBothHanded5554) "a" =
     Some (Examples.waiting "a" "2026-01-01T00:00:00.000Z" 5554 10) /\
   SessionManager.getSession (Interleaved.manager Races.afterBothHanded5554) "b" =
     Some (Examples.waiting "b" "2026-01-01T00:00:00.100Z" 5554 11) /\
   ProcessSupervisor.isRunning 10
     (SessionManager.procs (Interleaved.manager Races.afterBothHanded5554)) = true /\
   ProcessSupervisor.isRunning 11
     (SessionManager.procs (Interleaved.manager Races.afterBothHanded5554)) = true) /\
  (Interleaved.runOrderly Examples.cfg Races.portTakenAgain
     (Interleaved.initialSystem ∅) = Some Races.afterPortTakenAgain /\
   SessionManager.getSession (Interleaved.manager Races.afterPortTakenAgain) "a" =
     Some (Examples.waiting "a" "2026-01-01T00:00:00.000Z" 5554 10) /\
   SessionManager.getSession (Interleaved.manager Races.afterPortTakenAgain) "c" =
     Some (Examples.waiting "c" "2026-01-01T00:01:00.000Z" 5554 12)).
Proof.
  split; [|split].
  - do 2 (split; [vm_compute; reflexivity|]). vm_compute. reflexivity.
  - do 4 (split; [vm_compute; reflexivity|]). vm_compute. reflexivity.
  - do 2 (split; [vm_compute; reflexivity|]). vm_compute. reflexivity.
Qed.

(** ** The lifecycle, with the emulator start in its parts *)

Section StagedSteps.

Import ProcessSupervisor WorkspaceManager SessionManager Interleaved.

Lemma fits_starting pc n o :
  starting pc ->
  (fits (awaited pc) n o <->
   n = 3%nat /\
   exists s, o = Some s /\ state s = START_EMULATOR /\
             emulatorPort s = 0 /\ adbPort s = 0 /\ emulatorPid s = None).
Proof. unfold starting. by destruct (awaited pc). Qed.

Lemma starting_pastCreation pc : starting pc -> pastCreation (awaited pc).
Proof. unfold starting. by destruct (awaited pc). Qed.

(** What resuming a call does: a step outside of [emulatorAdapter.start],
    which is one of [startSession_resume]; or a step inside, which throws,
    or goes on inside and leaves objects, registry and events alone, or
    returns from [start] and writes ports, pid and state. *)
Lemma resume_cases cfg id input pc answer m m' pc' :
  resume cfg id input pc answer m = Some (m', pc') ->
  (exists pc0 reply pc0',
     pc = Outside pc0 /\ answer = Settled reply /\ pc' = Outside pc0' /\
     (forall avd ws, pc0 <> AtEmulatorStart avd ws) /\
     startSession_resume cfg id input pc0 reply m = Some (m', pc0')) \/
  (starting pc /\
   ((exists e, thrown id e m = (m', pc')) \/
    (starting pc' /\ heap m' = heap m /\ sessions m' = sessions m /\
     emitted m' = emitted m) \/
    (exists avd ws c pid,
       pc = AtSettleDelay avd ws c pid /\ pc' = Outside (AtWaitForBoot avd) /\
       m' = assign id (withState WAIT_BOOT)
              (updateState id WAIT_BOOT
                 (assign id
                    (withEmulator
                       {| EmulatorAdapter.pid := pid;
                          EmulatorAdapter.consolePort := c;
                          EmulatorAdapter.adbPort := c + 1 |}) m))))).
Proof.
  intros Hres. destruct pc as [pc0|avd ws|avd ws c|avd ws c pid].
  - destruct answer as [reply|out|available logStreamError|r|].
    + left. apply resume_outside in Hres as (Hne & pc0' & -> & Hres).
      by exists pc0, reply, pc0'.
    + right. destruct pc0; try done. split; [done|].
      cbv beta iota delta [resume] in Hres. cbv zeta in Hres.
      destruct (EmulatorAdapter.listAvds cfg out) as [avds|e].
      * destruct (negb _); simplify_eq; [left; eauto|].
        right; left. done.
      * simplify_eq. left; eauto.
    + destruct pc0; done.
    + destruct pc0; done.
    + destruct pc0; done.
  - right. split; [done|].
    destruct answer as [reply|out|available logStreamError|r|]; try done.
    cbv beta iota delta [resume] in Hres. cbv zeta in Hres.
    destruct (PortFinder.findAvailableEven _ _ _) as [c|e].
    + destruct logStreamError; simplify_eq; [left; eauto|].
      right; left. done.
    + simplify_eq. left; eauto.
  - right. split; [done|].
    destruct answer as [reply|out|available logStreamError|r|]; try done.
    cbv beta iota delta [resume] in Hres.
    destruct r as [p|[code message|code message]].
    + simplify_eq. right; left. done.
    + simplify_eq. left; eauto.
    + destruct (bool_decide _); simplify_eq; left; eauto.
  - right. split; [done|].
    destruct answer as [reply|out|available logStreamError|r|]; try done.
    cbv beta iota delta [resume] in Hres. cbv zeta in Hres.
    destruct (negb _); simplify_eq.
    + left; eauto.
    + right; right. exists avd, ws, c, pid. done.
Qed.

(** What resuming a call does to the rest. *)
Lemma resume_frame cfg id input pc answer m m' pc' :
  resume cfg id input pc answer m = Some (m', pc') ->
  forall id', id' <> id ->
    heap m' !! id' = heap m !! id' /\
    sessions m' !! id' = sessions m !! id' /\
    eventsOf id' m' = eventsOf id' m.
Proof.
  intros Hres id' Hne.
  apply resume_cases in Hres
    as [(pc0 & reply & pc0' & -> & -> & -> & _ & Hres)
       |[_ [(e & He)|[(_ & Hh & Hs & He)|(avd & ws & c & pid & -> & -> & ->)]]]].
  - by apply (startSession_resume_frame _ _ _ _ _ _ _ _ Hres).
  - apply thrown_spec in He as (-> & _). simpl.
    rewrite lookup_alter_ne by done. split; [done|]. split; [done|].
    by apply eventsOf_same_emitted.
  - rewrite Hh, Hs. split; [done|]. split; [done|].
    by apply eventsOf_same_emitted.
  - simpl. rewrite !lookup_alter_ne by done. split; [done|]. split; [done|].
    erewrite (eventsOf_snoc id' id _ m) by reflexivity.
    rewrite decide_False by (intros [? _]; congruence). apply app_nil_r.
Qed.

(** What resuming a call does to its own progress. *)
Lemma resume_progress cfg id input pc answer m m' pc' n :
  eventsOf id m = take n lifecycle ->
  fits (awaited pc) n (heap m !! id) ->
  resume cfg id input pc answer m = Some (m', pc') ->
  exists n', eventsOf id m' = take n' lifecycle /\
             fits (awaited pc') n' (heap m' !! id).
Proof.
  intros Hev Hfits Hres.
  apply resume_cases in Hres
    as [(pc0 & reply & pc0' & -> & -> & -> & _ & Hres)
       |[Hin [(e & He)|[(Hin' & Hh & Hs & He)|(avd & ws & c & pid & -> & -> & ->)]]]].
  - by apply (startSession_resume_progress _ _ _ _ _ _ _ _ _ Hev Hfits Hres).
  - apply (fits_starting _ _ _ Hin) in Hfits as (-> & s & Hs & Hst & _).
    apply thrown_spec in He as (-> & pc0 & -> & Hpc0).
    exists 3%nat. split.
    + rewrite <- Hev. by apply eventsOf_same_emitted.
    + simpl. rewrite lookup_alter_eq, Hs. simpl.
      destruct Hpc0 as [->|(pid & ->)]; simpl; split; (lia || done).
  - exists n. split.
    + rewrite <- Hev. by apply eventsOf_same_emitted.
    + rewrite Hh. apply (fits_starting _ _ _ Hin'). by apply (fits_starting _ _ _ Hin).
  - apply (fits_starting _ _ _ Hin) in Hfits as (-> & s & Hs & Hst & _).
    exists 4%nat. split.
    + erewrite (eventsOf_snoc id id _ m) by reflexivity.
      rewrite decide_True by done. rewrite Hev. reflexivity.
    + simpl. rewrite !lookup_alter_eq, Hs. done.
Qed.

(** A call that is past the creation of its workspace has its entry,
    unless something else removed it. *)
Lemma resume_entered cfg id input pc answer m m' pc' :
  resume cfg id input pc answer m = Some (m', pc') ->
  pastCreation (awaited pc') ->
  (pastCreation (awaited pc) -> sessions m !! id = Some id) ->
  sessions m' !! id = Some id.
Proof.
  intros Hres Hpast Hold.
  apply resume_cases in Hres
    as [(pc0 & reply & pc0' & -> & -> & -> & _ & Hres)
       |[Hin [(e & He)|[(Hin' & Hh & Hs & He)|(avd & ws & c & pid & -> & -> & ->)]]]].
  - by apply (startSession_resume_registered _ _ _ _ _ _ _ _ Hres).
  - apply thrown_spec in He as (-> & _). simpl.
    by apply Hold, starting_pastCreation.
  - rewrite Hs. by apply Hold, starting_pastCreation.
  - simpl. by apply Hold.
Qed.

(** Resuming a [stopSession] call removes an entry only when the call
    resolves, and a call that has resolved is not resumed. *)
Lemma stopSession_resume_entry id pc reply m m' pc' :
  stopSession_resume id pc reply m = Some (m', pc') ->
  pc <> StopResolved /\ (pc' = StopResolved \/ sessions m' = sessions m).
Proof.
  intros Hstep. destruct pc, reply; simpl in Hstep; simplify_eq; simpl.
  - split; [done|]. by right.
  - split; [done|]. by left.
Qed.

Lemma Staged_initial d : Staged (initialSystem d).
Proof.
  split; simpl.
  - intros id _. unfold eventsOf. simpl. rewrite !lookup_empty. done.
  - intros id input pc. rewrite lookup_empty. done.
  - intros id input pc. rewrite lookup_empty. done.
Qed.

Lemma Staged_step cfg l w w' :
  Staged w -> step cfg l w = Some w' -> Staged w'.
Proof.
  intros [Hun Hpro Hreg] Hstep.
  apply interleaved_step_cases in Hstep
    as [(id & input & -> & Hnew & ->)
       |[(id & answer & input & pc & m' & pc' & -> & Hid & _ & Hres & ->)
       |[(id & m' & pc & -> & Hcall & ->)
       |[(k & reply & id & pc & m' & pc' & -> & Hk & Hres & ->)
       |(pid & -> & ->)]]]].
  - (* startSession is called *)
    destruct (Hun id Hnew) as (Hev & Hheap & Hsess).
    split; simpl.
    + intros id'. rewrite lookup_insert. case_decide as Hne; [done|].
      intros Hnone. destruct (Hun id' Hnone) as (Hev' & Hheap' & Hsess').
      split; [|done].
      erewrite (eventsOf_snoc id' id _ (manager w)) by reflexivity.
      rewrite decide_False by (intros [? _]; congruence).
      by rewrite Hev'.
    + intros id' input' pc. rewrite lookup_insert. case_decide as Hne.
      * subst id'. intros [= <- <-]. exists 1%nat. split; [|done].
        erewrite (eventsOf_snoc id id _ (manager w)) by reflexivity.
        rewrite decide_True by done. by rewrite Hev.
      * intros Hid'. destruct (Hpro id' input' pc Hid') as (n & Hn & Hfits).
        exists n. split; [|done].
        erewrite (eventsOf_snoc id' id _ (manager w)) by reflexivity.
        rewrite decide_False by (intros [? _]; congruence).
        by rewrite app_nil_r.
    + intros id' input' pc. rewrite lookup_insert. case_decide as Hne.
      * intros [= <- <-]. done.
      * intros Hid' Hpast Hstop. by apply (Hreg id' input' pc).
  - (* a startSession call is resumed *)
    pose proof (resume_frame _ _ _ _ _ _ _ _ Hres) as Hframe.
    split; simpl.
    + intros id'. rewrite lookup_insert. case_decide as Hne; [done|].
      intros Hnone. destruct (Hun id' Hnone) as (Hev' & Hheap' & Hsess').
      destruct (Hframe id') as (-> & -> & ->); [congruence|]. done.
    + intros id' input' pc0. rewrite lookup_insert. case_decide as Hne.
      * subst id'. intros [= <- <-].
        destruct (Hpro id input pc Hid) as (n & Hn & Hfits).
        eauto using resume_progress.
      * intros Hid'. destruct (Hframe id') as (-> & _ & ->); [congruence|].
        by apply (Hpro id' input' pc0).
    + intros id' input' pc0. rewrite lookup_insert. case_decide as Hne.
      * subst id'. intros [= <- <-] Hpast Hstop.
        eapply resume_entered; [done|done|].
        intros Hpast0. by apply (Hreg id input pc).
      * intros Hid' Hpast Hstop.
        destruct (Hframe id') as (_ & -> & _); [congruence|].
        by apply (Hreg id' input' pc0).
  - (* stopSession is called *)
    apply stopSession_call_same in Hcall as ->.
    split; simpl; [done|done|].
    intros id' input' pc0 Hid' Hpast Hstop. apply (Hreg id' input' pc0 Hid' Hpast).
    intros (j & Hj). apply Hstop. exists j. simpl.
    by apply lookup_app_l_Some.
  - (* a stopSession call is resumed *)
    pose proof (stopSession_resume_entry _ _ _ _ _ _ Hres) as (Hpc & Hentry).
    apply stopSession_resume_frame in Hres as (Hheap & Hemit & Hother & Hnone).
    split; simpl.
    + intros id' Hid'. destruct (Hun id' Hid') as (Hev' & Hheap' & Hsess').
      rewrite Hheap, (eventsOf_same_emitted id' (manager w) m' Hemit). auto.
    + intros id' input' pc0 Hid'. rewrite Hheap.
      rewrite (eventsOf_same_emitted id' (manager w) m' Hemit). by apply (Hpro id' input' pc0).
    + intros id' input' pc0 Hid' Hpast Hstop.
      assert (k < length (stops w))%nat as Hlen by (by eapply lookup_lt_Some).
      assert (sessions m' !! id' = sessions (manager w) !! id') as ->.
      { destruct (decide (id' = id)) as [->|Hne]; [|by apply Hother].
        destruct Hentry as [Hpc' | Hsame]; [|by rewrite Hsame]. subst pc'.
        exfalso. apply Hstop. exists k. simpl. by rewrite list_lookup_insert_eq. }
      apply (Hreg id' input' pc0 Hid' Hpast).
      intros (j & Hj). destruct (decide (j = k)) as [->|Hjk].
      * congruence.
      * apply Hstop. exists j. simpl. by rewrite list_lookup_insert_ne.
  - (* an emulator exits *)
    split; simpl; done.
Qed.

(** Every state that calls can reach is staged. *)
Lemma Staged_attainable cfg w : attainable cfg w -> Staged w.
Proof.
  induction 1 as [d|w l w' _ IH Hstep]; [apply Staged_initial|].
  by eapply Staged_step.
Qed.

Lemma run_attainable cfg ls w w' :
  attainable cfg w -> run cfg ls w = Some w' -> attainable cfg w'.
Proof.
  revert w. induction ls as [|l ls IH]; intros w Hw Hrun; simpl in Hrun.
  - by simplify_eq.
  - destruct (step cfg l w) as [w1|] eqn:Hstep; simpl in Hrun; [|done].
    apply (IH w1); [|done]. by eapply attainable_step.
Qed.

End StagedSteps.

(** ** The lifecycle of a call *)

Section Failing.

Import ProcessSupervisor WorkspaceManager SessionManager Interleaved.







End Failing.




(** ** A session while its emulator starts *)

(** C10, as amended.  Between the creation of its workspace and the return
    of [emulatorAdapter.start], at whichever [await] inside [start] the
    call is suspended and whatever other calls do meanwhile, the session
    of a [startSession] call is in the registry already, unless a
    [stopSession] call for its id has resolved: [getSession] and
    [getAllSessions] return it, with the placeholder ports 0 and 0, no
    pid and the state START_EMULATOR, so that the device id derived from
    it is ["emulator--1"]. *)
Theorem starting_session_is_registered_with_placeholders
    (cfg : Config) (w : Interleaved.System) (id : string)
    (input : StartInput) (pc : Interleaved.Pc) :
  attainable cfg w ->
  Interleaved.starts w !! id = Some (input, pc) ->
  starting pc ->
  ~ stopResolved w id ->
  exists s,
    SessionManager.getSession (Interleaved.manager w) id = Some s /\
    s ∈ SessionManager.getAllSessions (Interleaved.manager w) /\
    emulatorPort s = 0 /\ adbPort s = 0 /\ emulatorPid s = None /\
    state s = START_EMULATOR /\
    deviceIdOf (adbPort s) = "emulator--1".
Proof.
  intros Hw Hid Hin Hstop. apply Staged_attainable in Hw.
  destruct (advanced w Hw id input pc Hid) as (n & _ & Hfits).
  apply (fits_starting _ _ _ Hin) in Hfits as (_ & s & Hs & Hst & Hp & Ha & Hpid).
  pose proof (entered w Hw id input pc Hid (starting_pastCreation pc Hin) Hstop)
    as Hreg.
  assert (SessionManager.getSession (Interleaved.manager w) id = Some s) as Hget.
  { unfold SessionManager.getSession. rewrite Hreg. exact Hs. }
  exists s. split; [done|]. split; [apply elem_of_getAllSessions; eauto|].
  repeat split; try done. rewrite Ha. reflexivity.
Qed.

Lemma starting_session_is_registered_with_placeholders_witness :
  exists s,
    SessionManager.getSession (Interleaved.manager Races.afterSettling) "a" = Some s /\
    s ∈ SessionManager.getAllSessions (Interleaved.manager Races.afterSettling) /\
    emulatorPort s = 0 /\ adbPort s = 0 /\ emulatorPid s = None /\
    state s = START_EMULATOR /\
    deviceIdOf (adbPort s) = "emulator--1".
Proof.
  apply (starting_session_is_registered_with_placeholders Examples.cfg
           Races.afterSettling "a" Examples.input
           (Interleaved.AtSettleDelay Examples.avdSetup
              {| WorkspaceManager.path := "/home/u/.sniaff/workspaces/a";
                 WorkspaceManager.logsDir := "/home/u/.sniaff/workspaces/a/logs" |}
              5554 10)).
  - apply (run_attainable Examples.cfg Races.settling
             (Interleaved.initialSystem ∅)).
    + apply attainable_initial.
    + vm_compute. reflexivity.
  - vm_compute. reflexivity.
  - exact I.
  - intros (k & Hk). vm_compute in Hk. destruct k; discriminate Hk.
Defined.

(** C10, as stated, fails when [stopSession] is called for the session
    meanwhile.  The call has created its workspace and is suspended
    inside [emulatorAdapter.start]; a [stopSession] call for its id
    resolves; the call is still suspended there, and the session is not
    in the registry: [getSession] finds nothing and [getAllSessions]
    returns nothing. *)
Lemma starting_session_unregistered_counterexample :
  Interleaved.run Examples.cfg Flights.stoppedWhileListing
    (Interleaved.initialSystem ∅) = Some Flights.afterStoppedWhileListing /\
  Interleaved.starts Flights.afterStoppedWhileListing !! "a" =
    Some (Examples.input,
          Interleaved.Outside
            (SessionManager.AtEmulatorStart Examples.avdSetup
               {| WorkspaceManager.path := "/home/u/.sniaff/workspaces/a";
                  WorkspaceManager.logsDir := "/home/u/.sniaff/workspaces/a/logs" |})) /\
  Interleaved.stops Flights.afterStoppedWhileListing =
    [("a", SessionManager.StopResolved)] /\
  SessionManager.getSession (Interleaved.manager Flights.afterStoppedWhileListing) "a" =
    None /\
  SessionManager.getAllSessions (Interleaved.manager Flights.afterStoppedWhileListing) =
    [].
Proof.
  do 4 (split; [vm_compute; reflexivity|]). vm_compute. reflexivity.
Qed.
